(** * sqlc-gen-go: nesting-configuration resolver

    A shallow embedding of the nested-query part of the generator
    ([internal/nested.go], [internal/nested_composites.go],
    [internal/nested_validation.go], the naming helpers and the option
    accessors of [internal/opts]) together with the properties stated about
    it.  Further parts of the generator follow: the sources of a request, the
    names of the generated files, the check for name conflicts and the
    parsing of the options ([internal/gen.go]), the template helpers
    ([internal/template_utils.go]) and the earlier builder for
    configurations without composites.

    Conventions of the embedding:
    - Go strings are [string] (byte strings); the naming helpers are modelled
      on ASCII input, where Go's byte indexing, its regular expressions and
      [strings.ToUpper]/[strings.ToLower] agree with the byte-wise functions
      below.
    - Go maps are [gmap]; a nil pointer is [None]; a struct reached through a
      pointer is a value, threaded explicitly where the code mutates it.
    - [compositeStructRegistry], the package-level map, is threaded as
      explicit state.
    - a Go [error] is a value of the type [error] below, which keeps the
      arguments of each [fmt.Errorf] call apart rather than formatted into one
      string; a run-time panic (nil dereference) is a result of its own.
    - recursion that follows composite references has no structural bound in
      the source; those functions take a recursion budget and return [None]
      when it is exhausted. *)

From Stdlib Require Import String Ascii List Bool Arith Lia ZArith.
From Stdlib Require OrderedTypeEx.
From stdpp Require Import base option list gmap strings sorting.

Import ListNotations.
Open Scope string_scope.
Open Scope list_scope.

Set Warnings "-register-all,-notation-for-abbreviation".

(** ** Go string primitives (ASCII) *)

Definition isUpperAZ (c : ascii) : bool :=
  let n := nat_of_ascii c in (65 <=? n)%nat && (n <=? 90)%nat.

Definition isLowerAZ (c : ascii) : bool :=
  let n := nat_of_ascii c in (97 <=? n)%nat && (n <=? 122)%nat.

Definition isDigit (c : ascii) : bool :=
  let n := nat_of_ascii c in (48 <=? n)%nat && (n <=? 57)%nat.

Definition upperChar (c : ascii) : ascii :=
  if isLowerAZ c then ascii_of_nat (nat_of_ascii c - 32) else c.

Definition lowerChar (c : ascii) : ascii :=
  if isUpperAZ c then ascii_of_nat (nat_of_ascii c + 32) else c.

(** [strings.ToUpper] and [strings.ToLower]. *)
Fixpoint ToUpper (s : string) : string :=
  match s with
  | EmptyString => EmptyString
  | String c r => String (upperChar c) (ToUpper r)
  end.

Fixpoint ToLower (s : string) : string :=
  match s with
  | EmptyString => EmptyString
  | String c r => String (lowerChar c) (ToLower r)
  end.

Definition underscore : ascii := "_"%char.

(** [strings.Contains(s, "_")]. *)
Fixpoint containsUnderscore (s : string) : bool :=
  match s with
  | EmptyString => false
  | String c r => if Ascii.eqb c underscore then true else containsUnderscore r
  end.

(** [strings.Split(s, "_")]: one more part than there are separators, empty
    parts kept. *)
Fixpoint splitUnderscore (s : string) : list string :=
  match s with
  | EmptyString => [EmptyString]
  | String c r =>
      if Ascii.eqb c underscore then EmptyString :: splitUnderscore r
      else match splitUnderscore r with
           | [] => [String c EmptyString]
           | p :: ps => String c p :: ps
           end
  end.

(** [strings.Join(parts, sep)]. *)
Fixpoint Join (parts : list string) (sep : string) : string :=
  match parts with
  | [] => EmptyString
  | [p] => p
  | p :: ps => p +:+ sep +:+ Join ps sep
  end.

(** ** Naming engine *)

(** The keys of [commonInitialisms]. *)
Definition commonInitialismsList : list string :=
  [ "ACL"; "API"; "ASCII"; "CPU"; "CSS"; "DNS"; "EOF"; "GUID"; "HTML"; "HTTP";
    "HTTPS"; "ID"; "IP"; "JSON"; "LHS"; "QPS"; "RAM"; "RHS"; "RPC"; "SLA";
    "SMTP"; "SQL"; "SSH"; "TCP"; "TLS"; "TTL"; "UDP"; "UI"; "UID"; "UUID";
    "URI"; "URL"; "UTF8"; "VM"; "XML"; "XMPP"; "XSRF"; "XSS" ].

(** [commonInitialisms[s]]: a missing key reads as false. *)
Definition commonInitialisms (s : string) : bool :=
  existsb (String.eqb s) commonInitialismsList.

(** [namingCamelPattern.ReplaceAllStringFunc(s, x => x[:1] + "_" + x[1:])]
    for the pattern [[^A-Z][A-Z]+].  A match starts at every position whose
    character is outside A-Z and whose successor is inside A-Z, and extends
    over the following run of A-Z; such a starting character can lie in no
    earlier match, so the non-overlapping matches are exactly those, and the
    replacement puts one underscore after each starting character. *)
Fixpoint namingCamelReplace (s : string) : string :=
  match s with
  | EmptyString => EmptyString
  | String c r =>
      match r with
      | String d _ =>
          if negb (isUpperAZ c) && isUpperAZ d
          then String c (String underscore (namingCamelReplace r))
          else String c (namingCamelReplace r)
      | EmptyString => String c EmptyString
      end
  end.

Definition PascalToSnakeCase (s : string) : string :=
  if String.eqb s "" then s else ToLower (namingCamelReplace s).

(** The body of the loop of [ToPascalCaseWithInitialisms] for one part. *)
Definition pascalPart (part : string) : string :=
  match part with
  | EmptyString => EmptyString
  | String c r =>
      let upperPart := ToUpper part in
      if commonInitialisms upperPart then upperPart
      else String (upperChar c) (ToLower r)
  end.

Definition ToPascalCaseWithInitialisms (s : string) : string :=
  if String.eqb s "" then s
  else
    let snakeCase := if containsUnderscore s then s else PascalToSnakeCase s in
    let parts := splitUnderscore snakeCase in
    fold_left (fun result part => result +:+ pascalPart part) parts "".


(** [inflectCasePreserving]; [inflectFunc] is [flect.Pluralize] or
    [flect.Singularize], functions of an external library. *)
Definition inflectCasePreserving (word : string) (inflectFunc : string -> string)
  : string :=
  match word with
  | EmptyString => word
  | String c _ =>
      if isUpperAZ c then
        let snakeCase :=
          if containsUnderscore word then word else PascalToSnakeCase word in
        let parts := splitUnderscore snakeCase in
        if (1 <? length parts)%nat then
          let lastPart := List.last parts "" in
          ToPascalCaseWithInitialisms
            (Join (removelast parts ++ [inflectFunc lastPart]) "_")
        else
          ToPascalCaseWithInitialisms (inflectFunc (ToLower word))
      else inflectFunc word
  end.

(** ** Configuration ([internal/opts]) *)

Record NestedMatchConfig := mkNestedMatchConfig {
  FromStruct : option string;
  FromField : option string;
  ToStruct : string;
  ToField : option string
}.

(** [NestedGroupConfig]; the three [*bool] options are [option bool]. *)
Inductive NestedGroupConfig := mkNestedGroupConfig {
  gFieldGroupBy : string;
  gFieldOut : string;
  gStructIn : string;
  gStructOut : string;
  gIsSlice : option bool;
  gIsPointer : option bool;
  gIsComposite : option bool;
  gGroup : list NestedGroupConfig;
  gMatch : list NestedMatchConfig
}.

Definition GetIsSlice (n : NestedGroupConfig) : bool :=
  match gIsSlice n with None => true | Some v => v end.

Definition GetIsPointer (n : NestedGroupConfig) : bool :=
  match gIsPointer n with None => true | Some v => v end.

(** [return n.IsComposite == nil || *n.IsComposite] *)
Definition GetIsComposite (n : NestedGroupConfig) : bool :=
  match gIsComposite n with None => true | Some v => v end.

(** The test [c.IsComposite != nil && *c.IsComposite], written inline in
    [buildCompositeStructRegistry], [getNestedFields] and
    [shouldReuseEntityStruct]. *)
Definition isCompositeSet (n : NestedGroupConfig) : bool :=
  match gIsComposite n with None => false | Some v => v end.

Record NestedCompositeConfig := mkNestedCompositeConfig {
  cName : string;
  cStructRootIn : string;
  cGroup : list NestedGroupConfig
}.

Record NestedQueryConfig := mkNestedQueryConfig {
  qcQuery : string;
  qcFieldGroupBy : string;
  qcStructRoot : string;
  qcGroup : list NestedGroupConfig;
  qcIsComposite : option bool
}.

Record NestedConfig := mkNestedConfig {
  Composites : list NestedCompositeConfig;
  Queries : list NestedQueryConfig
}.

(** The fields of [Options] the nested builder reads. *)
Record Options := mkOptions {
  EmitJsonTags : bool;
  EmitResultStructPointers : bool;
  OutputModelsPackage : string;
  Nested : option NestedConfig
}.

(** ** Catalog: fields, structs and queries *)

Record Field := mkField {
  fName : string;
  fDBName : string;
  fType : string;
  fTags : gmap string string
}.

Record Struct := mkStruct {
  sName : string;
  sFields : list Field
}.

(** [Query], with [Ret.Struct] a pointer that may be nil. *)
Record Query := mkQuery {
  MethodName : string;
  SourceName : string;
  RetStruct : option Struct
}.

(** Functions the builder calls whose source lies outside this package:
    [flect.Pluralize], [flect.Singularize], [JSONTagName] and
    [getStructByName]; and the order in which a [range] over a Go map visits
    its entries, which the language leaves unspecified. *)
Record Externals := mkExternals {
  flectPluralize : string -> string;
  flectSingularize : string -> string;
  JSONTagName : string -> Options -> string;
  getStructByName : list Struct -> string -> option Struct;
  mapRange : gmap string string -> list (string * string)
}.

Definition PluralizeCasePreserving (ext : Externals) (word : string) : string :=
  inflectCasePreserving word (flectPluralize ext).

Definition SingularizeCasePreserving (ext : Externals) (word : string) : string :=
  inflectCasePreserving word (flectSingularize ext).

(** ** Default values ([populateNestedConfigWithDefaultValues]) *)

(** The defaults are written into the node itself; the node's [Group] is left
    as it is. *)
Definition populateNestedConfigItemWithDefaultValues
    (config : NestedGroupConfig) : NestedGroupConfig :=
  let structOut :=
    if String.eqb (gStructOut config) "" then gStructIn config
    else gStructOut config in
  let isComposite :=
    match gIsComposite config with Some v => v | None => false end in
  let fieldGroupBy :=
    if String.eqb (gFieldGroupBy config) "" then "ID" else gFieldGroupBy config in
  let isSlice := match gIsSlice config with Some v => v | None => true end in
  let isPointer := match gIsPointer config with Some v => v | None => true end in
  let matches :=
    map (fun m =>
           {| FromStruct := match FromStruct m with
                            | None => Some (gStructIn config)
                            | some => some
                            end;
              FromField := match FromField m with
                           | None => Some fieldGroupBy
                           | some => some
                           end;
              ToStruct := ToStruct m;
              ToField := match ToField m with
                         | None => Some fieldGroupBy
                         | some => some
                         end |})
        (gMatch config) in
  {| gFieldGroupBy := fieldGroupBy;
     gFieldOut := gFieldOut config;
     gStructIn := gStructIn config;
     gStructOut := structOut;
     gIsSlice := Some isSlice;
     gIsPointer := Some isPointer;
     gIsComposite := Some isComposite;
     gGroup := gGroup config;
     gMatch := matches |}.

Definition populateNestedConfigWithDefaultValues (options : Options) : Options :=
  match Nested options with
  | None => options
  | Some nested =>
      {| EmitJsonTags := EmitJsonTags options;
         EmitResultStructPointers := EmitResultStructPointers options;
         OutputModelsPackage := OutputModelsPackage options;
         Nested := Some
           {| Queries :=
                map (fun config =>
                       {| qcQuery := qcQuery config;
                          qcFieldGroupBy := qcFieldGroupBy config;
                          qcStructRoot := qcStructRoot config;
                          qcGroup :=
                            map populateNestedConfigItemWithDefaultValues
                                (qcGroup config);
                          qcIsComposite := qcIsComposite config |})
                    (Queries nested);
              Composites :=
                map (fun config =>
                       {| cName := cName config;
                          cStructRootIn := cStructRootIn config;
                          cGroup :=
                            map populateNestedConfigItemWithDefaultValues
                                (cGroup config) |})
                    (Composites nested) |} |}
  end.

(** ** Errors and results *)

(** One constructor per [fmt.Errorf] call of the nested builder, carrying the
    call's arguments; [ErrWrap] is a [%w] wrapping with its prefix. *)
Inductive error :=
| ErrCompositeNotInRegistryDirect (compositeName : string)
| ErrCompositeNotInRegistryResolving (compositeName : string)
| ErrQueryNotFound (queryName : string)
| ErrRootCompositeFields
    (compositeStructName : string) (missingFields : list string)
    (entityStructName : string) (formattedFields : string)
| ErrNestedCompositeFields
    (compositeStructName parentStructName : string)
    (missingFields : list string)
    (entityStructName : string) (formattedFields : string)
| ErrInterfaceValidation
    (compositeStructOut rootStructName parentStructOut : string)
    (missingMethods : string)
| ErrWrap (prefix : string) (inner : error).

(** The outcome of a call that returns [(value, error)] and may panic. *)
Inductive Res (A : Type) :=
| Ok (a : A)
| Err (e : error)
| Panic.

Arguments Ok {A} a.
Arguments Err {A} e.
Arguments Panic {A}.

(** ** Composite registry ([internal/nested_composites.go]) *)

Record CompositeStructData := mkCompositeStructData {
  Config : NestedCompositeConfig;
  DirectNestedFields : list string;
  NestedFieldToCompositeNameMap : gmap string string;
  EntityFieldsToExclude : list string;
  IsStructAlreadyGenerated : bool
}.

(** The value of the package variable [compositeStructRegistry]. *)
Notation Registry := (gmap string CompositeStructData).

Definition setEntityFieldsToExclude (d : CompositeStructData)
    (fields : list string) : CompositeStructData :=
  {| Config := Config d;
     DirectNestedFields := DirectNestedFields d;
     NestedFieldToCompositeNameMap := NestedFieldToCompositeNameMap d;
     EntityFieldsToExclude := fields;
     IsStructAlreadyGenerated := IsStructAlreadyGenerated d |}.

Definition setIsStructAlreadyGenerated (d : CompositeStructData)
    (v : bool) : CompositeStructData :=
  {| Config := Config d;
     DirectNestedFields := DirectNestedFields d;
     NestedFieldToCompositeNameMap := NestedFieldToCompositeNameMap d;
     EntityFieldsToExclude := EntityFieldsToExclude d;
     IsStructAlreadyGenerated := v |}.

Definition registerCompositeStructData
    (config : NestedCompositeConfig) (nestedFields : list string)
    (nestedFieldToCompositeNameMap : gmap string string)
    (reg : Registry) : Registry :=
  <[cName config :=
      {| Config := config;
         DirectNestedFields := nestedFields;
         NestedFieldToCompositeNameMap := nestedFieldToCompositeNameMap;
         EntityFieldsToExclude := [];
         IsStructAlreadyGenerated := false |}]> reg.

(** The inner loop of pass 1 over [composite.Group]. *)
Definition directNestedOf (group : list NestedGroupConfig)
  : list string * gmap string string :=
  fold_left
    (fun acc childNestedItem =>
       let '(nestedFields, m) := acc in
       (nestedFields ++ [gStructIn childNestedItem],
        if isCompositeSet childNestedItem
        then <[gStructIn childNestedItem := gStructOut childNestedItem]> m
        else m))
    group ([], ∅).

(** The body of the loop of [resolveAllTreeCompositeFields] over the
    references of a composite, with [resolve] the recursive call: the first
    failure ends the loop. *)
Definition resolveStep (resolve : string -> option (Res (list string)))
    (acc : option (Res (list string))) (entry : string * string)
  : option (Res (list string)) :=
  match acc with
  | Some (Ok entityFields) =>
      match resolve entry.2 with
      | Some (Ok allNestedCompositeFields) =>
          Some (Ok (entityFields ++ allNestedCompositeFields))
      | other => other
      end
  | other => other
  end.

(** [resolveAllTreeCompositeFields].  The recursion follows the references
    between composites and is bounded by nothing in the source: [fuel] is the
    depth of calls allowed, and [None] says that it was exceeded. *)
Fixpoint resolveAllTreeCompositeFields (ext : Externals) (fuel : nat)
    (reg : Registry) (compositeName : string) : option (Res (list string)) :=
  match fuel with
  | O => None
  | S fuel' =>
      match reg !! compositeName with
      | None => Some (Err (ErrCompositeNotInRegistryDirect compositeName))
      | Some compositeInfo =>
          fold_left
            (resolveStep (resolveAllTreeCompositeFields ext fuel' reg))
            (mapRange ext (NestedFieldToCompositeNameMap compositeInfo))
            (Some (Ok (DirectNestedFields compositeInfo)))
      end
  end.

(** Pass 1 of [buildCompositeStructRegistry]. *)
Definition registerAll (composites : list NestedCompositeConfig)
    (reg : Registry) : Registry :=
  fold_left
    (fun reg composite =>
       let '(nestedFields, m) := directNestedOf (cGroup composite) in
       registerCompositeStructData composite nestedFields m reg)
    composites reg.

(** The body of the loop of pass 2 of [buildCompositeStructRegistry]; the
    first failure ends the loop. *)
Definition resolveOne (ext : Externals) (fuel : nat)
    (acc : option (Res Registry)) (composite : NestedCompositeConfig)
  : option (Res Registry) :=
  match acc with
  | Some (Ok reg) =>
      match resolveAllTreeCompositeFields ext fuel reg (cName composite) with
      | Some (Ok fields) =>
          match reg !! cName composite with
          | None =>
              Some (Err (ErrCompositeNotInRegistryResolving (cName composite)))
          | Some compositeStruct =>
              Some (Ok (<[cName composite :=
                            setEntityFieldsToExclude compositeStruct fields]>
                          reg))
          end
      | Some (Err e) => Some (Err e)
      | Some Panic => Some Panic
      | None => None
      end
  | other => other
  end.

(** Pass 2 of [buildCompositeStructRegistry]. *)
Definition resolveAll (ext : Externals) (fuel : nat)
    (composites : list NestedCompositeConfig) (reg : Registry)
  : option (Res Registry) :=
  fold_left (resolveOne ext fuel) composites (Some (Ok reg)).

Definition buildCompositeStructRegistry (ext : Externals) (fuel : nat)
    (options : Options) (reg : Registry) : option (Res Registry) :=
  let compositesConfigItems :=
    match Nested options with
    | Some nested => Composites nested
    | None => []
    end in
  resolveAll ext fuel compositesConfigItems
             (registerAll compositesConfigItems reg).

(** [getNestedFields], reading the registry: the contribution of one element
    of [config], and the loop.  (The guard [len(nested.Group) > 0] of the
    recursive call is subsumed: an empty group contributes nothing.) *)
Fixpoint getNestedFieldsItem (reg : Registry) (nested : NestedGroupConfig)
  : list string :=
  if isCompositeSet nested then
    match reg !! gStructOut nested with
    | Some compositeData =>
        if (0 <? length (DirectNestedFields compositeData))%nat
        then EntityFieldsToExclude compositeData
        else []
    | None => []
    end
  else
    gStructIn nested :: flat_map (getNestedFieldsItem reg) (gGroup nested).

Definition getNestedFields (reg : Registry) (config : list NestedGroupConfig)
  : list string :=
  flat_map (getNestedFieldsItem reg) config.

(** ** Resolved trees ([internal/nested.go]) *)

(** [NestedStructData].  [DuplicatedRelativeToParents] is a [map[int]bool],
    nil (read as empty) until first written. *)
Inductive NestedStructData := mkNestedStructData {
  StructIn : string;
  StructOut : string;
  FieldGroupBy : string;
  FieldName : string;
  FieldType : string;
  RowFieldName : string;
  RowFieldType : string;
  IsRowFieldExistsInQuery : bool;
  FieldTags : gmap string string;
  KeyType : string;
  IsSlice : bool;
  IsPointer : bool;
  IsComposite : bool;
  IsEntityStruct : bool;
  IsRoot : bool;
  Match : list NestedMatchConfig;
  DuplicatedRelativeToParents : gmap nat bool;
  Fields : list Field;
  NestedStructs : list NestedStructData;
  SkipStructGeneration : bool;
  ShouldGenerateEntityToCompositeFunction : bool
}.

(** [data.NestedStructs = nestedStructs] *)
Definition setNestedStructs (data : NestedStructData)
    (nestedStructs : list NestedStructData) : NestedStructData :=
  {| StructIn := StructIn data;
     StructOut := StructOut data;
     FieldGroupBy := FieldGroupBy data;
     FieldName := FieldName data;
     FieldType := FieldType data;
     RowFieldName := RowFieldName data;
     RowFieldType := RowFieldType data;
     IsRowFieldExistsInQuery := IsRowFieldExistsInQuery data;
     FieldTags := FieldTags data;
     KeyType := KeyType data;
     IsSlice := IsSlice data;
     IsPointer := IsPointer data;
     IsComposite := IsComposite data;
     IsEntityStruct := IsEntityStruct data;
     IsRoot := IsRoot data;
     Match := Match data;
     DuplicatedRelativeToParents := DuplicatedRelativeToParents data;
     Fields := Fields data;
     NestedStructs := nestedStructs;
     SkipStructGeneration := SkipStructGeneration data;
     ShouldGenerateEntityToCompositeFunction :=
       ShouldGenerateEntityToCompositeFunction data |}.

(** [data.DuplicatedRelativeToParents = dup] *)
Definition setDuplicatedRelativeToParents (data : NestedStructData)
    (dup : gmap nat bool) : NestedStructData :=
  {| StructIn := StructIn data;
     StructOut := StructOut data;
     FieldGroupBy := FieldGroupBy data;
     FieldName := FieldName data;
     FieldType := FieldType data;
     RowFieldName := RowFieldName data;
     RowFieldType := RowFieldType data;
     IsRowFieldExistsInQuery := IsRowFieldExistsInQuery data;
     FieldTags := FieldTags data;
     KeyType := KeyType data;
     IsSlice := IsSlice data;
     IsPointer := IsPointer data;
     IsComposite := IsComposite data;
     IsEntityStruct := IsEntityStruct data;
     IsRoot := IsRoot data;
     Match := Match data;
     DuplicatedRelativeToParents := dup;
     Fields := Fields data;
     NestedStructs := NestedStructs data;
     SkipStructGeneration := SkipStructGeneration data;
     ShouldGenerateEntityToCompositeFunction :=
       ShouldGenerateEntityToCompositeFunction data |}.

Record NestedQueryTemplateData := mkNestedQueryTemplateData {
  tFunctionName : string;
  tQuery : Query;
  tRootStructName : string;
  tRootStructData : option NestedStructData;
  tEmitPointers : bool;
  tEmitJSONTags : bool;
  tCastToQueryName : string
}.

(** [Nested] of [gen.go]: a source file with its query configurations. *)
Record NestedSource := mkNestedSource {
  SourceFileName : string;
  Configs : list NestedQueryConfig;
  NestedDataItems : list NestedQueryTemplateData
}.

Record NestedQueryTemplateDataBuilder := mkBuilder {
  options : Options;
  queries : list Query;
  structs : list Struct;
  nested : list NestedSource
}.

(** *** Duplicate levels *)

(** [collectAllNestedStructsByStructOut]; the map is returned. *)
Fixpoint collectAllNestedStructsByStructOut (data : NestedStructData)
    (structOutMap : gmap string (list NestedStructData))
  : gmap string (list NestedStructData) :=
  fold_left
    (fun m nestedStruct =>
       collectAllNestedStructsByStructOut nestedStruct
         (<[StructOut nestedStruct :=
              default [] (m !! StructOut nestedStruct) ++ [nestedStruct]]> m))
    (NestedStructs data) structOutMap.

(** Lines 376-382 of [updateDuplicatesFromNodePerspective]: whether [name]
    occurs more than once in the map collected below [ancestorNode]. *)
Definition duplicatedIn (name : string) (ancestorNode : NestedStructData) : bool :=
  let structOutMap := collectAllNestedStructsByStructOut ancestorNode ∅ in
  match structOutMap !! name with
  | Some structOutStructs => (1 <? length structOutStructs)%nat
  | None => false
  end.

(** The body of the loop over [level], for a child with output type [name]
    and ancestor path [childAncestors]. *)
Definition setLevel (name : string) (childAncestors : list NestedStructData)
    (dup : gmap nat bool) (level : nat) : gmap nat bool :=
  let ancestorIndex := length childAncestors - level in
  match childAncestors !! ancestorIndex with
  | None => dup
  | Some ancestorNode => <[level := duplicatedIn name ancestorNode]> dup
  end.

(** The loop over [level] in [updateDuplicatesFromNodePerspective], for one
    child [nestedStruct] with ancestor path [childAncestors]; it returns the
    child's map. *)
Definition duplicatedAtLevels (nestedStruct : NestedStructData)
    (childAncestors : list NestedStructData) (dup : gmap nat bool)
  : gmap nat bool :=
  fold_left (setLevel (StructOut nestedStruct) childAncestors)
            (seq 1 (length childAncestors)) dup.

(** [updateDuplicatesFromNodePerspective].  The source writes the flags into
    the nodes in place; here the updated tree is returned.  The ancestors are
    read only for their [StructOut] and [NestedStructs], which the function
    leaves as they are, so a child's flags and the flags below it are
    independent and are put together after the recursive call. *)
Fixpoint updateDuplicatesFromNodePerspective (current : NestedStructData)
    (ancestors : list NestedStructData) : NestedStructData :=
  let childAncestors := ancestors ++ [current] in
  setNestedStructs current
    (map (fun nestedStruct =>
            setDuplicatedRelativeToParents
              (updateDuplicatesFromNodePerspective nestedStruct childAncestors)
              (duplicatedAtLevels nestedStruct childAncestors
                 (DuplicatedRelativeToParents nestedStruct)))
         (NestedStructs current)).

(** ** Structural validation ([internal/nested_validation.go]) *)

Record RowGetterInterfaceMethod := mkRowGetterInterfaceMethod {
  mMethodName : string;
  mReturnType : string;
  mStructIn : string
}.

Definition fieldExistsInEntityFields (entityFields : list Field)
    (fieldName : string) : bool :=
  existsb (fun field => String.eqb (fName field) fieldName) entityFields.

Definition formatAvailableFields (fields : list Field) : string :=
  match fields with
  | [] => "none"
  | _ => "[" +:+ Join (map fName fields) ", " +:+ "]"
  end.

(** The loop collecting [missingFields]. *)
Definition missingFieldsOf (entityFields compositeFields : list Field)
  : list string :=
  map fName
    (List.filter (fun compositeField =>
               negb (fieldExistsInEntityFields entityFields (fName compositeField)))
            compositeFields).

(** [validateCompositeFieldsAgainstEntity]; [None] is the nil error. *)
Definition validateCompositeFieldsAgainstEntity (ext : Externals)
    (structs : list Struct) (compositeStructName : string)
    (compositeFields : list Field)
    (entityStructName parentStructName contextType : string) : option error :=
  match getStructByName ext structs entityStructName with
  | None => None
  | Some entityStruct =>
      let missingFields := missingFieldsOf (sFields entityStruct) compositeFields in
      if (0 <? length missingFields)%nat then
        let formattedFields := formatAvailableFields (sFields entityStruct) in
        if String.eqb contextType "root" then
          Some (ErrRootCompositeFields compositeStructName missingFields
                  entityStructName formattedFields)
        else
          Some (ErrNestedCompositeFields compositeStructName parentStructName
                  missingFields entityStructName formattedFields)
      else None
  end.

(** Lines 129-142 of [validateCompositeFieldsExistInEntity]: the check of one
    node. *)
Definition checkCompositeNode (ext : Externals) (structs : list Struct)
    (parentStructName : string) (nestedStruct : NestedStructData)
  : option error :=
  if IsComposite nestedStruct && IsRowFieldExistsInQuery nestedStruct then
    validateCompositeFieldsAgainstEntity ext structs
      (StructOut nestedStruct) (Fields nestedStruct) (StructIn nestedStruct)
      parentStructName "nested"
  else None.

(** [validateCompositeFieldsExistInEntity]: the check of one element of
    [nestedStructs] with its recursion, and the loop, which stops at the first
    error. *)
Fixpoint validateCompositeFieldsExistInEntityNode (ext : Externals)
    (structs : list Struct) (parentStructName : string)
    (nestedStruct : NestedStructData) : option error :=
  match checkCompositeNode ext structs parentStructName nestedStruct with
  | Some err => Some err
  | None =>
      fold_left
        (fun acc child =>
           match acc with
           | Some err => Some err
           | None =>
               validateCompositeFieldsExistInEntityNode ext structs
                 parentStructName child
           end)
        (NestedStructs nestedStruct) None
  end.

Definition validateCompositeFieldsExistInEntity (ext : Externals)
    (nestedStructs : list NestedStructData) (structs : list Struct)
    (parentStructName : string) : option error :=
  fold_left
    (fun acc nestedStruct =>
       match acc with
       | Some err => Some err
       | None =>
           validateCompositeFieldsExistInEntityNode ext structs
             parentStructName nestedStruct
       end)
    nestedStructs None.

Definition validateExtractedFields (ext : Externals) (reg : Registry)
    (fields : list Field) (nestedStructs : list NestedStructData)
    (structs : list Struct) (structOut : string) : option error :=
  match
    match reg !! structOut with
    | Some compositeData =>
        validateCompositeFieldsAgainstEntity ext structs structOut fields
          (cStructRootIn (Config compositeData)) structOut "root"
    | None => None
    end
  with
  | Some err => Some err
  | None =>
      match validateCompositeFieldsExistInEntity ext nestedStructs structs structOut with
      | Some err => Some (ErrWrap ("validation failed for struct " +:+ structOut) err)
      | None => None
      end
  end.

(** Whether [collectMethodsRecursive] takes the getter of a node. *)
Definition includesMethod (isCollectingAvailableMethods : bool)
    (d : NestedStructData) : bool :=
  if isCollectingAvailableMethods then IsRowFieldExistsInQuery d else true.

(** The body of the loop of [collectMethodsRecursive] before its recursive
    call: [methods] and [seen] are the two accumulators the source updates
    through a pointer and a map. *)
Definition collectStep (isCollectingAvailableMethods : bool)
    (acc : list RowGetterInterfaceMethod * gset string)
    (nestedStruct : NestedStructData)
  : list RowGetterInterfaceMethod * gset string :=
  let '(methods, seen) := acc in
  let shouldIncludeMethod :=
    includesMethod isCollectingAvailableMethods nestedStruct in
  let methodName := "Get" +:+ StructIn nestedStruct in
  if shouldIncludeMethod && negb (bool_decide (methodName ∈ seen)) then
    (methods ++ [ {| mMethodName := methodName;
                     mReturnType := RowFieldType nestedStruct;
                     mStructIn := StructIn nestedStruct |} ],
     {[ methodName ]} ∪ seen)
  else (methods, seen).

(** [collectMethodsRecursive]. *)
Fixpoint collectMethodsRecursive (structData : NestedStructData)
    (acc : list RowGetterInterfaceMethod * gset string)
    (isCollectingAvailableMethods : bool)
  : list RowGetterInterfaceMethod * gset string :=
  fold_left
    (fun acc nestedStruct =>
       collectMethodsRecursive nestedStruct
         (collectStep isCollectingAvailableMethods acc nestedStruct)
         isCollectingAvailableMethods)
    (NestedStructs structData) acc.

Definition collectRequiredMethods (structData : NestedStructData)
  : list RowGetterInterfaceMethod :=
  (collectMethodsRecursive structData ([], ∅) true).1.

Definition collectCompositeRequiredMethods (structData : NestedStructData)
  : list RowGetterInterfaceMethod :=
  (collectMethodsRecursive structData ([], ∅) false).1.

Definition findMissingMethods (available required : list RowGetterInterfaceMethod)
  : list RowGetterInterfaceMethod :=
  let availableSet : gset string := list_to_set (map mMethodName available) in
  List.filter (fun requiredMethod =>
            negb (bool_decide (mMethodName requiredMethod ∈ availableSet)))
         required.

Definition formatMissingMethods (methods : list RowGetterInterfaceMethod)
  : string :=
  "[" +:+
  Join (map (fun method => mMethodName method +:+ "() " +:+ mReturnType method)
            methods) ", "
  +:+ "]".

(** [validateNestedCompositeInterfaces]: the body of the loop for one
    [nestedStruct] of [parentStruct], and the loop.  A composite with children
    is descended into twice, as in the source. *)
Fixpoint validateNestedCompositeInterfacesNode
    (parentStructOut : string) (parentMethods : list RowGetterInterfaceMethod)
    (rootStructName : string) (nestedStruct : NestedStructData) : option error :=
  let descend :=
    fold_left
      (fun acc child =>
         match acc with
         | Some err => Some err
         | None =>
             validateNestedCompositeInterfacesNode (StructOut nestedStruct)
               parentMethods rootStructName child
         end)
      (NestedStructs nestedStruct) None in
  match
    (if IsComposite nestedStruct then
       let nestedMethods := collectCompositeRequiredMethods nestedStruct in
       let missingMethods := findMissingMethods parentMethods nestedMethods in
       if (0 <? length missingMethods)%nat then
         Some (ErrInterfaceValidation (StructOut nestedStruct) rootStructName
                 parentStructOut (formatMissingMethods missingMethods))
       else descend
     else None)
  with
  | Some err => Some err
  | None =>
      if (0 <? length (NestedStructs nestedStruct))%nat then descend else None
  end.

Definition validateNestedCompositeInterfaces (parentStruct : NestedStructData)
    (parentMethods : list RowGetterInterfaceMethod) (rootStructName : string)
  : option error :=
  fold_left
    (fun acc nestedStruct =>
       match acc with
       | Some err => Some err
       | None =>
           validateNestedCompositeInterfacesNode (StructOut parentStruct)
             parentMethods rootStructName nestedStruct
       end)
    (NestedStructs parentStruct) None.

Definition validateNestedInterfaceCompatibility (rootStruct : NestedStructData)
    (rootStructName : string) : option error :=
  let rootMethods := collectRequiredMethods rootStruct in
  validateNestedCompositeInterfaces rootStruct rootMethods rootStructName.

(** ** The tree builder ([internal/nested.go]) *)

(** [extractFields]. *)
Fixpoint extractFields (allFields : list Field) (fieldsToExclued : list string)
    (rowFieldPrefix : string) : list Field :=
  match allFields with
  | [] => []
  | field :: rest =>
      let skipField :=
        existsb (fun fieldToExclude => String.eqb fieldToExclude (fName field))
                fieldsToExclued in
      if skipField then extractFields rest fieldsToExclued rowFieldPrefix
      else
        let rowField :=
          if String.eqb rowFieldPrefix "" then fName field
          else Join [rowFieldPrefix; fName field] "." in
        {| fName := fName field;
           fDBName := rowField;
           fType := fType field;
           fTags := fTags field |}
        :: extractFields rest fieldsToExclued rowFieldPrefix
  end.

Definition getNonNestedStructFields (reg : Registry) (fields : list Field)
    (groupConfig : list NestedGroupConfig) : list Field :=
  extractFields fields (getNestedFields reg groupConfig) "".

Definition structExistsInSchema (b : NestedQueryTemplateDataBuilder)
    (structName : string) : bool :=
  existsb (fun s => String.eqb (sName s) structName) (structs b).

Definition shouldReuseEntityStruct (b : NestedQueryTemplateDataBuilder)
    (structOut structIn : string) (config : NestedGroupConfig) : bool :=
  if isCompositeSet config then false
  else if negb (structExistsInSchema b structIn) then false
  else if (0 <? length (gGroup config))%nat then false
  else true.

Definition determineKeyType (field : string) : string := "pgtype.UUID".

Definition getFieldNameFromNestedConfig (ext : Externals)
    (nested : NestedGroupConfig) : string :=
  if String.eqb (gFieldOut nested) "" then
    if match gIsSlice nested with None => true | Some v => v end
    then PluralizeCasePreserving ext (gStructIn nested)
    else SingularizeCasePreserving ext (gStructIn nested)
  else gFieldOut nested.

Definition getFieldType (b : NestedQueryTemplateDataBuilder)
    (structIn structOut : string) (isSlice isPointer isEntityStruct : bool)
    (nestedConfig : option NestedGroupConfig) : string :=
  let useEntityPrefix :=
    if isEntityStruct then true
    else match nestedConfig with
         | Some config => shouldReuseEntityStruct b structOut structIn config
         | None => false
         end in
  let structType :=
    if useEntityPrefix then "entity." +:+ structIn else structOut in
  if isSlice then
    if isPointer then "[]*" +:+ structType else "[]" +:+ structType
  else
    if isPointer then "*" +:+ structType else structType.

Definition getQueryByName (b : NestedQueryTemplateDataBuilder)
    (queryName : string) : option Query :=
  List.find (fun query => String.eqb (MethodName query) queryName) (queries b).

(** [isRowFieldExistsInQuery]; [None] is the panic of reading
    [query.Ret.Struct.Fields] through a nil [Struct]. *)
Fixpoint isRowFieldExistsInQueryLoop (qs : list Query) (queryName : string)
    (config : NestedGroupConfig) : option bool :=
  match qs with
  | [] => Some false
  | query :: rest =>
      if String.eqb (MethodName query) queryName then
        match RetStruct query with
        | None => None
        | Some st =>
            if existsb (fun field => String.eqb (fName field) (gStructIn config))
                       (sFields st)
            then Some true
            else isRowFieldExistsInQueryLoop rest queryName config
        end
      else isRowFieldExistsInQueryLoop rest queryName config
  end.

Definition isRowFieldExistsInQuery (b : NestedQueryTemplateDataBuilder)
    (queryName : string) (config : NestedGroupConfig) : option bool :=
  isRowFieldExistsInQueryLoop (queries b) queryName config.

(** [IsCompositeStructAlreadyGenerated]; [None] is the panic of reading
    through a registry entry that is not there. *)
Definition IsCompositeStructAlreadyGenerated (reg : Registry)
    (config : NestedGroupConfig) : option bool :=
  if GetIsComposite config then
    match reg !! gStructOut config with
    | Some d => Some (IsStructAlreadyGenerated d)
    | None => None
    end
  else Some false.

Definition IsCompositeStructWillBeGeneratedInAnotherFile
    (b : NestedQueryTemplateDataBuilder) (config : NestedGroupConfig) : bool :=
  existsb
    (fun nestedItem =>
       existsb
         (fun nestedConfig =>
            String.eqb (qcStructRoot nestedConfig) (gStructOut config)
            && GetIsComposite config)
         (Configs nestedItem))
    (nested b).

(** Lines 247-252 of [buildNestedStructData]: the group and the input struct
    name the node is built from; [None] is the panic on a missing registry
    entry. *)
Definition compositeTarget (reg : Registry) (config : NestedGroupConfig)
  : option (list NestedGroupConfig * string) :=
  if GetIsComposite config then
    match reg !! gStructOut config with
    | Some d => Some (cGroup (Config d), cStructRootIn (Config d))
    | None => None
    end
  else Some (gGroup config, gStructIn config).

(** Lines 279-281 of [buildNestedStructData]: marking the composite as
    generated; [None] is the panic of writing through a missing entry. *)
Definition markAlreadyGenerated (reg : Registry) (config : NestedGroupConfig)
    (isRootConfig willBeGeneratedInAnotherFile parentSkips : bool)
  : option Registry :=
  if isRootConfig
     || (negb willBeGeneratedInAnotherFile
         && bool_decide (is_Some (reg !! gStructOut config))
         && negb parentSkips)
  then
    match reg !! gStructOut config with
    | Some d => Some (<[gStructOut config := setIsStructAlreadyGenerated d true]> reg)
    | None => None
    end
  else Some reg.

(** Lines 284-303 of [buildNestedStructData]: the node before its children
    are built. *)
Definition newNestedStructData (ext : Externals)
    (b : NestedQueryTemplateDataBuilder) (config : NestedGroupConfig)
    (structIn fieldName fieldType : string) (fields : list Field)
    (isEntity rowFieldExists skipStructGeneration isRootConfig : bool)
  : NestedStructData :=
  {| StructIn := structIn;
     StructOut := gStructOut config;
     FieldGroupBy := gFieldGroupBy config;
     FieldName := fieldName;
     FieldType := fieldType;
     RowFieldName := gStructIn config;
     RowFieldType := OutputModelsPackage (options b) +:+ "." +:+ gStructIn config;
     IsRowFieldExistsInQuery := rowFieldExists;
     FieldTags := {[ "json" := JSONTagName ext fieldName (options b) ]};
     KeyType := determineKeyType (gFieldGroupBy config);
     IsSlice := GetIsSlice config;
     IsPointer := GetIsPointer config;
     IsComposite := GetIsComposite config;
     IsEntityStruct := isEntity;
     IsRoot := isRootConfig;
     Match := gMatch config;
     DuplicatedRelativeToParents := ∅;
     Fields := fields;
     NestedStructs := [];
     SkipStructGeneration := skipStructGeneration;
     ShouldGenerateEntityToCompositeFunction := false |}.

(** Lines 438-444 of [buildNestedStructsList]: the fields of the first struct
    named [structIn], nil when there is none. *)
Definition structFieldsFor (b : NestedQueryTemplateDataBuilder)
    (structIn : string) : list Field :=
  match List.find (fun s => String.eqb (sName s) structIn) (structs b) with
  | Some s => sFields s
  | None => []
  end.

(** The loop of [buildNestedStructsList], over the function that builds one
    child. *)
Fixpoint buildNestedStructsListWith
    (build : NestedGroupConfig -> list Field -> Registry ->
             option (Res (NestedStructData * Registry)))
    (b : NestedQueryTemplateDataBuilder) (group : list NestedGroupConfig)
    (reg : Registry) : option (Res (list NestedStructData * Registry)) :=
  match group with
  | [] => Some (Ok ([], reg))
  | nestedCfg :: rest =>
      let structFields := structFieldsFor b (gStructIn nestedCfg) in
      match build nestedCfg structFields reg with
      | None => None
      | Some Panic => Some Panic
      | Some (Err e) => Some (Err e)
      | Some (Ok (nestedData, reg1)) =>
          match buildNestedStructsListWith build b rest reg1 with
          | Some (Ok (nestedStructs, reg2)) =>
              Some (Ok (nestedData :: nestedStructs, reg2))
          | other => other
          end
      end
  end.

(** [buildNestedStructData].  [parent] is the parent node as it is when the
    child is built (its [NestedStructs] not yet set); [fuel] bounds the depth
    of the recursion, which follows composite references. *)
Fixpoint buildNestedStructData (ext : Externals)
    (b : NestedQueryTemplateDataBuilder) (fuel : nat) (queryName : string)
    (config : NestedGroupConfig) (parent : option NestedStructData)
    (structFields : list Field) (reg : Registry)
  : option (Res (NestedStructData * Registry)) :=
  match fuel with
  | O => None
  | S fuel' =>
  match getQueryByName b queryName with
  | None => Some (Err (ErrQueryNotFound queryName))
  | Some query =>
  let fields := getNonNestedStructFields reg structFields [config] in
  match compositeTarget reg config with
  | None => Some Panic
  | Some (nestedConfigs, structIn) =>
  let isEntity :=
    shouldReuseEntityStruct b (gStructOut config) (gStructIn config) config in
  let fieldName := getFieldNameFromNestedConfig ext config in
  let fieldType :=
    getFieldType b (gStructIn config) (gStructOut config)
      (GetIsSlice config) (GetIsPointer config) isEntity (Some config) in
  let isRootConfig := match parent with None => true | Some _ => false end in
  match IsCompositeStructAlreadyGenerated reg config with
  | None => Some Panic
  | Some isAlreadyGenerated =>
  let willBeGeneratedInAnotherFile :=
    IsCompositeStructWillBeGeneratedInAnotherFile b config in
  let parentSkips :=
    match parent with
    | Some p => SkipStructGeneration p
    | None => false
    end in
  let skipStructGeneration :=
    negb isRootConfig
    && (isAlreadyGenerated || willBeGeneratedInAnotherFile || parentSkips) in
  match markAlreadyGenerated reg config isRootConfig
          willBeGeneratedInAnotherFile parentSkips with
  | None => Some Panic
  | Some reg1 =>
  match isRowFieldExistsInQuery b queryName config with
  | None => Some Panic
  | Some rowFieldExists =>
  let result :=
    newNestedStructData ext b config structIn fieldName fieldType fields
      isEntity rowFieldExists skipStructGeneration isRootConfig in
  match buildNestedStructsListWith
          (fun nestedCfg => buildNestedStructData ext b fuel' queryName
                              nestedCfg (Some result))
          b nestedConfigs reg1 with
  | None => None
  | Some Panic => Some Panic
  | Some (Err e) => Some (Err e)
  | Some (Ok (nestedStructs, reg2)) =>
  let result := setNestedStructs result nestedStructs in
  match (if isRootConfig
         then validateExtractedFields ext reg2 fields nestedStructs
                (structs b) (gStructOut config)
         else None) with
  | Some err =>
      Some (Err (ErrWrap ("validation failed for query " +:+ queryName) err))
  | None =>
      Some (Ok (updateDuplicatesFromNodePerspective result [], reg2))
  end end end end end end end end.

Definition buildNestedStructsList (ext : Externals)
    (b : NestedQueryTemplateDataBuilder) (fuel : nat) (queryName : string)
    (parent : NestedStructData) (group : list NestedGroupConfig)
    (reg : Registry) : option (Res (list NestedStructData * Registry)) :=
  buildNestedStructsListWith
    (fun nestedCfg => buildNestedStructData ext b fuel queryName nestedCfg
                        (Some parent))
    b group reg.

(** [buildNestedWrapperData]. *)
Definition buildNestedWrapperData (b : NestedQueryTemplateDataBuilder)
    (query : Query) (config : NestedQueryConfig) (firstQueryName : string)
  : NestedQueryTemplateData :=
  {| tFunctionName := "Group" +:+ MethodName query;
     tQuery := query;
     tRootStructName := qcStructRoot config;
     tRootStructData := None;
     tEmitPointers := EmitResultStructPointers (options b);
     tEmitJSONTags := EmitJsonTags (options b);
     tCastToQueryName := firstQueryName |}.

(** The root configuration [buildNestedData] passes down. *)
Definition rootGroupConfig (config : NestedQueryConfig)
    (rootField rootStruct : string) : NestedGroupConfig :=
  {| gFieldGroupBy := rootField;
     gFieldOut := "";
     gStructIn := rootStruct;
     gStructOut := rootStruct;
     gIsSlice := None;
     gIsPointer := None;
     gIsComposite := qcIsComposite config;
     gGroup := qcGroup config;
     gMatch := [] |}.

(** Lines 173-212 of [buildNestedData]: the names, and the call that builds
    the tree of the root. *)
Definition queryNameOf (query : Query) : string :=
  if String.eqb (MethodName query) "" then SourceName query
  else MethodName query.

Definition buildRootStructData (ext : Externals)
    (b : NestedQueryTemplateDataBuilder) (fuel : nat)
    (query : Query) (config : NestedQueryConfig) (reg : Registry)
  : option (Res (NestedStructData * Registry)) :=
  let queryName := queryNameOf query in
  let rootStruct :=
    if String.eqb (qcStructRoot config) "" then queryName +:+ "Group"
    else qcStructRoot config in
  let rootField :=
    if String.eqb (qcFieldGroupBy config) "" then "ID"
    else qcFieldGroupBy config in
  let structFields :=
    match RetStruct query with
    | Some st => sFields st
    | None => []
    end in
  buildNestedStructData ext b fuel (MethodName query)
    (rootGroupConfig config rootField rootStruct) None structFields reg.

(** [buildNestedData].  The call of [validateNestedInterfaceCompatibility]
    after the tree is built is commented out in the source (lines 217-220) and
    has no counterpart here. *)
Definition buildNestedData (ext : Externals)
    (b : NestedQueryTemplateDataBuilder) (fuel : nat)
    (query : Query) (config : NestedQueryConfig) (reg : Registry)
  : option (Res (NestedQueryTemplateData * Registry)) :=
  let functionName := "Group" +:+ queryNameOf query in
  match buildRootStructData ext b fuel query config reg with
  | None => None
  | Some Panic => Some Panic
  | Some (Err e) => Some (Err e)
  | Some (Ok (nestedStructData, reg')) =>
      Some (Ok ({| tFunctionName := functionName;
                   tQuery := query;
                   tRootStructName := qcStructRoot config;
                   tRootStructData := Some nestedStructData;
                   tEmitPointers := EmitResultStructPointers (options b);
                   tEmitJSONTags := EmitJsonTags (options b);
                   tCastToQueryName := "" |}, reg'))
  end.

(** The search for [targetQuery] in [buildNestedDataItems]. *)
Definition findTargetQuery (qs : list Query) (name : string) : option Query :=
  List.find (fun q => String.eqb (MethodName q) name
                      || String.eqb (SourceName q) name) qs.

(** The loop of [buildNestedDataItems], with its three pieces of state: the
    items built so far, [generatedStructRoots] and the registry. *)
Fixpoint buildNestedDataItemsLoop (ext : Externals)
    (b : NestedQueryTemplateDataBuilder) (fuel : nat)
    (queryConfigs : list NestedQueryConfig)
    (nestedDataItems : list NestedQueryTemplateData)
    (generatedStructRoots : gmap string string) (reg : Registry)
  : option (Res (list NestedQueryTemplateData * Registry)) :=
  match queryConfigs with
  | [] => Some (Ok (nestedDataItems, reg))
  | config :: rest =>
      match findTargetQuery (queries b) (qcQuery config) with
      | None =>
          (* debug.Warnf; continue *)
          buildNestedDataItemsLoop ext b fuel rest nestedDataItems
            generatedStructRoots reg
      | Some targetQuery =>
          let structRoot :=
            if String.eqb (qcStructRoot config) "" then qcQuery config +:+ "Group"
            else qcStructRoot config in
          let wrapperOf :=
            match generatedStructRoots !! structRoot with
            | Some firstQuery =>
                if negb (String.eqb firstQuery (qcQuery config))
                then Some firstQuery else None
            | None => None
            end in
          match wrapperOf with
          | Some firstQuery =>
              buildNestedDataItemsLoop ext b fuel rest
                (nestedDataItems
                   ++ [buildNestedWrapperData b targetQuery config firstQuery])
                generatedStructRoots reg
          | None =>
              match buildNestedData ext b fuel targetQuery config reg with
              | None => None
              | Some Panic => Some Panic
              | Some (Err e) =>
                  Some (Err (ErrWrap ("failed to generate nested function for query "
                                      +:+ qcQuery config) e))
              | Some (Ok (nestedDataItem, reg')) =>
                  buildNestedDataItemsLoop ext b fuel rest
                    (nestedDataItems ++ [nestedDataItem])
                    (<[structRoot := qcQuery config]> generatedStructRoots) reg'
              end
          end
      end
  end.

Definition buildNestedDataItems (ext : Externals)
    (b : NestedQueryTemplateDataBuilder) (fuel : nat)
    (queryConfigs : list NestedQueryConfig) (reg : Registry)
  : option (Res (list NestedQueryTemplateData * Registry)) :=
  buildNestedDataItemsLoop ext b fuel queryConfigs [] ∅ reg.

(** The loop of [populateNestedDataItems] over the source files. *)
Fixpoint populateLoop (ext : Externals) (b : NestedQueryTemplateDataBuilder)
    (fuel : nat) (sources : list NestedSource) (reg : Registry)
  : option (Res (list NestedSource * Registry)) :=
  match sources with
  | [] => Some (Ok ([], reg))
  | src :: rest =>
      match buildNestedDataItems ext b fuel (Configs src) reg with
      | None => None
      | Some Panic => Some Panic
      | Some (Err e) => Some (Err e)
      | Some (Ok (items, reg1)) =>
          match populateLoop ext b fuel rest reg1 with
          | Some (Ok (rest', reg2)) =>
              Some (Ok ({| SourceFileName := SourceFileName src;
                           Configs := Configs src;
                           NestedDataItems := items |} :: rest', reg2))
          | other => other
          end
      end
  end.

(** [populateNestedDataItems]: the registry is built, then every source file
    gets its items.  [reg] is the registry as the process holds it when the
    request comes in. *)
Definition populateNestedDataItems (ext : Externals) (fuel : nat)
    (opts : Options) (qs : list Query) (sts : list Struct)
    (sources : list NestedSource) (reg : Registry)
  : option (Res (list NestedSource * Registry)) :=
  match buildCompositeStructRegistry ext fuel opts reg with
  | None => None
  | Some Panic => Some Panic
  | Some (Err e) => Some (Err e)
  | Some (Ok reg1) =>
      populateLoop ext
        {| options := opts; queries := qs; structs := sts; nested := sources |}
        fuel sources reg1
  end.

(** [getNestedSourceWithConfigs] of [gen.go]: the configurations grouped by the
    source file of their query, in order of first appearance; a configuration
    whose query is not found belongs to no source. *)
Fixpoint addConfigToSource (sources : list NestedSource) (sourceFile : string)
    (config : NestedQueryConfig) : list NestedSource :=
  match sources with
  | [] => []
  | src :: rest =>
      if String.eqb (SourceFileName src) sourceFile then
        {| SourceFileName := SourceFileName src;
           Configs := Configs src ++ [config];
           NestedDataItems := NestedDataItems src |} :: rest
      else src :: addConfigToSource rest sourceFile config
  end.

(** The body of the loop of [getNestedSourceWithConfigs]: [sources] and the
    set [seen] before and after one configuration. *)
Definition addSourceConfig (qs : list Query)
    (acc : list NestedSource * gset string) (config : NestedQueryConfig)
  : list NestedSource * gset string :=
  let '(sources, seen) := acc in
  let sourceFile :=
    match findTargetQuery qs (qcQuery config) with
    | Some q => SourceName q
    | None => ""
    end in
  if String.eqb sourceFile "" then acc
  else if negb (bool_decide (sourceFile ∈ seen)) then
    (sources ++ [ {| SourceFileName := sourceFile;
                     Configs := [config];
                     NestedDataItems := [] |} ],
     {[ sourceFile ]} ∪ seen)
  else (addConfigToSource sources sourceFile config, seen).

Definition getNestedSourceWithConfigs (opts : Options) (qs : list Query)
  : list NestedSource :=
  match Nested opts with
  | None => []
  | Some nestedCfg =>
      (fold_left (addSourceConfig qs) (Queries nestedCfg) ([], ∅)).1
  end.

(** The part of [Generate] that concerns nesting: defaults, sources, data
    items. *)
Definition generateNested (ext : Externals) (fuel : nat) (opts : Options)
    (qs : list Query) (sts : list Struct) (reg : Registry)
  : option (Res (list NestedSource * Registry)) :=
  let opts := populateNestedConfigWithDefaultValues opts in
  let nestedWithoutData := getNestedSourceWithConfigs opts qs in
  populateNestedDataItems ext fuel opts qs sts nestedWithoutData reg.

(** ** A concrete catalog and configuration

    Posts with an embedded author; the composite [UserComposite] nests the
    user's [Image]. *)

Definition findStructByName (sts : list Struct) (name : string) : option Struct :=
  List.find (fun s => String.eqb (sName s) name) sts.

Definition exExt : Externals :=
  {| flectPluralize := fun s => s +:+ "s";
     flectSingularize := fun s => s;
     JSONTagName := fun s _ => s;
     getStructByName := findStructByName;
     mapRange := map_to_list |}.

Definition fld (name type : string) : Field :=
  {| fName := name; fDBName := name; fType := type; fTags := ∅ |}.

Definition exStructs : list Struct :=
  [ {| sName := "Post"; sFields := [fld "ID" "pgtype.UUID"; fld "Title" "string"] |};
    {| sName := "User"; sFields := [fld "ID" "pgtype.UUID"; fld "Name" "string"] |};
    {| sName := "Image"; sFields := [fld "ID" "pgtype.UUID"; fld "URL" "string"] |} ].

Definition groupNode (structIn structOut : string) (composite : option bool)
    (group : list NestedGroupConfig) : NestedGroupConfig :=
  {| gFieldGroupBy := ""; gFieldOut := ""; gStructIn := structIn;
     gStructOut := structOut; gIsSlice := None; gIsPointer := None;
     gIsComposite := composite; gGroup := group; gMatch := [] |}.

(** The row of [GetPosts] embeds [User] but not [Image]. *)
Definition exQueries : list Query :=
  [ {| MethodName := "GetPosts"; SourceName := "posts.sql";
       RetStruct := Some {| sName := "GetPostsRow";
                            sFields := [fld "ID" "pgtype.UUID";
                                        fld "Title" "string";
                                        fld "User" "User"] |} |};
    {| MethodName := "GetUsers"; SourceName := "users.sql";
       RetStruct := Some {| sName := "GetUsersRow";
                            sFields := [fld "ID" "pgtype.UUID";
                                        fld "Name" "string";
                                        fld "Image" "Image"] |} |} ].

Definition exOptions : Options :=
  {| EmitJsonTags := true;
     EmitResultStructPointers := true;
     OutputModelsPackage := "entity";
     Nested := Some
       {| Composites :=
            [ {| cName := "PostComposite"; cStructRootIn := "Post";
                 cGroup := [groupNode "User" "UserComposite" (Some true) []] |};
              {| cName := "UserComposite"; cStructRootIn := "User";
                 cGroup := [groupNode "Image" "" None []] |} ];
          Queries :=
            [ {| qcQuery := "GetPosts"; qcFieldGroupBy := "";
                 qcStructRoot := "PostComposite"; qcGroup := [];
                 qcIsComposite := Some true |} ] |} |}.


(** ** Vocabulary of the properties *)

(** The nodes of a tree, root first. *)
Fixpoint allNodes (t : NestedStructData) : list NestedStructData :=
  t :: flat_map allNodes (NestedStructs t).

(** The nodes below a node. *)
Definition descendants (t : NestedStructData) : list NestedStructData :=
  flat_map allNodes (NestedStructs t).

(** How often [name] is the output type of a node below [t]. *)
Definition occurrencesBelow (name : string) (t : NestedStructData) : nat :=
  length (List.filter (fun d => String.eqb (StructOut d) name) (descendants t)).

(** Every node other than the root, with its ancestors from the root down to
    its parent: the ancestor at level [L] is the [L]-th from the end. *)
Fixpoint nodesWithAncestors (t : NestedStructData)
    (ancestors : list NestedStructData)
  : list (NestedStructData * list NestedStructData) :=
  flat_map (fun child =>
              (child, ancestors ++ [t])
              :: nodesWithAncestors child (ancestors ++ [t]))
           (NestedStructs t).

Definition ancestorAtLevel (ancestors : list NestedStructData) (level : nat)
  : option NestedStructData :=
  ancestors !! (length ancestors - level).

(** A node without its children and its duplicate flags. *)
Definition shallow (t : NestedStructData) : NestedStructData :=
  setDuplicatedRelativeToParents (setNestedStructs t []) ∅.

(** Snake-case words: a lower-case letter followed by lower-case letters and
    digits. *)
Definition isWordChar (c : ascii) : bool := isLowerAZ c || isDigit c.

Fixpoint allChars (p : ascii -> bool) (s : string) : bool :=
  match s with
  | EmptyString => true
  | String c r => p c && allChars p r
  end.

Definition isWord (w : string) : bool :=
  match w with
  | EmptyString => false
  | String c r => isLowerAZ c && allChars isWordChar r
  end.

(** A word that may stand before another one: two characters at least, and
    not an initialism. *)
Definition isInnerWord (w : string) : bool :=
  isWord w && (2 <=? String.length w)%nat && negb (commonInitialisms (ToUpper w)).

(** The example as the builder sees it: the options with their defaults, the
    sources, the registry after its two passes, and the root configuration of
    [GetPosts]. *)
Definition exOptionsN : Options := populateNestedConfigWithDefaultValues exOptions.

Definition exBuilder : NestedQueryTemplateDataBuilder :=
  {| options := exOptionsN;
     queries := exQueries;
     structs := exStructs;
     nested := getNestedSourceWithConfigs exOptionsN exQueries |}.

Definition exRegistry : Registry :=
  match buildCompositeStructRegistry exExt 5 exOptionsN ∅ with
  | Some (Ok reg) => reg
  | _ => ∅
  end.

Definition exRootConfig : NestedGroupConfig :=
  groupNode "PostComposite" "PostComposite" (Some true) [].

Definition exRowFields : list Field :=
  [fld "ID" "pgtype.UUID"; fld "Title" "string"; fld "User" "User"].

(** A configuration that leaves [is_composite] unspecified two levels down:
    books with their reviews. *)
Definition exReview : NestedGroupConfig := groupNode "Review" "" None [].

Definition exBookOptions : Options :=
  {| EmitJsonTags := true;
     EmitResultStructPointers := true;
     OutputModelsPackage := "entity";
     Nested := Some
       {| Composites :=
            [ {| cName := "AuthorGroup"; cStructRootIn := "Author";
                 cGroup := [] |} ];
          Queries :=
            [ {| qcQuery := "GetAuthors"; qcFieldGroupBy := "";
                 qcStructRoot := "AuthorGroup";
                 qcGroup := [groupNode "Book" "" None [exReview]];
                 qcIsComposite := Some false |} ] |} |}.

Definition exBookQueries : list Query :=
  [ {| MethodName := "GetAuthors"; SourceName := "authors.sql";
       RetStruct := Some {| sName := "GetAuthorsRow";
                            sFields := [fld "ID" "pgtype.UUID";
                                        fld "Name" "string";
                                        fld "Book" "Book";
                                        fld "Review" "Review"] |} |} ].

Definition exBookStructs : list Struct :=
  [ {| sName := "Author"; sFields := [fld "ID" "pgtype.UUID"; fld "Name" "string"] |};
    {| sName := "Book"; sFields := [fld "ID" "pgtype.UUID"; fld "Title" "string"] |};
    {| sName := "Review"; sFields := [fld "ID" "pgtype.UUID"; fld "Rating" "int32"] |} ].

(** The [Group] of the first node of the first query of the options. *)
Definition firstQueryGrandchildren (opts : Options) : list NestedGroupConfig :=
  match Nested opts with
  | Some n =>
      match Queries n with
      | q :: _ => match qcGroup q with g :: _ => gGroup g | [] => [] end
      | [] => []
      end
  | None => []
  end.

(** A configuration for a query the catalog does not have. *)
Definition exUnknownQueryConfig : NestedQueryConfig :=
  {| qcQuery := "GetComments"; qcFieldGroupBy := "";
     qcStructRoot := "CommentGroup"; qcGroup := [];
     qcIsComposite := Some false |}.

Definition exUnknownOptions : Options :=
  {| EmitJsonTags := true;
     EmitResultStructPointers := true;
     OutputModelsPackage := "entity";
     Nested := Some {| Composites := []; Queries := [exUnknownQueryConfig] |} |}.

(** No query of the catalog goes by the name the configuration gives. *)
Definition unknownQuery (qs : list Query) (config : NestedQueryConfig) : Prop :=
  Forall (fun q => MethodName q <> qcQuery config
                   /\ SourceName q <> qcQuery config) qs.

(** The output type names below a node, and how often a name is in a list. *)
Definition outs (t : NestedStructData) : list string :=
  map StructOut (descendants t).

Definition countName (name : string) (names : list string) : nat :=
  length (List.filter (fun s => String.eqb s name) names).

(** The tree of a successful build, and whether it has a child. *)
Definition builtTree (r : option (Res (NestedStructData * Registry)))
  : option NestedStructData :=
  match r with Some (Ok (t, _)) => Some t | _ => None end.

Definition hasChild (r : option (Res (NestedStructData * Registry))) : bool :=
  match builtTree r with
  | Some t => match NestedStructs t with [] => false | _ :: _ => true end
  | None => false
  end.

(** The reference graph of the registry: [a] refers to [b] when the composite
    registered as [a] has a child that is a reference to the composite [b]. *)
Definition refersTo (reg : Registry) (a b : string) : Prop :=
  exists d field,
    reg !! a = Some d /\ NestedFieldToCompositeNameMap d !! field = Some b.

(** A composite that can be reached from itself. *)
Definition onCycle (reg : Registry) (c : string) : Prop := tc (refersTo reg) c c.

(** Every composite referred to is registered. *)
Definition allReferencesRegistered (reg : Registry) : Prop :=
  map_Forall
    (fun _ d =>
       map_Forall (fun _ target => is_Some (reg !! target))
                  (NestedFieldToCompositeNameMap d))
    reg.

(** A [range] over a map visits every entry of the map once, in some order. *)
Definition rangesOverEntries (ext : Externals) : Prop :=
  forall m : gmap string string, mapRange ext m ≡ₚ map_to_list m.

(** A call that has not failed: it has not returned, or it has returned
    fields. *)
Definition returnsNoError (r : option (Res (list string))) : Prop :=
  r = None \/ exists fields, r = Some (Ok fields).

(** A composite that nests a reference to itself: a user with friends. *)
Definition exCyclicOptions : Options :=
  {| EmitJsonTags := true;
     EmitResultStructPointers := true;
     OutputModelsPackage := "entity";
     Nested := Some
       {| Composites :=
            [ {| cName := "UserComposite"; cStructRootIn := "User";
                 cGroup := [groupNode "Friend" "UserComposite" (Some true) []] |} ];
          Queries := [] |} |}.

(** The registry after pass 1. *)
Definition exCyclicRegistry : Registry :=
  registerAll
    [ {| cName := "UserComposite"; cStructRootIn := "User";
         cGroup := [groupNode "Friend" "UserComposite" (Some true) []] |} ] ∅.













(** The first error a check finds in a list. *)
Fixpoint firstError {A : Type} (check : A -> option error) (l : list A)
  : option error :=
  match l with
  | [] => None
  | x :: xs =>
      match check x with
      | Some e => Some e
      | None => firstError check xs
      end
  end.


(** A node that is a reference to a composite, is embedded in the row, is
    bound to an entity of the catalog, and has a field the entity lacks. *)
Definition drifts (ext : Externals) (structs : list Struct)
    (m : NestedStructData) (entity : Struct) : Prop :=
  IsComposite m = true
  /\ IsRowFieldExistsInQuery m = true
  /\ getStructByName ext structs (StructIn m) = Some entity
  /\ missingFieldsOf (sFields entity) (Fields m) <> [].



(** Posts whose author is embedded as [Author], a struct with a field [Bio],
    and grouped through [UserComposite], which is bound to the entity [User]
    without that field. *)
Definition exUser : Struct :=
  {| sName := "User"; sFields := [fld "ID" "pgtype.UUID"; fld "Name" "string"] |}.

Definition exDriftStructs : list Struct :=
  [ {| sName := "Post"; sFields := [fld "ID" "pgtype.UUID"; fld "Title" "string"] |};
    exUser;
    {| sName := "Author";
       sFields := [fld "ID" "pgtype.UUID"; fld "Name" "string"; fld "Bio" "string"] |};
    {| sName := "Image"; sFields := [fld "ID" "pgtype.UUID"; fld "URL" "string"] |} ].

Definition exDriftQueries : list Query :=
  [ {| MethodName := "GetPosts"; SourceName := "posts.sql";
       RetStruct := Some {| sName := "GetPostsRow";
                            sFields := [fld "ID" "pgtype.UUID";
                                        fld "Title" "string";
                                        fld "Author" "Author"] |} |} ].

Definition exAuthorRef : NestedGroupConfig :=
  groupNode "Author" "UserComposite" (Some true) [].

Definition exDriftOptions : Options :=
  {| EmitJsonTags := true;
     EmitResultStructPointers := true;
     OutputModelsPackage := "entity";
     Nested := Some
       {| Composites :=
            [ {| cName := "PostComposite"; cStructRootIn := "Post";
                 cGroup := [exAuthorRef] |};
              {| cName := "UserComposite"; cStructRootIn := "User";
                 cGroup := [groupNode "Image" "" None []] |} ];
          Queries :=
            [ {| qcQuery := "GetPosts"; qcFieldGroupBy := "";
                 qcStructRoot := "PostComposite"; qcGroup := [];
                 qcIsComposite := Some true |} ] |} |}.




(** Every node below [t] with the output name of its parent, parents before
    children. *)
Fixpoint childrenWithParent (t : NestedStructData)
  : list (string * NestedStructData) :=
  flat_map (fun c => (StructOut t, c) :: childrenWithParent c)
           (NestedStructs t).

(** The methods a composite node needs and the root does not offer. *)
Definition missingMethodsOf (root n : NestedStructData)
  : list RowGetterInterfaceMethod :=
  findMissingMethods (collectRequiredMethods root)
                     (collectCompositeRequiredMethods n).

(** Lines 48-77 of [validateNestedCompositeInterfaces]: the check of one
    node, [parentStructOut] being the output name of its parent. *)
Definition checkInterfaceNode (root : NestedStructData) (rootStructName : string)
    (entry : string * NestedStructData) : option error :=
  let '(parentStructOut, n) := entry in
  if IsComposite n && (0 <? length (missingMethodsOf root n))%nat then
    Some (ErrInterfaceValidation (StructOut n) rootStructName parentStructOut
            (formatMissingMethods (missingMethodsOf root n)))
  else None.

(** The getter of the entity a node stands for. *)
Definition getterOf (d : NestedStructData) : RowGetterInterfaceMethod :=
  {| mMethodName := "Get" +:+ StructIn d;
     mReturnType := RowFieldType d;
     mStructIn := StructIn d |}.

(** The entity of [d] is embedded in no row field the tree of [root] knows. *)
Definition notEmbedded (root d : NestedStructData) : Prop :=
  forall d', In d' (descendants root) ->
             IsRowFieldExistsInQuery d' = true -> StructIn d' <> StructIn d.

(** The set [seen] holds the names of [methods]. *)
Definition seenNames (acc : list RowGetterInterfaceMethod * gset string) : Prop :=
  forall name, name ∈ acc.2 <-> In name (map mMethodName acc.1).

(** The tree an item of a successful [buildNestedData] carries. *)
Definition itemTree (r : option (Res (NestedQueryTemplateData * Registry)))
  : option NestedStructData :=
  match r with Some (Ok (item, _)) => tRootStructData item | _ => None end.

(** The tree of [GetPosts] in the first example, as the builder makes it:
    the root, the author below it, and the author's image, which the row
    does not embed. *)
Definition exImageNode : NestedStructData :=
  newNestedStructData exExt exBuilder (groupNode "Image" "Image" (Some false) [])
    "Image" "Images" "[]*entity.Image"
    [fld "ID" "pgtype.UUID"; fld "URL" "string"] true false false false.

Definition exUserNode : NestedStructData :=
  setNestedStructs
    (newNestedStructData exExt exBuilder
       (groupNode "User" "UserComposite" (Some true) [])
       "User" "Users" "[]*UserComposite"
       [fld "ID" "pgtype.UUID"; fld "Name" "string"] false true false false)
    [exImageNode].

Definition exPostRoot : NestedStructData :=
  setNestedStructs
    (newNestedStructData exExt exBuilder exRootConfig "Post"
       "PostComposites" "[]*PostComposite"
       [fld "ID" "pgtype.UUID"; fld "Title" "string"] false false false true)
    [exUserNode].

Definition exPostsQuery : Query :=
  {| MethodName := "GetPosts"; SourceName := "posts.sql";
     RetStruct := Some {| sName := "GetPostsRow"; sFields := exRowFields |} |}.

Definition exPostsConfig : NestedQueryConfig :=
  {| qcQuery := "GetPosts"; qcFieldGroupBy := "";
     qcStructRoot := "PostComposite"; qcGroup := [];
     qcIsComposite := Some true |}.










(** Two queries of one file that both refer to [UserComposite] below their
    roots: posts and comments with their authors. *)
Definition exSharedOptions : Options :=
  {| EmitJsonTags := true;
     EmitResultStructPointers := true;
     OutputModelsPackage := "entity";
     Nested := Some
       {| Composites :=
            [ {| cName := "PostComposite"; cStructRootIn := "Post";
                 cGroup := [groupNode "User" "UserComposite" (Some true) []] |};
              {| cName := "CommentComposite"; cStructRootIn := "Comment";
                 cGroup := [groupNode "User" "UserComposite" (Some true) []] |};
              {| cName := "UserComposite"; cStructRootIn := "User";
                 cGroup := [] |} ];
          Queries :=
            [ {| qcQuery := "GetPosts"; qcFieldGroupBy := "";
                 qcStructRoot := "PostComposite"; qcGroup := [];
                 qcIsComposite := Some true |};
              {| qcQuery := "GetComments"; qcFieldGroupBy := "";
                 qcStructRoot := "CommentComposite"; qcGroup := [];
                 qcIsComposite := Some true |} ] |} |}.

Definition exSharedQueries : list Query :=
  [ {| MethodName := "GetPosts"; SourceName := "posts.sql";
       RetStruct := Some {| sName := "GetPostsRow"; sFields := exRowFields |} |};
    {| MethodName := "GetComments"; SourceName := "posts.sql";
       RetStruct := Some {| sName := "GetCommentsRow";
                            sFields := [fld "ID" "pgtype.UUID";
                                        fld "Body" "string";
                                        fld "User" "User"] |} |} ].

Definition exSharedStructs : list Struct :=
  [ {| sName := "Post"; sFields := [fld "ID" "pgtype.UUID"; fld "Title" "string"] |};
    {| sName := "Comment"; sFields := [fld "ID" "pgtype.UUID"; fld "Body" "string"] |};
    exUser ].

(** A message with its sender and its receiver, both of type [UserComposite],
    before the duplicate flags are set. *)
Definition exSender : NestedStructData :=
  newNestedStructData exExt exBuilder
    (groupNode "Sender" "UserComposite" (Some true) [])
    "User" "Senders" "[]*UserComposite" [] false true false false.

Definition exReceiver : NestedStructData :=
  newNestedStructData exExt exBuilder
    (groupNode "Receiver" "UserComposite" (Some true) [])
    "User" "Receivers" "[]*UserComposite" [] false true true false.

Definition exMessageRoot : NestedStructData :=
  setNestedStructs
    (newNestedStructData exExt exBuilder
       (groupNode "MessageGroup" "MessageGroup" (Some false) [])
       "MessageGroup" "MessageGroups" "[]*MessageGroup" [] false false false true)
    [exSender; exReceiver; exImageNode].


(** The trees of a run, in the order they were built. *)
Definition treesOf (sources : list NestedSource) : list NestedStructData :=
  flat_map (fun src => omap tRootStructData (NestedDataItems src)) sources.

Definition builtTrees (r : option (Res (list NestedSource * Registry)))
  : list NestedStructData :=
  match r with Some (Ok (sources, _)) => treesOf sources | _ => [] end.

(** The words of a snake-case identifier: every word but the last may stand
    before another one. *)
Fixpoint isSnakeWords (parts : list string) : bool :=
  match parts with
  | [] => false
  | [w] => isWord w
  | w :: rest => isInnerWord w && isSnakeWords rest
  end.

(** What the loop of [ToPascalCaseWithInitialisms] writes for [parts]. *)
Fixpoint pascalConcat (parts : list string) : string :=
  match parts with
  | [] => ""
  | p :: ps => pascalPart p +:+ pascalConcat ps
  end.

(** Two nodes that agree except for their duplicate flags and for what lies
    below their children. *)
Definition sameNode (n n' : NestedStructData) : Prop :=
  shallow n = shallow n'
  /\ map shallow (NestedStructs n) = map shallow (NestedStructs n').

(** The node [buildNestedStructData] creates for [config] under [parent],
    given the outcomes of its three lookups. *)
Definition isRootOf (parent : option NestedStructData) : bool :=
  match parent with None => true | Some _ => false end.

Definition parentSkipsOf (parent : option NestedStructData) : bool :=
  match parent with Some p => SkipStructGeneration p | None => false end.

Definition skipOf (b : NestedQueryTemplateDataBuilder)
    (config : NestedGroupConfig) (parent : option NestedStructData)
    (isAlreadyGenerated : bool) : bool :=
  negb (isRootOf parent)
  && (isAlreadyGenerated
      || IsCompositeStructWillBeGeneratedInAnotherFile b config
      || parentSkipsOf parent).

Definition builtNode (ext : Externals) (b : NestedQueryTemplateDataBuilder)
    (config : NestedGroupConfig) (parent : option NestedStructData)
    (structFields : list Field) (reg : Registry) (structIn : string)
    (isAlreadyGenerated rowFieldExists : bool) : NestedStructData :=
  newNestedStructData ext b config structIn
    (getFieldNameFromNestedConfig ext config)
    (getFieldType b (gStructIn config) (gStructOut config)
       (GetIsSlice config) (GetIsPointer config)
       (shouldReuseEntityStruct b (gStructOut config) (gStructIn config) config)
       (Some config))
    (getNonNestedStructFields reg structFields [config])
    (shouldReuseEntityStruct b (gStructOut config) (gStructIn config) config)
    rowFieldExists
    (skipOf b config parent isAlreadyGenerated)
    (isRootOf parent).

(** The successful runs of [buildNestedStructData] and of
    [buildNestedStructsList] as a relation between the registry before, the
    tree or trees built, and the registry after. *)
Inductive Built (ext : Externals) (b : NestedQueryTemplateDataBuilder)
    (queryName : string)
  : NestedGroupConfig -> option NestedStructData -> list Field -> Registry ->
    NestedStructData -> Registry -> Prop :=
| Built_node config parent structFields reg nestedConfigs structIn
    isAlreadyGenerated reg1 rowFieldExists nestedStructs reg' :
    compositeTarget reg config = Some (nestedConfigs, structIn) ->
    IsCompositeStructAlreadyGenerated reg config = Some isAlreadyGenerated ->
    markAlreadyGenerated reg config (isRootOf parent)
      (IsCompositeStructWillBeGeneratedInAnotherFile b config)
      (parentSkipsOf parent) = Some reg1 ->
    isRowFieldExistsInQuery b queryName config = Some rowFieldExists ->
    BuiltList ext b queryName
      (builtNode ext b config parent structFields reg structIn
         isAlreadyGenerated rowFieldExists)
      nestedConfigs reg1 nestedStructs reg' ->
    (isRootOf parent = true ->
     validateExtractedFields ext reg'
       (getNonNestedStructFields reg structFields [config]) nestedStructs
       (structs b) (gStructOut config) = None) ->
    Built ext b queryName config parent structFields reg
      (updateDuplicatesFromNodePerspective
         (setNestedStructs
            (builtNode ext b config parent structFields reg structIn
               isAlreadyGenerated rowFieldExists)
            nestedStructs) [])
      reg'
with BuiltList (ext : Externals) (b : NestedQueryTemplateDataBuilder)
    (queryName : string)
  : NestedStructData -> list NestedGroupConfig -> Registry ->
    list NestedStructData -> Registry -> Prop :=
| BuiltList_nil parent reg :
    BuiltList ext b queryName parent [] reg [] reg
| BuiltList_cons parent nestedCfg rest reg t reg1 l reg' :
    Built ext b queryName nestedCfg (Some parent)
      (structFieldsFor b (gStructIn nestedCfg)) reg t reg1 ->
    BuiltList ext b queryName parent rest reg1 l reg' ->
    BuiltList ext b queryName parent (nestedCfg :: rest) reg (t :: l) reg'.

Scheme Built_mut_ind := Minimality for Built Sort Prop
  with BuiltList_mut_ind := Minimality for BuiltList Sort Prop.

(** * Further parts of the generator *)

(** ** [ToCamelCase] *)

(** [strings.ToLower(s[:1]) + s[1:]], for a string that is not empty. *)
Definition lowerFirst (s : string) : string :=
  match s with
  | EmptyString => EmptyString
  | String c r => String (lowerChar c) r
  end.

Definition ToCamelCase (s : string) : string :=
  let alreadyPascal :=
    match s with
    | String c _ => isUpperAZ c && negb (containsUnderscore s)
    | EmptyString => false
    end in
  if alreadyPascal then lowerFirst s
  else
    let result := ToPascalCaseWithInitialisms s in
    if (0 <? String.length result)%nat then lowerFirst result else result.

(** Whether a string starts with a letter in A-Z. *)
Definition startsUpper (s : string) : bool :=
  match s with
  | String c _ => isUpperAZ c
  | EmptyString => false
  end.

(** The function of [flect] that [getFieldNameFromNestedConfig] uses for a
    node: the plural for a slice, the singular otherwise. *)
Definition inflectionOf (ext : Externals) (nested : NestedGroupConfig)
  : string -> string :=
  if match gIsSlice nested with None => true | Some v => v end
  then flectPluralize ext else flectSingularize ext.

(** ** Vocabulary of the default values *)

(** The nodes at the first level of the configuration: the groups of the
    queries and of the composites. *)
Definition firstLevelGroups (options : Options) : list NestedGroupConfig :=
  match Nested options with
  | None => []
  | Some nestedCfg =>
      flat_map qcGroup (Queries nestedCfg) ++ flat_map cGroup (Composites nestedCfg)
  end.

(** A node none of whose options is left to a default. *)
Definition isExplicit (config : NestedGroupConfig) : Prop :=
  is_Some (gIsSlice config) /\ is_Some (gIsPointer config)
  /\ is_Some (gIsComposite config)
  /\ gFieldGroupBy config <> ""
  /\ (gStructOut config = "" -> gStructIn config = "")
  /\ Forall (fun m => is_Some (FromStruct m) /\ is_Some (FromField m)
                      /\ is_Some (ToField m)) (gMatch config).

(** A configuration that leaves every option of its one node to the
    defaults, and the node with its defaults. *)
Definition exBareOptions : Options :=
  {| EmitJsonTags := true; EmitResultStructPointers := true;
     OutputModelsPackage := "entity";
     Nested := Some
       {| Composites := [];
          Queries :=
            [ {| qcQuery := "GetPosts"; qcFieldGroupBy := "";
                 qcStructRoot := "";
                 qcGroup := [groupNode "User" "" None []];
                 qcIsComposite := None |} ] |} |}.

Definition exBareUserDefaults : NestedGroupConfig :=
  {| gFieldGroupBy := "ID"; gFieldOut := ""; gStructIn := "User";
     gStructOut := "User"; gIsSlice := Some true; gIsPointer := Some true;
     gIsComposite := Some false; gGroup := []; gMatch := [] |}.

(** ** Vocabulary of the sources *)

(** The source file [getNestedSourceWithConfigs] finds for a configuration:
    that of the first query it names, the empty string when there is none. *)
Definition sourceFileOf (qs : list Query) (config : NestedQueryConfig) : string :=
  match findTargetQuery qs (qcQuery config) with
  | Some q => SourceName q
  | None => ""
  end.

(** The configurations of [configs] whose source file is [file]. *)
Definition configsOfFile (qs : list Query) (file : string)
    (configs : list NestedQueryConfig) : list NestedQueryConfig :=
  List.filter (fun c => String.eqb (sourceFileOf qs c) file) configs.

(** The state of the loop of [getNestedSourceWithConfigs] after the
    configurations [processed]. *)
Definition sourcesInvariant (qs : list Query) (processed : list NestedQueryConfig)
    (acc : list NestedSource * gset string) : Prop :=
  (forall f, f ∈ acc.2 <-> In f (map SourceFileName acc.1))
  /\ List.NoDup (map SourceFileName acc.1)
  /\ List.Forall (fun src =>
               SourceFileName src <> ""
               /\ Configs src = configsOfFile qs (SourceFileName src) processed
               /\ Configs src <> []
               /\ NestedDataItems src = []) acc.1
  /\ (forall c, In c processed -> sourceFileOf qs c <> "" ->
                In (sourceFileOf qs c) (map SourceFileName acc.1)).

(** Queries and configurations over two files, with a configuration for a
    query that does not exist. *)
Definition exSourceQueries : list Query :=
  [ {| MethodName := "GetPosts"; SourceName := "posts.sql"; RetStruct := None |};
    {| MethodName := "GetUsers"; SourceName := "users.sql"; RetStruct := None |};
    {| MethodName := "ListPosts"; SourceName := "posts.sql"; RetStruct := None |} ].

Definition queryConfigFor (query : string) : NestedQueryConfig :=
  {| qcQuery := query; qcFieldGroupBy := ""; qcStructRoot := "";
     qcGroup := []; qcIsComposite := None |}.

Definition exSourceOptions : Options :=
  {| EmitJsonTags := true; EmitResultStructPointers := true;
     OutputModelsPackage := "entity";
     Nested := Some
       {| Composites := [];
          Queries := [ queryConfigFor "GetPosts"; queryConfigFor "GetUsers";
                       queryConfigFor "GetOrders"; queryConfigFor "ListPosts" ] |} |}.

(** ** Names of the generated files ([internal/gen.go])

    More of the [strings] package.  An index is a [nat]; [None] is the -1 of
    [strings.Index]. *)

(** [strings.HasPrefix(s, prefix)]. *)
Fixpoint HasPrefix (s prefix : string) {struct prefix} : bool :=
  match prefix, s with
  | EmptyString, _ => true
  | String p ps, String c cs => Ascii.eqb c p && HasPrefix cs ps
  | String _ _, EmptyString => false
  end.

(** [strings.HasSuffix(s, suffix)]:
    [len(s) >= len(suffix) && s[len(s)-len(suffix):] == suffix]. *)
Definition HasSuffix (s suffix : string) : bool :=
  (String.length suffix <=? String.length s)%nat
  && String.eqb (substring (String.length s - String.length suffix)
                           (String.length suffix) s) suffix.

(** [strings.TrimSuffix(s, suffix)]. *)
Definition TrimSuffix (s suffix : string) : string :=
  if HasSuffix s suffix
  then substring 0 (String.length s - String.length suffix) s
  else s.

(** [strings.TrimPrefix(s, prefix)]. *)
Definition TrimPrefix (s prefix : string) : string :=
  if HasPrefix s prefix
  then substring (String.length prefix) (String.length s - String.length prefix) s
  else s.

(** [strings.Index(s, substr)]: where [substr] first occurs in [s]. *)
Fixpoint Index (s substr : string) : option nat :=
  if HasPrefix s substr then Some 0%nat
  else match s with
       | EmptyString => None
       | String _ r =>
           match Index r substr with
           | Some i => Some (S i)
           | None => None
           end
       end.

(** [strings.Contains(s, substr)]. *)
Definition Contains (s substr : string) : bool :=
  match Index s substr with Some _ => true | None => false end.

Definition slash : ascii := "/"%char.

(** [filepath.Base] where the separator is the slash: trailing slashes are
    dropped, then everything up to the last slash; the empty path gives ".",
    a path of slashes only gives "/". *)
Fixpoint stripTrailingSlashes (path : string) : string :=
  match path with
  | EmptyString => EmptyString
  | String c r =>
      match stripTrailingSlashes r with
      | EmptyString => if Ascii.eqb c slash then EmptyString else String c EmptyString
      | r' => String c r'
      end
  end.

Fixpoint lastElement (path : string) : string :=
  match path with
  | EmptyString => EmptyString
  | String c r =>
      if Contains r "/" then lastElement r
      else if Ascii.eqb c slash then r else path
  end.

Definition filepathBase (path : string) : string :=
  if String.eqb path "" then "."
  else
    let path := lastElement (stripTrailingSlashes path) in
    if String.eqb path "" then "/" else path.

(** The fields of [Options] that name the files of the nested grouping
    functions. *)
Record FileOptions := mkFileOptions {
  OutputFilesSuffix : string;
  OutputQueryFilesDirectory : string
}.

Definition nestedFileNameSuffix : string := "_nested.sql".

(** [getNestedFileName]; [filepathJoin] is [filepath.Join], which cleans the
    path it puts together. *)
Definition getNestedFileName (filepathJoin : string -> string -> string)
    (options : FileOptions) (fileName : string) : string :=
  let baseFileName := TrimSuffix fileName ".sql" in
  let nestedFileName :=
    if negb (String.eqb (OutputFilesSuffix options) "")
    then baseFileName +:+ nestedFileNameSuffix +:+ OutputFilesSuffix options +:+ ".go"
    else baseFileName +:+ nestedFileNameSuffix +:+ ".go" in
  if negb (String.eqb (OutputQueryFilesDirectory options) "")
  then filepathJoin (OutputQueryFilesDirectory options) nestedFileName
  else nestedFileName.

Definition isNestedFileName (fileName : string) : bool :=
  Contains fileName nestedFileNameSuffix && HasSuffix fileName ".go".

Definition extractSqlFileNameFromNestedFileName (fileName : string) : string :=
  let baseName := TrimSuffix (filepathBase fileName) ".go" in
  match Index baseName nestedFileNameSuffix with
  | Some nestedIndex => substring 0 nestedIndex baseName +:+ ".sql"
  | None => TrimSuffix baseName nestedFileNameSuffix +:+ ".sql"
  end.

(** The name [getNestedFileName] gives the file before a directory is put in
    front of it. *)
Definition nestedFileNameOf (options : FileOptions) (base : string) : string :=
  base +:+ nestedFileNameSuffix +:+ OutputFilesSuffix options +:+ ".go".

(** [filepath.Join] on a directory and a name that need no cleaning. *)
Definition joinPlain (dir name : string) : string := dir +:+ "/" +:+ name.

(** ** Name conflicts ([validate] of [internal/gen.go]) *)

(** [Enum], of which [validate] reads the name. *)
Record Enum := mkEnum {
  eName : string
}.

Inductive validateError :=
| ErrStructEnumConflict (structName : string)
| ErrQueryEnumConflict (constantName : string)
| ErrQueryStructConflict (constantName : string).

(** The first loop of [validate]: the set [enumNames]. *)
Definition enumNamesOf (enums : list Enum) : gset string :=
  fold_left (fun enumNames enum =>
               {[ "Null" +:+ eName enum ]} ∪ ({[ eName enum ]} ∪ enumNames))
            enums ∅.

(** The second loop: the first struct whose name is an enum name ends it;
    otherwise the set [structNames] is returned. *)
Fixpoint structNamesOf (enumNames : gset string) (structs : list Struct)
    (structNames : gset string) : validateError + gset string :=
  match structs with
  | [] => inr structNames
  | struckt :: rest =>
      if bool_decide (sName struckt ∈ enumNames)
      then inl (ErrStructEnumConflict (sName struckt))
      else structNamesOf enumNames rest ({[ sName struckt ]} ∪ structNames)
  end.

(** The third loop, over the constant names of the queries. *)
Fixpoint checkQueryConstants (enumNames structNames : gset string)
    (constantNames : list string) : option validateError :=
  match constantNames with
  | [] => None
  | constantName :: rest =>
      if bool_decide (constantName ∈ enumNames)
      then Some (ErrQueryEnumConflict constantName)
      else if bool_decide (constantName ∈ structNames)
      then Some (ErrQueryStructConflict constantName)
      else checkQueryConstants enumNames structNames rest
  end.

(** [validate]; [None] is the nil error.  [ConstantName] is the field of
    [Query] of that name, which the record [Query] above leaves out, and
    [emitExportedQueries] the option [EmitExportedQueries]. *)
Definition validate (ConstantName : Query -> string)
    (emitExportedQueries : bool) (enums : list Enum) (structs : list Struct)
    (queries : list Query) : option validateError :=
  let enumNames := enumNamesOf enums in
  match structNamesOf enumNames structs ∅ with
  | inl err => Some err
  | inr structNames =>
      if negb emitExportedQueries then None
      else checkQueryConstants enumNames structNames (map ConstantName queries)
  end.

(** A name that an enum takes: its own or that of its null wrapper. *)
Definition isEnumName (enums : list Enum) (name : string) : Prop :=
  exists enum, In enum enums /\ (name = eName enum \/ name = "Null" +:+ eName enum).

(** ** Parsing and validating the options ([internal/opts])

    The fields of [Options] that [Parse] and [ValidateOpts] read or write are
    a record of their own here, in a module named after the package. *)

Module opts.

(** [plugin.GenerateRequest]: the two byte slices the parser reads. *)
Record GenerateRequest := mkGenerateRequest {
  PluginOptions : string;
  GlobalOptions : string
}.

Inductive error :=
| ErrUnmarshalPluginOptions (err : string)
| ErrMissingPackageName
| ErrOverride (err : string)
| ErrInvalidOptions (err : string)
| ErrUnmarshalGlobalOptions (err : string)
| ErrMutuallyExclusive
| ErrNegativeParameterLimit
| ErrImportPathNotSet
| ErrModelsPackageNotSet.

Section Parse.

(** [Override], whose definition lies in another file of the package. *)
Variable Override : Type.

(** [QueryParameterLimit] is a [*int32], [Initialisms] a slice that may be
    nil; the maps read as empty when nil. *)
Record Options := mkOptions {
  EmitPreparedQueries : bool;
  EmitMethodsWithDbArgument : bool;
  Package : string;
  Out : string;
  Overrides : list Override;
  Rename : gmap string string;
  SqlPackage : string;
  SqlDriver : string;
  OutputModelsPackage : string;
  ModelsPackageImportPath : string;
  QueryParameterLimit : option Z;
  Initialisms : option (list string);
  InitialismsMap : gset string
}.

Record GlobalOptions_ := mkGlobalOptions {
  gOverrides : list Override;
  gRename : gmap string string
}.

(** [var options Options]: every field at its zero value. *)
Definition zeroOptions : Options :=
  {| EmitPreparedQueries := false; EmitMethodsWithDbArgument := false;
     Package := ""; Out := ""; Overrides := []; Rename := ∅;
     SqlPackage := ""; SqlDriver := ""; OutputModelsPackage := "";
     ModelsPackageImportPath := ""; QueryParameterLimit := None;
     Initialisms := None; InitialismsMap := ∅ |}.

Definition zeroGlobalOptions : GlobalOptions_ :=
  {| gOverrides := []; gRename := ∅ |}.

(** What the parser calls outside the package and outside the files at hand:
    [json.Unmarshal] into a zero [Options] and into a zero [GlobalOptions],
    [Override.parse], which rewrites the override it is called on, and the
    two checks [validatePackage] and [validateDriver]; [inl] carries an
    error. *)
Record Library := mkLibrary {
  unmarshalOptions : string -> string + Options;
  unmarshalGlobalOptions : string -> string + GlobalOptions_;
  overrideParse : GenerateRequest -> Override -> string + Override;
  validatePackage : string -> option string;
  validateDriver : string -> option string
}.

Variable lib : Library.

(** [for i := range overrides { if err := overrides[i].parse(req) ... }] *)
Fixpoint parseOverrides (req : GenerateRequest) (overrides : list Override)
  : error + list Override :=
  match overrides with
  | [] => inr []
  | o :: rest =>
      match overrideParse lib req o with
      | inl err => inl (ErrOverride err)
      | inr o' =>
          match parseOverrides req rest with
          | inl err => inl err
          | inr rest' => inr (o' :: rest')
          end
      end
  end.

Definition setPackage (o : Options) (v : string) : Options :=
  {| EmitPreparedQueries := EmitPreparedQueries o;
     EmitMethodsWithDbArgument := EmitMethodsWithDbArgument o;
     Package := v; Out := Out o; Overrides := Overrides o; Rename := Rename o;
     SqlPackage := SqlPackage o; SqlDriver := SqlDriver o;
     OutputModelsPackage := OutputModelsPackage o;
     ModelsPackageImportPath := ModelsPackageImportPath o;
     QueryParameterLimit := QueryParameterLimit o;
     Initialisms := Initialisms o; InitialismsMap := InitialismsMap o |}.

Definition setOverrides (o : Options) (v : list Override) : Options :=
  {| EmitPreparedQueries := EmitPreparedQueries o;
     EmitMethodsWithDbArgument := EmitMethodsWithDbArgument o;
     Package := Package o; Out := Out o; Overrides := v; Rename := Rename o;
     SqlPackage := SqlPackage o; SqlDriver := SqlDriver o;
     OutputModelsPackage := OutputModelsPackage o;
     ModelsPackageImportPath := ModelsPackageImportPath o;
     QueryParameterLimit := QueryParameterLimit o;
     Initialisms := Initialisms o; InitialismsMap := InitialismsMap o |}.

Definition setRename (o : Options) (v : gmap string string) : Options :=
  {| EmitPreparedQueries := EmitPreparedQueries o;
     EmitMethodsWithDbArgument := EmitMethodsWithDbArgument o;
     Package := Package o; Out := Out o; Overrides := Overrides o; Rename := v;
     SqlPackage := SqlPackage o; SqlDriver := SqlDriver o;
     OutputModelsPackage := OutputModelsPackage o;
     ModelsPackageImportPath := ModelsPackageImportPath o;
     QueryParameterLimit := QueryParameterLimit o;
     Initialisms := Initialisms o; InitialismsMap := InitialismsMap o |}.

(** The last three steps of [parseOpts]: the defaults of the parameter limit
    and of the initialisms, and the set of the initialisms. *)
Definition setLimitAndInitialisms (o : Options) : Options :=
  let limit := match QueryParameterLimit o with
               | None => 1%Z
               | Some v => v
               end in
  let initialisms := match Initialisms o with
                     | None => ["id"]
                     | Some l => l
                     end in
  {| EmitPreparedQueries := EmitPreparedQueries o;
     EmitMethodsWithDbArgument := EmitMethodsWithDbArgument o;
     Package := Package o; Out := Out o; Overrides := Overrides o;
     Rename := Rename o;
     SqlPackage := SqlPackage o; SqlDriver := SqlDriver o;
     OutputModelsPackage := OutputModelsPackage o;
     ModelsPackageImportPath := ModelsPackageImportPath o;
     QueryParameterLimit := Some limit;
     Initialisms := Some initialisms;
     InitialismsMap := list_to_set initialisms |}.

Definition parseOpts (req : GenerateRequest) : error + Options :=
  if String.eqb (PluginOptions req) "" then inr zeroOptions
  else
    match unmarshalOptions lib (PluginOptions req) with
    | inl err => inl (ErrUnmarshalPluginOptions err)
    | inr options =>
        match
          (if String.eqb (Package options) "" then
             if negb (String.eqb (Out options) "")
             then inr (setPackage options (filepathBase (Out options)))
             else inl ErrMissingPackageName
           else inr options)
        with
        | inl err => inl err
        | inr options =>
            match parseOverrides req (Overrides options) with
            | inl err => inl err
            | inr overrides =>
                let options := setOverrides options overrides in
                match
                  (if negb (String.eqb (SqlPackage options) "")
                   then validatePackage lib (SqlPackage options) else None)
                with
                | Some err => inl (ErrInvalidOptions err)
                | None =>
                    match
                      (if negb (String.eqb (SqlDriver options) "")
                       then validateDriver lib (SqlDriver options) else None)
                    with
                    | Some err => inl (ErrInvalidOptions err)
                    | None => inr (setLimitAndInitialisms options)
                    end
                end
            end
        end
    end.

Definition parseGlobalOpts (req : GenerateRequest) : error + GlobalOptions_ :=
  if String.eqb (GlobalOptions req) "" then inr zeroGlobalOptions
  else
    match unmarshalGlobalOptions lib (GlobalOptions req) with
    | inl err => inl (ErrUnmarshalGlobalOptions err)
    | inr options =>
        match parseOverrides req (gOverrides options) with
        | inl err => inl err
        | inr overrides =>
            inr {| gOverrides := overrides; gRename := gRename options |}
        end
    end.

(** [Parse]; [maps.Copy(options.Rename, global.Rename)] lets the entries of
    the global options replace those of the plugin's. *)
Definition Parse (req : GenerateRequest) : error + Options :=
  match parseOpts req with
  | inl err => inl err
  | inr options =>
      match parseGlobalOpts req with
      | inl err => inl err
      | inr global =>
          let options :=
            if (0 <? length (gOverrides global))%nat
            then setOverrides options (gOverrides global ++ Overrides options)
            else options in
          let options :=
            if (0 <? size (gRename global))%nat
            then setRename options (gRename global ∪ Rename options)
            else options in
          inr options
      end
  end.

(** The outcome of [ValidateOpts]: nil, an error, or the panic of reading
    through a nil [QueryParameterLimit]. *)
Inductive Validated :=
| Valid
| Invalid (err : error)
| NilDereference.

Definition ValidateOpts (o : Options) : Validated :=
  if EmitMethodsWithDbArgument o && EmitPreparedQueries o
  then Invalid ErrMutuallyExclusive
  else
    match QueryParameterLimit o with
    | None => NilDereference
    | Some limit =>
        if (limit <? 0)%Z then Invalid ErrNegativeParameterLimit
        else if negb (String.eqb (OutputModelsPackage o) "")
                && String.eqb (ModelsPackageImportPath o) ""
        then Invalid ErrImportPathNotSet
        else if negb (String.eqb (ModelsPackageImportPath o) "")
                && String.eqb (OutputModelsPackage o) ""
        then Invalid ErrModelsPackageNotSet
        else Valid
    end.

End Parse.

Arguments zeroOptions {Override}.
Arguments parseOpts {Override}.
Arguments parseGlobalOpts {Override}.
Arguments Parse {Override}.
Arguments ValidateOpts {Override}.
Arguments Rename {Override}.
Arguments Overrides {Override}.
Arguments Package {Override}.
Arguments QueryParameterLimit {Override}.
Arguments Initialisms {Override}.
Arguments InitialismsMap {Override}.
Arguments EmitPreparedQueries {Override}.
Arguments EmitMethodsWithDbArgument {Override}.
Arguments OutputModelsPackage {Override}.
Arguments ModelsPackageImportPath {Override}.
Arguments gRename {Override}.
Arguments gOverrides {Override}.
Arguments Out {Override}.
Arguments SqlPackage {Override}.
Arguments SqlDriver {Override}.
Arguments unmarshalOptions {Override}.
Arguments unmarshalGlobalOptions {Override}.
Arguments overrideParse {Override}.
Arguments validatePackage {Override}.
Arguments validateDriver {Override}.
Arguments parseOverrides {Override}.
Arguments zeroGlobalOptions {Override}.

End opts.

(** A library that decodes nothing but the two blobs below: plugin options
    that name a package only, and global options with one renaming. *)
Definition exLibrary : opts.Library unit :=
  {| opts.unmarshalOptions := fun data =>
       if String.eqb data "{package: db}"
       then inr {| opts.EmitPreparedQueries := false;
                   opts.EmitMethodsWithDbArgument := false;
                   opts.Package := "db"; opts.Out := ""; opts.Overrides := [];
                   opts.Rename := {[ "id" := "Ident"; "url" := "Link" ]};
                   opts.SqlPackage := ""; opts.SqlDriver := "";
                   opts.OutputModelsPackage := "";
                   opts.ModelsPackageImportPath := "";
                   opts.QueryParameterLimit := None;
                   opts.Initialisms := None; opts.InitialismsMap := ∅ |}
       else inl "unexpected input";
     opts.unmarshalGlobalOptions := fun data =>
       if String.eqb data "{rename: {id: ID}}"
       then inr {| opts.gOverrides := []; opts.gRename := {[ "id" := "ID" ]} |}
       else inl "unexpected input";
     opts.overrideParse := fun _ o => inr o;
     opts.validatePackage := fun _ => None;
     opts.validateDriver := fun _ => None |}.

Definition exRequest : opts.GenerateRequest :=
  {| opts.PluginOptions := "{package: db}";
     opts.GlobalOptions := "{rename: {id: ID}}" |}.

(** The options the plugin's blob stands for after [parseOpts], the global
    options, and the outcome of [Parse]. *)
Definition exPluginOptions : opts.Options unit :=
  {| opts.EmitPreparedQueries := false;
     opts.EmitMethodsWithDbArgument := false;
     opts.Package := "db"; opts.Out := ""; opts.Overrides := [];
     opts.Rename := {[ "id" := "Ident"; "url" := "Link" ]};
     opts.SqlPackage := ""; opts.SqlDriver := "";
     opts.OutputModelsPackage := "";
     opts.ModelsPackageImportPath := "";
     opts.QueryParameterLimit := Some 1%Z;
     opts.Initialisms := Some ["id"];
     opts.InitialismsMap := list_to_set ["id"] |}.

Definition exGlobalOptions : opts.GlobalOptions_ unit :=
  {| opts.gOverrides := []; opts.gRename := {[ "id" := "ID" ]} |}.

Definition exParsedOptions : opts.Options unit :=
  opts.setRename unit exPluginOptions
    (opts.gRename exGlobalOptions ∪ opts.Rename exPluginOptions).

(** ** Template helpers ([internal/template_utils.go]) *)

(** The order of Go's [<=] on strings: byte by byte, a proper prefix first. *)
Definition stringLe (a b : string) : Prop := String.leb a b = true.

#[global] Instance stringLe_dec : RelDecision stringLe.
Proof. intros a b. unfold stringLe. apply _. Defined.

(** [sort.Strings]. *)
Definition sortStrings (l : list string) : list string := merge_sort stringLe l.

Definition doubleQuote : ascii := ascii_of_nat 34.
Definition backquote : string := String (ascii_of_nat 96) EmptyString.

(** One element of [parts] in [joinTags]: the key, a colon, and the value
    between double quotes. *)
Definition formatTag (kv : string * string) : string :=
  kv.1 +:+ ":" +:+ String doubleQuote (kv.2 +:+ String doubleQuote EmptyString).

(** [joinTags]; the [range] over the map visits its entries in the order
    [mapRange] gives. *)
Definition joinTags (ext : Externals) (tags : gmap string string) : string :=
  let parts := map formatTag (mapRange ext tags) in
  let parts := sortStrings parts in
  backquote +:+ Join parts " " +:+ backquote.

Record typeMapping := mkTypeMapping {
  pgtypeWrapper : string;
  valueField : string
}.

Definition goToPgtypeMap : gmap string typeMapping :=
  list_to_map
    [ ("bool", {| pgtypeWrapper := "pgtype.Bool"; valueField := "Bool" |});
      ("int16", {| pgtypeWrapper := "pgtype.Int2"; valueField := "Int16" |});
      ("int32", {| pgtypeWrapper := "pgtype.Int4"; valueField := "Int32" |});
      ("int64", {| pgtypeWrapper := "pgtype.Int8"; valueField := "Int64" |});
      ("float32", {| pgtypeWrapper := "pgtype.Float4"; valueField := "Float32" |});
      ("float64", {| pgtypeWrapper := "pgtype.Float8"; valueField := "Float64" |});
      ("string", {| pgtypeWrapper := "pgtype.Text"; valueField := "String" |}) ].

Definition getNullableType (fieldType modelsPackage : string) : string :=
  match goToPgtypeMap !! fieldType with
  | Some mapping => pgtypeWrapper mapping
  | None =>
      if negb (String.eqb modelsPackage "")
         && HasPrefix fieldType (modelsPackage +:+ ".")
      then
        let typeName := TrimPrefix fieldType (modelsPackage +:+ ".") in
        modelsPackage +:+ ".Null" +:+ typeName
      else fieldType
  end.

Definition getNullableValueField (fieldType modelsPackage : string) : string :=
  match goToPgtypeMap !! fieldType with
  | Some mapping => valueField mapping
  | None =>
      if negb (String.eqb modelsPackage "")
         && HasPrefix fieldType (modelsPackage +:+ ".")
      then TrimPrefix fieldType (modelsPackage +:+ ".")
      else ""
  end.

(** The externals of the example with the map visited backwards. *)
Definition exExtBackwards : Externals :=
  {| flectPluralize := flectPluralize exExt;
     flectSingularize := flectSingularize exExt;
     JSONTagName := JSONTagName exExt;
     getStructByName := getStructByName exExt;
     mapRange := fun m => rev (map_to_list m) |}.

(** ** Vocabulary of the validation *)

(** The entity [d] stands for is embedded in a row field that the tree of
    [root] knows. *)
Definition embeddedIn (root d : NestedStructData) : Prop :=
  exists d', In d' (descendants root)
             /\ IsRowFieldExistsInQuery d' = true
             /\ StructIn d' = StructIn d.

(** Every field of [fields] has a field of its name in the entity named
    [entityName], if the catalog has such an entity. *)
Definition fieldsExistIn (ext : Externals) (structs : list Struct)
    (entityName : string) (fields : list Field) : Prop :=
  forall entity,
    getStructByName ext structs entityName = Some entity ->
    forall f, In f fields ->
              fieldExistsInEntityFields (sFields entity) (fName f) = true.

(** ** Vocabulary of the registry *)

(** A measure that every reference between composites decreases; a registry
    that has one has no cycle. *)
Definition decreasesAlongReferences (reg : Registry) (rank : string -> nat)
  : Prop :=
  map_Forall
    (fun a d =>
       map_Forall (fun _ b => (rank b < rank a)%nat)
                  (NestedFieldToCompositeNameMap d))
    reg.

(** The rank of the composites of the first example: [PostComposite] refers
    to [UserComposite], which refers to nothing. *)
Definition exRank (name : string) : nat :=
  if String.eqb name "PostComposite" then 1%nat else 0%nat.

(** A composite whose child refers to a composite that is not defined. *)
Definition exDanglingComposite : NestedCompositeConfig :=
  {| cName := "PostComposite"; cStructRootIn := "Post";
     cGroup := [groupNode "User" "UserComposite" (Some true) []] |}.

Definition exDanglingOptions : Options :=
  {| EmitJsonTags := true; EmitResultStructPointers := true;
     OutputModelsPackage := "entity";
     Nested := Some {| Composites := [exDanglingComposite]; Queries := [] |} |}.

(** ** Vocabulary of the trees and of the data items *)

(** A tree without its duplicate flags. *)
Fixpoint eraseFlags (t : NestedStructData) : NestedStructData :=
  setDuplicatedRelativeToParents
    (setNestedStructs t (map eraseFlags (NestedStructs t))) ∅.

(** A node the children of which are skipped when it is. *)
Definition skipsChildren (n : NestedStructData) : Prop :=
  SkipStructGeneration n = true ->
  Forall (fun c => SkipStructGeneration c = true) (NestedStructs n).

(** The queries of the configurations that name a query of the catalog. *)
Definition knownQueries (qs : list Query) (configs : list NestedQueryConfig)
  : list (Query * string) :=
  flat_map (fun config =>
              match findTargetQuery qs (qcQuery config) with
              | Some q => [(q, qcStructRoot config)]
              | None => []
              end) configs.

(** An item that carries a tree, and an item that stands for a tree built for
    another query. *)
Definition isBuiltItem (item : NestedQueryTemplateData) : Prop :=
  is_Some (tRootStructData item) /\ tCastToQueryName item = "".

Definition isWrapperOf (qs : list Query) (earlier : list NestedQueryTemplateData)
    (item : NestedQueryTemplateData) : Prop :=
  tRootStructData item = None
  /\ exists first,
       In first earlier
       /\ is_Some (tRootStructData first)
       /\ findTargetQuery qs (tCastToQueryName item) = Some (tQuery first).

(** Every item is a built one or a wrapper of one before it. *)
Fixpoint wrappersFollow (qs : list Query) (earlier items : list NestedQueryTemplateData)
  : Prop :=
  match items with
  | [] => True
  | item :: rest =>
      (isBuiltItem item \/ isWrapperOf qs earlier item)
      /\ wrappersFollow qs (earlier ++ [item]) rest
  end.

(** Posts and comments of one file, both with their author, a
    [UserComposite] that nests the author's image. *)
Definition exNestedSharedOptions : Options :=
  {| EmitJsonTags := true;
     EmitResultStructPointers := true;
     OutputModelsPackage := "entity";
     Nested := Some
       {| Composites :=
            [ {| cName := "PostComposite"; cStructRootIn := "Post";
                 cGroup := [groupNode "User" "UserComposite" (Some true) []] |};
              {| cName := "CommentComposite"; cStructRootIn := "Comment";
                 cGroup := [groupNode "User" "UserComposite" (Some true) []] |};
              {| cName := "UserComposite"; cStructRootIn := "User";
                 cGroup := [groupNode "Image" "Image" (Some false) []] |} ];
          Queries :=
            [ {| qcQuery := "GetPosts"; qcFieldGroupBy := "";
                 qcStructRoot := "PostComposite"; qcGroup := [];
                 qcIsComposite := Some true |};
              {| qcQuery := "GetComments"; qcFieldGroupBy := "";
                 qcStructRoot := "CommentComposite"; qcGroup := [];
                 qcIsComposite := Some true |} ] |} |}.

(** The second tree of a run, its first child and that child's first child,
    if the child is skipped. *)
Definition secondTreeSkips (r : option (Res (list NestedSource * Registry)))
  : bool :=
  match builtTrees r with
  | [_; t] =>
      match NestedStructs t with
      | n :: _ =>
          SkipStructGeneration n
          && match NestedStructs n with _ :: _ => true | [] => false end
      | [] => false
      end
  | _ => false
  end.

(** Two configurations for [PostComposite], by two queries, and one for a
    query that does not exist. *)
Definition exWrapperConfigs : list NestedQueryConfig :=
  [ {| qcQuery := "GetPosts"; qcFieldGroupBy := "";
       qcStructRoot := "PostComposite"; qcGroup := [];
       qcIsComposite := Some true |};
    {| qcQuery := "GetOrders"; qcFieldGroupBy := "";
       qcStructRoot := "OrderComposite"; qcGroup := [];
       qcIsComposite := Some true |};
    {| qcQuery := "ListPosts"; qcFieldGroupBy := "";
       qcStructRoot := "PostComposite"; qcGroup := [];
       qcIsComposite := Some true |} ].

Definition exWrapperQueries : list Query :=
  [ {| MethodName := "GetPosts"; SourceName := "posts.sql";
       RetStruct := Some {| sName := "GetPostsRow"; sFields := exRowFields |} |};
    {| MethodName := "ListPosts"; SourceName := "posts.sql";
       RetStruct := Some {| sName := "ListPostsRow"; sFields := exRowFields |} |} ].

Definition exWrapperBuilder : NestedQueryTemplateDataBuilder :=
  {| options := exOptionsN; queries := exWrapperQueries; structs := exStructs;
     nested := [] |}.

(** What the loop of [buildNestedDataItems] keeps in [generatedStructRoots]:
    the query of an item that carries a tree. *)
Definition rootsInvariant (qs : list Query) (roots : gmap string string)
    (items : list NestedQueryTemplateData) : Prop :=
  forall structRoot firstQuery,
    roots !! structRoot = Some firstQuery ->
    exists first,
      In first items /\ is_Some (tRootStructData first)
      /\ findTargetQuery qs firstQuery = Some (tQuery first).

(** ** Field types and query roots *)

(** [isQueryRootComposite] of [internal/nested.go]. *)
Definition isQueryRootComposite (b : NestedQueryTemplateDataBuilder)
    (config : NestedGroupConfig) : bool :=
  if negb (GetIsComposite config) then false
  else
    existsb
      (fun nestedItem =>
         existsb
           (fun nestedConfig =>
              String.eqb (qcStructRoot nestedConfig) (gStructOut config))
           (Configs nestedItem))
      (nested b).

(** The type of the field that holds a node, as its flags spell it: the
    marks of a slice and of a pointer, then the entity of the row field in
    the package [entity], or the output type. *)
Definition fieldTypeOf (n : NestedStructData) : string :=
  (if IsSlice n then "[]" else "")
  +:+ (if IsPointer n then "*" else "")
  +:+ (if IsEntityStruct n then "entity." +:+ RowFieldName n else StructOut n).

Definition typedByFlags (modelsPackage : string) (n : NestedStructData) : Prop :=
  FieldType n = fieldTypeOf n
  /\ RowFieldType n = modelsPackage +:+ "." +:+ RowFieldName n.

(** ** The earlier builder ([nested.go] as it was before composites)

    The file defines [extractFields], [buildNestedStructData],
    [determineKeyType] and [NestedStructData] a second time, for a
    configuration without composites; its definitions are in a module of
    their own.  The configuration types of that version are those its
    functions read: [NestedConfig] with [StructIn], [StructOut], [Field],
    [Slice], [Pointer] and [Nested], and [NestedQueryConfig] with [Query],
    [StructRoot], [Field] and [Group]. *)

Module Legacy.

Inductive NestedConfig := mkNestedConfig {
  nStructIn : string;
  nStructOut : string;
  nField : string;
  nSlice : option bool;
  nPointer : option bool;
  nNested : list NestedConfig
}.

Record NestedQueryConfig := mkNestedQueryConfig {
  lqQuery : string;
  lqStructRoot : string;
  lqField : string;
  lqGroup : list NestedConfig
}.

Record NestedFieldConfig := mkNestedFieldConfig {
  fcName : string;
  fcRowField : string;
  fcType : string;
  fcJsonTag : string
}.

Inductive NestedStructData := mkNestedStructData {
  sdStructIn : string;
  sdStructOut : string;
  sdField : string;
  sdIsSlice : bool;
  sdIsPointer : bool;
  sdFieldName : string;
  sdFields : list NestedFieldConfig;
  sdNested : list NestedStructData
}.

Record NestedArrayField := mkNestedArrayField {
  afName : string;
  afType : string;
  afJsonTag : string;
  afIsSlice : bool;
  afIsPointer : bool
}.

Record NestedStructDefinition := mkNestedStructDefinition {
  defName : string;
  defFields : list NestedFieldConfig;
  defNestedArrays : list NestedArrayField
}.

(** [NestedTemplateData], the fields that [buildNestedTemplateData] sets. *)
Record NestedTemplateData := mkNestedTemplateData {
  tdPackage : string;
  tdFunctionName : string;
  tdQueryName : string;
  tdRootStruct : string;
  tdKeyType : string;
  tdGroupField : string;
  tdEmitJSONTags : bool;
  tdEmitPointers : bool;
  tdNestedStructs : list NestedStructData;
  tdGenerateStructs : list NestedStructDefinition
}.

(** [collectNestedFields]: the contribution of one element of [config], and
    the loop. *)
Fixpoint collectNestedFieldsOf (nested : NestedConfig) : list string :=
  nStructIn nested :: flat_map collectNestedFieldsOf (nNested nested).

Definition collectNestedFields (config : list NestedConfig) : list string :=
  flat_map collectNestedFieldsOf config.

(** [extractJsonTag]. *)
Definition extractJsonTag (ext : Externals) (field : Field) (options : Options)
  : string :=
  match fTags field !! "json" with
  | Some jsonTag => jsonTag
  | None => JSONTagName ext (fDBName field) options
  end.

(** [extractFields]. *)
Fixpoint extractFields (ext : Externals) (structFields : list Field)
    (options : Options) (nestedFields : list string) (rowFieldPrefix : string)
  : list NestedFieldConfig :=
  match structFields with
  | [] => []
  | field :: rest =>
      if existsb (String.eqb (fName field)) nestedFields
      then extractFields ext rest options nestedFields rowFieldPrefix
      else
        let rowField :=
          if negb (String.eqb rowFieldPrefix "")
          then rowFieldPrefix +:+ "." +:+ fName field
          else fName field in
        {| fcName := fName field;
           fcRowField := rowField;
           fcType := fType field;
           fcJsonTag := extractJsonTag ext field options |}
        :: extractFields ext rest options nestedFields rowFieldPrefix
  end.

(** [strings.ToUpper(s[:1]) + s[1:]]; [None] is the panic of slicing the
    empty string. *)
Definition upperFirst (s : string) : option string :=
  match s with
  | EmptyString => None
  | String c r => Some (String (upperChar c) r)
  end.

(** The body shared by [pluralizeWithCase] and [singularizeWithCase], over
    the function of [flect] each of them calls. *)
Definition inflectWithCase (inflect : string -> string) (word : string)
  : option string :=
  match word with
  | EmptyString => Some word
  | String c _ =>
      let inflected := inflect (ToLower word) in
      if isUpperAZ c then upperFirst inflected else Some inflected
  end.

Definition pluralizeWithCase (ext : Externals) (word : string) : option string :=
  inflectWithCase (flectPluralize ext) word.

Definition singularizeWithCase (ext : Externals) (word : string) : option string :=
  inflectWithCase (flectSingularize ext) word.

Definition determineKeyType (field : string) : string := "pgtype.UUID".

(** The fields of the first struct named [structIn], nil when there is
    none. *)
Definition structFieldsOf (structs : list Struct) (structIn : string)
  : list Field :=
  match List.find (fun s => String.eqb (sName s) structIn) structs with
  | Some s => sFields s
  | None => []
  end.

(** A loop that appends [f x] for each [x] of [l]; a panic of [f] ends
    it. *)
Fixpoint appendEach {A B : Type} (f : A -> option B) (l : list A) : option (list B) :=
  match l with
  | [] => Some []
  | x :: rest =>
      match f x with
      | None => None
      | Some y =>
          match appendEach f rest with
          | None => None
          | Some ys => Some (y :: ys)
          end
      end
  end.

(** [buildNestedStructData]; [None] is a panic. *)
Fixpoint buildNestedStructData (ext : Externals) (queryName : string)
    (config : NestedConfig) (structs : list Struct) (options : Options)
  : option NestedStructData :=
  let structOut :=
    if String.eqb (nStructOut config) ""
    then queryName +:+ nStructIn config +:+ "Group"
    else nStructOut config in
  let field := if String.eqb (nField config) "" then "ID" else nField config in
  let isSlice := match nSlice config with Some v => v | None => true end in
  let isPointer := match nPointer config with Some v => v | None => true end in
  match (if isSlice then pluralizeWithCase ext (nStructIn config)
         else singularizeWithCase ext (nStructIn config)) with
  | None => None
  | Some fieldName =>
      let nestedFields := collectNestedFields (nNested config) in
      let structFields := structFieldsOf structs (nStructIn config) in
      let fields :=
        extractFields ext structFields options nestedFields (nStructIn config) in
      match appendEach (fun nested =>
                    buildNestedStructData ext queryName nested structs options)
                 (nNested config) with
      | None => None
      | Some nestedStructs =>
          Some {| sdStructIn := nStructIn config;
                  sdStructOut := structOut;
                  sdField := field;
                  sdIsSlice := isSlice;
                  sdIsPointer := isPointer;
                  sdFieldName := fieldName;
                  sdFields := fields;
                  sdNested := nestedStructs |}
      end
  end.

(** The type of a field that holds [structOut]: a slice or not, of pointers
    or not. *)
Definition arrayType (isSlice isPointer : bool) (structOut : string) : string :=
  if isSlice then
    if isPointer then "[]*" +:+ structOut else "[]" +:+ structOut
  else
    if isPointer then "*" +:+ structOut else structOut.

(** The field of a parent for a child, as both [buildNestedArrayFields] and
    [buildAllNestedStructDefinitions] make it. *)
Definition arrayFieldFor (ext : Externals) (structIn structOut : string)
    (isSlice isPointer : bool) : option NestedArrayField :=
  match (if isSlice then pluralizeWithCase ext structIn
         else singularizeWithCase ext structIn) with
  | None => None
  | Some fieldName =>
      Some {| afName := fieldName;
              afType := arrayType isSlice isPointer structOut;
              afJsonTag := ToLower fieldName;
              afIsSlice := isSlice;
              afIsPointer := isPointer |}
  end.

(** [buildNestedArrayFields]. *)
Definition buildNestedArrayFields (ext : Externals) (nested : list NestedConfig)
  : option (list NestedArrayField) :=
  appendEach (fun n =>
          let structOut :=
            if String.eqb (nStructOut n) "" then nStructIn n +:+ "Group"
            else nStructOut n in
          let isSlice := match nSlice n with Some v => v | None => true end in
          let isPointer := match nPointer n with Some v => v | None => true end in
          arrayFieldFor ext (nStructIn n) structOut isSlice isPointer)
       nested.

(** [buildAllNestedStructDefinitions]: the definitions for one element of
    [nestedStructs] and for what lies below it, and the loop. *)
Fixpoint buildDefinitionsOf (ext : Externals) (nested : NestedStructData)
  : option (list NestedStructDefinition) :=
  match appendEach (fun childNested =>
                arrayFieldFor ext (sdStructIn childNested)
                  (sdStructOut childNested) (sdIsSlice childNested)
                  (sdIsPointer childNested))
             (sdNested nested) with
  | None => None
  | Some nestedArrays =>
      match appendEach (buildDefinitionsOf ext) (sdNested nested) with
      | None => None
      | Some below =>
          Some ({| defName := sdStructOut nested;
                   defFields := sdFields nested;
                   defNestedArrays := nestedArrays |} :: concat below)
      end
  end.

Definition buildAllNestedStructDefinitions (ext : Externals)
    (nestedStructs : list NestedStructData)
  : option (list NestedStructDefinition) :=
  match appendEach (buildDefinitionsOf ext) nestedStructs with
  | None => None
  | Some definitions => Some (concat definitions)
  end.

(** [buildNestedTemplateData]; [package] is the option [Package].  The
    function also works out whether a struct uses a type of the models
    package and drops the answer; that part has no counterpart here. *)
Definition buildNestedTemplateData (ext : Externals) (options : Options)
    (package : string) (query : Query) (config : NestedQueryConfig)
    (structs : list Struct) : option NestedTemplateData :=
  let queryName :=
    if String.eqb (MethodName query) "" then SourceName query
    else MethodName query in
  let rootStruct :=
    if String.eqb (lqStructRoot config) "" then queryName +:+ "Group"
    else lqStructRoot config in
  let functionName := "Group" +:+ queryName in
  let rootField := if String.eqb (lqField config) "" then "ID" else lqField config in
  match appendEach (fun nested =>
                buildNestedStructData ext queryName nested structs options)
             (lqGroup config) with
  | None => None
  | Some nestedStructs =>
      let nestedFields := collectNestedFields (lqGroup config) in
      let rootRowFields :=
        match RetStruct query with
        | Some st => sFields st
        | None => []
        end in
      let rootFields := extractFields ext rootRowFields options nestedFields "" in
      match buildNestedArrayFields ext (lqGroup config) with
      | None => None
      | Some rootArrays =>
          match buildAllNestedStructDefinitions ext nestedStructs with
          | None => None
          | Some definitions =>
              Some {| tdPackage := package;
                      tdFunctionName := functionName;
                      tdQueryName := queryName;
                      tdRootStruct := rootStruct;
                      tdKeyType := determineKeyType rootField;
                      tdGroupField := rootField;
                      tdEmitJSONTags := EmitJsonTags options;
                      tdEmitPointers := EmitResultStructPointers options;
                      tdNestedStructs := nestedStructs;
                      tdGenerateStructs :=
                        {| defName := rootStruct;
                           defFields := rootFields;
                           defNestedArrays := rootArrays |} :: definitions |}
          end
      end
  end.

(** The output names of a tree, a node before what lies below it. *)
Fixpoint structOuts (nested : NestedStructData) : list string :=
  sdStructOut nested :: flat_map structOuts (sdNested nested).

(** The output names a configuration asks for under the query [queryName],
    a node before what lies below it. *)
Fixpoint configOuts (queryName : string) (config : NestedConfig) : list string :=
  (if String.eqb (nStructOut config) ""
   then queryName +:+ nStructIn config +:+ "Group"
   else nStructOut config)
  :: flat_map (configOuts queryName) (nNested config).

(** [flect] gives a word for a word. *)
Definition inflectsWords (ext : Externals) : Prop :=
  forall s, s <> "" -> flectPluralize ext s <> "" /\ flectSingularize ext s <> "".

End Legacy.

(** Authors with their books, the books with their reviews; no output name
    is configured. *)
Definition exLegacyConfig : Legacy.NestedQueryConfig :=
  {| Legacy.lqQuery := "GetAuthors"; Legacy.lqStructRoot := "";
     Legacy.lqField := "";
     Legacy.lqGroup :=
       [ {| Legacy.nStructIn := "Book"; Legacy.nStructOut := "";
            Legacy.nField := ""; Legacy.nSlice := None; Legacy.nPointer := None;
            Legacy.nNested :=
              [ {| Legacy.nStructIn := "Review"; Legacy.nStructOut := "";
                   Legacy.nField := ""; Legacy.nSlice := None;
                   Legacy.nPointer := None; Legacy.nNested := [] |} ] |} ] |}.

Definition exLegacyQuery : Query :=
  {| MethodName := "GetAuthors"; SourceName := "authors.sql";
     RetStruct := Some {| sName := "GetAuthorsRow";
                          sFields := [fld "ID" "pgtype.UUID"; fld "Name" "string";
                                      fld "Book" "Book"; fld "Review" "Review"] |} |}.

Definition exLegacyStructs : list Struct :=
  [ {| sName := "Book"; sFields := [fld "ID" "pgtype.UUID"; fld "Title" "string"] |};
    {| sName := "Review"; sFields := [fld "ID" "pgtype.UUID"; fld "Rating" "int32"] |} ].

(** * Properties *)

(** ** Naming *)

Section Naming.

Local Ltac all_ascii :=
  let c := fresh "c" in
  intros c; destruct c as [[|] [|] [|] [|] [|] [|] [|] [|]];
  vm_compute; intros; try discriminate; try reflexivity; auto.

Lemma lower_not_upper : forall c, isLowerAZ c = true -> isUpperAZ c = false.
Proof. all_ascii. Qed.

Lemma wordChar_not_upper : forall c, isWordChar c = true -> isUpperAZ c = false.
Proof. all_ascii. Qed.

Lemma wordChar_lower : forall c, isWordChar c = true -> lowerChar c = c.
Proof. all_ascii. Qed.

Lemma wordChar_not_underscore :
  forall c, isWordChar c = true -> Ascii.eqb c underscore = false.
Proof. all_ascii. Qed.

Lemma upper_wordChar_not_underscore :
  forall c, isWordChar c = true -> Ascii.eqb (upperChar c) underscore = false.
Proof. all_ascii. Qed.

Lemma lower_upper_wordChar :
  forall c, isWordChar c = true -> lowerChar (upperChar c) = c.
Proof. all_ascii. Qed.

Lemma upper_of_lower_isUpper :
  forall c, isLowerAZ c = true -> isUpperAZ (upperChar c) = true.
Proof. all_ascii. Qed.

Lemma lower_isWordChar : forall c, isLowerAZ c = true -> isWordChar c = true.
Proof. intros c H. unfold isWordChar. now rewrite H. Qed.


Lemma append_cons (x : ascii) (a b : string) :
  String x a +:+ b = String x (a +:+ b).
Proof. reflexivity. Qed.

Lemma append_nil_l (b : string) : "" +:+ b = b.
Proof. reflexivity. Qed.

Local Ltac app_simpl :=
  repeat match goal with
    | |- context [String ?x ?a +:+ ?b] =>
        change (String x a +:+ b) with (String x (a +:+ b))
    | |- context [EmptyString +:+ ?b] => change (EmptyString +:+ b) with b
    end.
Local Ltac ssimpl := app_simpl; simpl; app_simpl.

Lemma append_assoc (a b c : string) : (a +:+ b) +:+ c = a +:+ (b +:+ c).
Proof. induction a as [|x a IH]; ssimpl; [reflexivity | now f_equal]. Qed.

Lemma append_empty_r (a : string) : a +:+ "" = a.
Proof. induction a as [|x a IH]; ssimpl; [reflexivity | now f_equal]. Qed.

Lemma ToLower_app (a b : string) : ToLower (a +:+ b) = ToLower a +:+ ToLower b.
Proof. induction a as [|x a IH]; ssimpl; [reflexivity | now f_equal]. Qed.

Lemma ToLower_word_chars (s : string) :
  allChars isWordChar s = true -> ToLower s = s.
Proof.
  induction s as [|c s IH]; simpl; [reflexivity|].
  intros [Hc Hs]%andb_prop. now rewrite (wordChar_lower c Hc), IH.
Qed.

Lemma ToLower_ToUpper_word_chars (s : string) :
  allChars isWordChar s = true -> ToLower (ToUpper s) = s.
Proof.
  induction s as [|c s IH]; simpl; [reflexivity|].
  intros [Hc Hs]%andb_prop. now rewrite (lower_upper_wordChar c Hc), IH.
Qed.

Lemma containsUnderscore_app (a b : string) :
  containsUnderscore (a +:+ b) = containsUnderscore a || containsUnderscore b.
Proof.
  induction a as [|x a IH]; ssimpl; [reflexivity|].
  destruct (Ascii.eqb x underscore); [reflexivity | exact IH].
Qed.

Lemma containsUnderscore_word_chars (s : string) :
  allChars isWordChar s = true -> containsUnderscore s = false.
Proof.
  induction s as [|c s IH]; simpl; [reflexivity|].
  intros [Hc Hs]%andb_prop. now rewrite (wordChar_not_underscore c Hc), IH.
Qed.

Lemma containsUnderscore_ToUpper_word_chars (s : string) :
  allChars isWordChar s = true -> containsUnderscore (ToUpper s) = false.
Proof.
  induction s as [|c s IH]; simpl; [reflexivity|].
  intros [Hc Hs]%andb_prop.
  now rewrite (upper_wordChar_not_underscore c Hc), IH.
Qed.

Lemma isWord_chars (w : string) : isWord w = true -> allChars isWordChar w = true.
Proof.
  destruct w as [|c r]; simpl; [discriminate|].
  intros [Hc Hr]%andb_prop. now rewrite (lower_isWordChar c Hc), Hr.
Qed.

(** *** Splitting and joining *)

Lemma splitUnderscore_cons (s : string) : exists p ps, splitUnderscore s = p :: ps.
Proof.
  induction s as [|c s (p & ps & IH)]; simpl; [now eauto|].
  destruct (Ascii.eqb c underscore); [now eauto|]. rewrite IH. now eauto.
Qed.

Lemma splitUnderscore_no_underscore (w : string) :
  containsUnderscore w = false -> splitUnderscore w = [w].
Proof.
  induction w as [|c w IH]; simpl; [reflexivity|].
  destruct (Ascii.eqb c underscore); [discriminate|].
  intros H. now rewrite (IH H).
Qed.

Lemma splitUnderscore_app (w s : string) :
  containsUnderscore w = false ->
  splitUnderscore (w +:+ String underscore s) = w :: splitUnderscore s.
Proof.
  induction w as [|c w IH]; ssimpl; [reflexivity|].
  destruct (Ascii.eqb c underscore); [discriminate|].
  intros H. now rewrite (IH H).
Qed.

Lemma splitUnderscore_Join (parts : list string) :
  parts <> [] ->
  Forall (fun p => containsUnderscore p = false) parts ->
  splitUnderscore (Join parts "_") = parts.
Proof.
  induction parts as [|p ps IH]; [congruence|].
  intros _ Hall. inversion Hall as [|? ? Hp Hps]; subst.
  destruct ps as [|q qs].
  - simpl. now apply splitUnderscore_no_underscore.
  - change (Join (p :: q :: qs) "_")
      with (p +:+ String underscore (Join (q :: qs) "_")).
    rewrite splitUnderscore_app by exact Hp.
    now rewrite IH.
Qed.

Lemma Join_no_upper_underscore (parts : list string) :
  Forall (fun p => allChars isWordChar p = true) parts ->
  allChars (fun c => negb (isUpperAZ c)) (Join parts "_") = true.
Proof.
  induction parts as [|p ps IH]; [reflexivity|].
  intros Hall. inversion Hall as [|? ? Hp Hps]; subst. specialize (IH Hps).
  assert (Happ : forall a b, allChars (fun c => negb (isUpperAZ c)) a = true ->
                             allChars (fun c => negb (isUpperAZ c)) b = true ->
                             allChars (fun c => negb (isUpperAZ c)) (a +:+ b) = true).
  { induction a as [|x a IHa]; intros b0; ssimpl; [auto|].
    intros [Hx Ha]%andb_prop Hb. now rewrite Hx, IHa. }
  assert (Hp' : allChars (fun c => negb (isUpperAZ c)) p = true).
  { clear -Hp. induction p as [|c p IHp]; simpl in *; [reflexivity|].
    apply andb_prop in Hp as [Hc Hp].
    now rewrite (wordChar_not_upper c Hc), IHp. }
  destruct ps as [|q qs]; [exact Hp'|].
  change (Join (p :: q :: qs) "_")
    with (p +:+ String underscore (Join (q :: qs) "_")).
  apply Happ; [exact Hp'|]. simpl. exact IH.
Qed.

(** *** The camel-case pattern *)

Lemma namingCamelReplace_cons2 (c d : ascii) (r : string) :
  namingCamelReplace (String c (String d r))
  = if negb (isUpperAZ c) && isUpperAZ d
    then String c (String underscore (namingCamelReplace (String d r)))
    else String c (namingCamelReplace (String d r)).
Proof. reflexivity. Qed.

Lemma namingCamelReplace_no_upper (s : string) :
  allChars (fun c => negb (isUpperAZ c)) s = true -> namingCamelReplace s = s.
Proof.
  induction s as [|c s IH]; [reflexivity|].
  intros H. simpl in H. apply andb_prop in H as [Hc Hs].
  specialize (IH Hs).
  destruct s as [|d s']; [reflexivity|].
  rewrite namingCamelReplace_cons2.
  simpl in Hs. apply andb_prop in Hs as [Hd _].
  apply negb_true_iff in Hd. rewrite Hd, andb_false_r.
  now rewrite IH.
Qed.

Lemma namingCamelReplace_upper_cons (u : ascii) (r : string) :
  isUpperAZ u = true -> namingCamelReplace (String u r) = String u (namingCamelReplace r).
Proof.
  intros Hu. destruct r as [|d r']; [reflexivity|].
  rewrite namingCamelReplace_cons2. now rewrite Hu.
Qed.

Lemma namingCamelReplace_boundary (r t : string) (d : ascii) :
  r <> "" -> allChars (fun c => negb (isUpperAZ c)) r = true ->
  isUpperAZ d = true ->
  namingCamelReplace (r +:+ String d t)
  = r +:+ String underscore (namingCamelReplace (String d t)).
Proof.
  intros Hne Hr Hd. induction r as [|c r IH]; [congruence|].
  simpl in Hr. apply andb_prop in Hr as [Hc Hr]. apply negb_true_iff in Hc.
  destruct r as [|c' r'].
  - app_simpl. rewrite namingCamelReplace_cons2. now rewrite Hc, Hd.
  - app_simpl. rewrite namingCamelReplace_cons2.
    pose proof Hr as Hr'. simpl in Hr'. apply andb_prop in Hr' as [Hc' _].
    apply negb_true_iff in Hc'. rewrite Hc', andb_false_r.
    f_equal. change (String c' (r' +:+ String d t)) with (String c' r' +:+ String d t).
    now apply IH.
Qed.

Lemma wordChars_no_upper (r : string) :
  allChars isWordChar r = true -> allChars (fun c => negb (isUpperAZ c)) r = true.
Proof.
  induction r as [|c r IH]; simpl; [reflexivity|].
  intros [Hc Hr]%andb_prop. now rewrite (wordChar_not_upper c Hc), IH.
Qed.

Lemma ToLower_no_upper (s : string) :
  allChars (fun c => negb (isUpperAZ c)) s = true -> ToLower s = s.
Proof.
  induction s as [|c s IH]; simpl; [reflexivity|].
  intros [Hc Hs]%andb_prop. apply negb_true_iff in Hc.
  unfold lowerChar. now rewrite Hc, IH.
Qed.

Lemma commonInitialisms_fixed (s : string) :
  commonInitialisms s = true -> namingCamelReplace s = s.
Proof.
  unfold commonInitialisms. intros H. apply existsb_exists in H as (i & Hin & Heq).
  apply String.eqb_eq in Heq. subst i.
  assert (Hall : forallb (fun i => String.eqb (namingCamelReplace i) i)
                         commonInitialismsList = true) by (vm_compute; reflexivity).
  rewrite forallb_forall in Hall. apply String.eqb_eq. now apply Hall.
Qed.

(** *** One part *)

Lemma pascalPart_inner (c : ascii) (r : string) :
  isInnerWord (String c r) = true -> pascalPart (String c r) = String (upperChar c) r.
Proof.
  unfold isInnerWord. intros [[Hw _]%andb_prop Hni]%andb_prop.
  apply negb_true_iff in Hni. unfold pascalPart. rewrite Hni.
  simpl in Hw. apply andb_prop in Hw as [_ Hr].
  now rewrite (ToLower_word_chars r Hr).
Qed.

Lemma pascalPart_head (w : string) :
  isWord w = true ->
  exists d s, pascalPart w = String d s /\ isUpperAZ d = true.
Proof.
  destruct w as [|c r]; simpl; [discriminate|].
  intros [Hc _]%andb_prop.
  destruct (commonInitialisms _); eexists _, _; (split; [reflexivity|]);
    now apply upper_of_lower_isUpper.
Qed.

Lemma pascalPart_fixed (w : string) :
  isWord w = true -> namingCamelReplace (pascalPart w) = pascalPart w.
Proof.
  destruct w as [|c r]; [discriminate|]. intros Hw.
  unfold pascalPart. destruct (commonInitialisms _) eqn:Hi.
  - now apply commonInitialisms_fixed.
  - simpl in Hw. apply andb_prop in Hw as [Hc Hr].
    rewrite (ToLower_word_chars r Hr).
    rewrite namingCamelReplace_upper_cons by now apply upper_of_lower_isUpper.
    now rewrite namingCamelReplace_no_upper by now apply wordChars_no_upper.
Qed.

Lemma ToLower_pascalPart (w : string) : isWord w = true -> ToLower (pascalPart w) = w.
Proof.
  intros Hw. pose proof (isWord_chars w Hw) as Hch.
  destruct w as [|c r]; [discriminate|].
  unfold pascalPart. destruct (commonInitialisms _).
  - now apply ToLower_ToUpper_word_chars.
  - simpl in Hch. apply andb_prop in Hch as [Hc Hr]. simpl.
    now rewrite (lower_upper_wordChar c Hc), !(ToLower_word_chars r Hr).
Qed.

Lemma containsUnderscore_pascalPart (w : string) :
  isWord w = true -> containsUnderscore (pascalPart w) = false.
Proof.
  intros Hw. pose proof (isWord_chars w Hw) as Hch.
  destruct w as [|c r]; [discriminate|].
  unfold pascalPart. destruct (commonInitialisms _).
  - now apply containsUnderscore_ToUpper_word_chars.
  - simpl in Hch. apply andb_prop in Hch as [Hc Hr]. simpl.
    rewrite (upper_wordChar_not_underscore c Hc), (ToLower_word_chars r Hr).
    now apply containsUnderscore_word_chars.
Qed.

(** *** All parts *)

Lemma isInnerWord_isWord (w : string) : isInnerWord w = true -> isWord w = true.
Proof. unfold isInnerWord. now intros [[H _]%andb_prop _]%andb_prop. Qed.

Lemma isSnakeWords_cons (w : string) (rest : list string) :
  isSnakeWords (w :: rest) = true ->
  isWord w = true /\ (rest = [] \/ (isInnerWord w = true /\ isSnakeWords rest = true)).
Proof.
  destruct rest as [|q qs]; simpl.
  - intros H. now split; [|left].
  - intros [Hi Hr]%andb_prop. split; [now apply isInnerWord_isWord|right; now split].
Qed.

Lemma isSnakeWords_Forall (parts : list string) :
  isSnakeWords parts = true -> Forall (fun p => isWord p = true) parts.
Proof.
  induction parts as [|w rest IH]; [constructor|].
  intros H. apply isSnakeWords_cons in H as [Hw [-> | [_ Hr]]]; constructor; auto.
Qed.

Lemma pascalConcat_fold (parts : list string) (acc : string) :
  fold_left (fun result part => result +:+ pascalPart part) parts acc
  = acc +:+ pascalConcat parts.
Proof.
  revert acc. induction parts as [|p ps IH]; intros acc; simpl.
  - now rewrite append_empty_r.
  - now rewrite IH, append_assoc.
Qed.

Lemma pascalConcat_head (parts : list string) :
  isSnakeWords parts = true ->
  exists d s, pascalConcat parts = String d s /\ isUpperAZ d = true.
Proof.
  destruct parts as [|w rest]; [discriminate|].
  intros H. apply isSnakeWords_cons in H as [Hw _].
  destruct (pascalPart_head w Hw) as (d & s & Heq & Hd).
  exists d, (s +:+ pascalConcat rest). split; [|exact Hd].
  cbn [pascalConcat]. now rewrite Heq.
Qed.

Lemma containsUnderscore_pascalConcat (parts : list string) :
  Forall (fun p => isWord p = true) parts ->
  containsUnderscore (pascalConcat parts) = false.
Proof.
  induction 1 as [|w rest Hw _ IH]; [reflexivity|].
  cbn [pascalConcat]. rewrite containsUnderscore_app, IH.
  now rewrite containsUnderscore_pascalPart.
Qed.

(** The regular expression finds the words of a converted identifier again. *)
Lemma PascalToSnakeCase_pascalConcat (parts : list string) :
  isSnakeWords parts = true ->
  ToLower (namingCamelReplace (pascalConcat parts)) = Join parts "_".
Proof.
  induction parts as [|w rest IH]; [discriminate|].
  intros H. pose proof H as H0.
  apply isSnakeWords_cons in H as [Hw [-> | [Hi Hr]]].
  - cbn [pascalConcat Join]. rewrite append_empty_r.
    rewrite pascalPart_fixed by exact Hw. now apply ToLower_pascalPart.
  - specialize (IH Hr).
    destruct (pascalConcat_head rest Hr) as (d & s & Hrest & Hd).
    destruct rest as [|q qs]; [discriminate|].
    change (Join (w :: q :: qs) "_")
      with (w +:+ String underscore (Join (q :: qs) "_")).
    cbn [pascalConcat] in *. fold (pascalConcat qs) in *.
    destruct w as [|c r]; [discriminate|].
    rewrite (pascalPart_inner c r Hi).
    unfold isInnerWord in Hi. apply andb_prop in Hi as [[Hcr Hlen]%andb_prop _].
    simpl in Hcr. apply andb_prop in Hcr as [Hc Hrw].
    assert (Hne : r <> "").
    { destruct r; [simpl in Hlen; discriminate | discriminate]. }
    app_simpl.
    rewrite namingCamelReplace_upper_cons by now apply upper_of_lower_isUpper.
    rewrite Hrest in *.
    rewrite namingCamelReplace_boundary; auto using wordChars_no_upper.
    cbn [ToLower]. rewrite ToLower_app. cbn [ToLower].
    rewrite IH.
    rewrite (lower_upper_wordChar c (lower_isWordChar c Hc)).
    rewrite (ToLower_word_chars r Hrw).
    reflexivity.
Qed.

(** *** The conversion on snake-case identifiers *)

Lemma Join_snake_nonempty (parts : list string) :
  isSnakeWords parts = true -> String.eqb (Join parts "_") "" = false.
Proof.
  destruct parts as [|w rest]; [discriminate|].
  intros H. apply isSnakeWords_cons in H as [Hw _].
  destruct w as [|c r]; [discriminate|].
  destruct rest; reflexivity.
Qed.

Lemma ToPascalCaseWithInitialisms_snake (parts : list string) :
  isSnakeWords parts = true ->
  ToPascalCaseWithInitialisms (Join parts "_") = pascalConcat parts.
Proof.
  intros H. pose proof (isSnakeWords_Forall parts H) as Hall.
  unfold ToPascalCaseWithInitialisms. rewrite (Join_snake_nonempty parts H).
  assert (Hnu : allChars (fun c => negb (isUpperAZ c)) (Join parts "_") = true).
  { apply Join_no_upper_underscore.
    eapply Forall_impl; [exact Hall|]. intros p Hp. now apply isWord_chars. }
  assert (Hsnake : (if containsUnderscore (Join parts "_") then Join parts "_"
                    else PascalToSnakeCase (Join parts "_")) = Join parts "_").
  { destruct (containsUnderscore _); [reflexivity|].
    unfold PascalToSnakeCase. rewrite (Join_snake_nonempty parts H).
    now rewrite namingCamelReplace_no_upper, ToLower_no_upper. }
  cbv zeta. rewrite Hsnake.
  rewrite splitUnderscore_Join.
  - now rewrite pascalConcat_fold.
  - destruct parts; [discriminate | congruence].
  - eapply Forall_impl; [exact Hall|]. intros p Hp.
    now apply containsUnderscore_word_chars, isWord_chars.
Qed.

Lemma ToPascalCaseWithInitialisms_pascalConcat (parts : list string) :
  isSnakeWords parts = true ->
  ToPascalCaseWithInitialisms (pascalConcat parts) = pascalConcat parts.
Proof.
  intros H. pose proof (isSnakeWords_Forall parts H) as Hall.
  destruct (pascalConcat_head parts H) as (d & s & Heq & Hd).
  unfold ToPascalCaseWithInitialisms.
  assert (Hne : String.eqb (pascalConcat parts) "" = false) by now rewrite Heq.
  rewrite Hne, (containsUnderscore_pascalConcat parts Hall).
  unfold PascalToSnakeCase. rewrite Hne.
  rewrite (PascalToSnakeCase_pascalConcat parts H).
  cbv zeta. rewrite splitUnderscore_Join.
  - now rewrite pascalConcat_fold.
  - destruct parts; [discriminate | congruence].
  - eapply Forall_impl; [exact Hall|]. intros p Hp.
    now apply containsUnderscore_word_chars, isWord_chars.
Qed.

(** C9 (as amended).  On a snake-case identifier, whose words are lower-case
    letters and digits starting with a letter and are joined by single
    underscores, and in which every word but the last has two characters at
    least and is not a common initialism, the conversion is idempotent. *)
Theorem ToPascalCaseWithInitialisms_idempotent_on_snake (parts : list string) :
  isSnakeWords parts = true ->
  ToPascalCaseWithInitialisms (ToPascalCaseWithInitialisms (Join parts "_"))
  = ToPascalCaseWithInitialisms (Join parts "_").
Proof.
  intros H. rewrite (ToPascalCaseWithInitialisms_snake parts H).
  now apply ToPascalCaseWithInitialisms_pascalConcat.
Qed.

Lemma ToPascalCaseWithInitialisms_idempotent_on_snake_witness :
  isSnakeWords ["user"; "profile"; "id"] = true
  /\ ToPascalCaseWithInitialisms (ToPascalCaseWithInitialisms "user_profile_id")
     = ToPascalCaseWithInitialisms "user_profile_id".
Proof.
  split; [reflexivity|].
  exact (ToPascalCaseWithInitialisms_idempotent_on_snake
           ["user"; "profile"; "id"] eq_refl).
Defined.

(** C9 (as stated) fails: an initialism followed by another word is not found
    again by the camel-case pattern. *)
Lemma ToPascalCaseWithInitialisms_not_idempotent :
  ToPascalCaseWithInitialisms (ToPascalCaseWithInitialisms "api_key")
  <> ToPascalCaseWithInitialisms "api_key".
Proof. vm_compute. discriminate. Qed.

Example ToPascalCase_api_key :
  ToPascalCaseWithInitialisms "api_key" = "APIKey"
  /\ ToPascalCaseWithInitialisms "APIKey" = "Apikey".
Proof. split; reflexivity. Qed.

End Naming.

(** ** Trees *)

(** Induction on a tree, with the property available for the children. *)
Lemma NestedStructData_tree_ind (P : NestedStructData -> Prop) :
  (forall t, Forall P (NestedStructs t) -> P t) -> forall t, P t.
Proof.
  intros H. fix IH 1. intros t. apply H.
  destruct t as [? ? ? ? ? ? ? ? ? ? ? ? ? ? ? ? ? ? children ? ?]. simpl.
  induction children as [|c cs IHcs]; constructor; [apply IH | exact IHcs].
Qed.

Lemma NestedGroupConfig_tree_ind (P : NestedGroupConfig -> Prop) :
  (forall c, Forall P (gGroup c) -> P c) -> forall c, P c.
Proof.
  intros H. fix IH 1. intros c. apply H.
  destruct c as [? ? ? ? ? ? ? children ?]. simpl.
  induction children as [|c cs IHcs]; constructor; [apply IH | exact IHcs].
Qed.

Lemma allNodes_unfold (t : NestedStructData) :
  allNodes t = t :: flat_map allNodes (NestedStructs t).
Proof. destruct t; reflexivity. Qed.

Lemma updateDuplicates_unfold (current : NestedStructData)
    (ancestors : list NestedStructData) :
  updateDuplicatesFromNodePerspective current ancestors
  = setNestedStructs current
      (map (fun nestedStruct =>
              setDuplicatedRelativeToParents
                (updateDuplicatesFromNodePerspective nestedStruct
                   (ancestors ++ [current]))
                (duplicatedAtLevels nestedStruct (ancestors ++ [current])
                   (DuplicatedRelativeToParents nestedStruct)))
           (NestedStructs current)).
Proof. destruct current; reflexivity. Qed.

Lemma shallow_setDuplicated (t : NestedStructData) (d : gmap nat bool) :
  shallow (setDuplicatedRelativeToParents t d) = shallow t.
Proof. reflexivity. Qed.

Lemma shallow_setNestedStructs (t : NestedStructData) l :
  shallow (setNestedStructs t l) = shallow t.
Proof. reflexivity. Qed.

Lemma shallow_updateDuplicates (t : NestedStructData) anc :
  shallow (updateDuplicatesFromNodePerspective t anc) = shallow t.
Proof. rewrite updateDuplicates_unfold. reflexivity. Qed.

(** Updating the duplicate flags changes nothing else: node by node, the
    updated tree agrees with the tree it was computed from. *)
Lemma allNodes_updateDuplicates (t : NestedStructData) :
  forall anc,
    Forall2 sameNode (allNodes t)
            (allNodes (updateDuplicatesFromNodePerspective t anc)).
Proof.
  induction t as [t IH] using NestedStructData_tree_ind. intros anc.
  rewrite updateDuplicates_unfold.
  set (g := fun nestedStruct : NestedStructData => _).
  rewrite (allNodes_unfold t), (allNodes_unfold (setNestedStructs t _)).
  change (NestedStructs (setNestedStructs t (map g (NestedStructs t))))
    with (map g (NestedStructs t)).
  constructor.
  - split; [reflexivity|].
    change (NestedStructs (setNestedStructs t (map g (NestedStructs t))))
      with (map g (NestedStructs t)).
    rewrite map_map. apply map_ext. intros c. unfold g.
    now rewrite shallow_setDuplicated, shallow_updateDuplicates.
  - induction (NestedStructs t) as [|c cs IHcs]; [constructor|].
    inversion IH as [|? ? Hc Hcs]; subst. cbn [flat_map map].
    apply Forall2_app; [|now apply IHcs].
    unfold g at 1.
    specialize (Hc (anc ++ [t])).
    rewrite (allNodes_unfold c) in Hc |- *.
    rewrite allNodes_unfold in Hc.
    rewrite (allNodes_unfold (setDuplicatedRelativeToParents _ _)).
    inversion Hc as [|? ? ? ? Hhd Htl]; subst.
    constructor; [|exact Htl].
    destruct Hhd as [Hs Hm]. split; [exact Hs | exact Hm].
Qed.

(** ** Inversion of the builder *)

Lemma buildNestedStructsListWith_Ok build b group reg l reg' :
  buildNestedStructsListWith build b group reg = Some (Ok (l, reg')) ->
  match group with
  | [] => l = [] /\ reg' = reg
  | nestedCfg :: rest =>
      exists t reg1 l',
        build nestedCfg (structFieldsFor b (gStructIn nestedCfg)) reg
        = Some (Ok (t, reg1))
        /\ buildNestedStructsListWith build b rest reg1 = Some (Ok (l', reg'))
        /\ l = t :: l'
  end.
Proof.
  destruct group as [|nestedCfg rest]; simpl.
  - intros [= <- <-]. now split.
  - intros H.
    destruct (build nestedCfg _ reg) as [[[t reg1]| |]|] eqn:Hb;
      try discriminate.
    destruct (buildNestedStructsListWith build b rest reg1)
      as [[[l' reg2]| |]|] eqn:Hl; try discriminate.
    injection H as <- <-. exists t, reg1, l'. now repeat split.
Qed.

Lemma buildNestedStructData_Ok ext b fuel queryName config parent structFields
    reg t reg' :
  buildNestedStructData ext b fuel queryName config parent structFields reg
  = Some (Ok (t, reg')) ->
  exists fuel' nestedConfigs structIn isAlreadyGenerated reg1 rowFieldExists
         nestedStructs,
    fuel = S fuel'
    /\ compositeTarget reg config = Some (nestedConfigs, structIn)
    /\ IsCompositeStructAlreadyGenerated reg config = Some isAlreadyGenerated
    /\ markAlreadyGenerated reg config (isRootOf parent)
         (IsCompositeStructWillBeGeneratedInAnotherFile b config)
         (parentSkipsOf parent) = Some reg1
    /\ isRowFieldExistsInQuery b queryName config = Some rowFieldExists
    /\ buildNestedStructsList ext b fuel' queryName
         (builtNode ext b config parent structFields reg structIn
            isAlreadyGenerated rowFieldExists)
         nestedConfigs reg1 = Some (Ok (nestedStructs, reg'))
    /\ (isRootOf parent = true ->
        validateExtractedFields ext reg'
          (getNonNestedStructFields reg structFields [config]) nestedStructs
          (structs b) (gStructOut config) = None)
    /\ t = updateDuplicatesFromNodePerspective
             (setNestedStructs
                (builtNode ext b config parent structFields reg structIn
                   isAlreadyGenerated rowFieldExists)
                nestedStructs) [].
Proof.
  destruct fuel as [|fuel']; [discriminate|].
  cbn [buildNestedStructData]. intros H.
  destruct (getQueryByName b queryName) as [query|]; [|discriminate].
  destruct (compositeTarget reg config) as [[nestedConfigs structIn]|];
    [|discriminate].
  destruct (IsCompositeStructAlreadyGenerated reg config)
    as [isAlreadyGenerated|]; [|discriminate].
  fold (isRootOf parent) in H. fold (parentSkipsOf parent) in H.
  destruct (markAlreadyGenerated reg config (isRootOf parent) _ _)
    as [reg1|] eqn:Hmark; [|discriminate].
  destruct (isRowFieldExistsInQuery b queryName config)
    as [rowFieldExists|]; [|discriminate].
  fold (skipOf b config parent isAlreadyGenerated) in H.
  fold (builtNode ext b config parent structFields reg structIn
          isAlreadyGenerated rowFieldExists) in H.
  fold (buildNestedStructsList ext b fuel' queryName
          (builtNode ext b config parent structFields reg structIn
             isAlreadyGenerated rowFieldExists) nestedConfigs reg1) in H.
  destruct (buildNestedStructsList _ _ _ _ _ _ _)
    as [[[nestedStructs reg2]| |]|] eqn:Hlist; try discriminate.
  destruct (isRootOf parent) eqn:Hroot.
  - destruct (validateExtractedFields _ _ _ _ _ _) eqn:Hval; [discriminate|].
    injection H as <- <-.
    exists fuel', nestedConfigs, structIn, isAlreadyGenerated, reg1,
      rowFieldExists, nestedStructs.
    repeat split; auto.
  - injection H as <- <-.
    exists fuel', nestedConfigs, structIn, isAlreadyGenerated, reg1,
      rowFieldExists, nestedStructs.
    repeat split; auto. discriminate.
Qed.

(** Every successful run of the function is a derivation of the relation. *)
Lemma buildNestedStructData_Built ext b queryName fuel :
  forall config parent structFields reg t reg',
    buildNestedStructData ext b fuel queryName config parent structFields reg
    = Some (Ok (t, reg')) ->
    Built ext b queryName config parent structFields reg t reg'.
Proof.
  induction fuel as [|fuel IH]; [discriminate|].
  intros config parent structFields reg t reg' H.
  apply buildNestedStructData_Ok in H
    as (fuel' & nestedConfigs & structIn & isAG & reg1 & rowExists
        & nestedStructs & [= <-] & Htarget & HAG & Hmark & Hrow & Hlist
        & Hval & ->).
  eapply Built_node; eauto.
  unfold buildNestedStructsList in Hlist.
  set (node := builtNode _ _ _ _ _ _ _ _ _) in *. clearbody node.
  clear -IH Hlist. revert reg1 nestedStructs reg' Hlist.
  induction nestedConfigs as [|nestedCfg rest IHl]; intros reg1 l reg' Hlist;
    apply buildNestedStructsListWith_Ok in Hlist.
  - destruct Hlist as [-> ->]. constructor.
  - destruct Hlist as (t & reg2 & l' & Hb & Hl & ->).
    econstructor; [apply IH; exact Hb | apply IHl; exact Hl].
Qed.

Lemma buildNestedStructsList_BuiltList ext b queryName fuel parent group reg l reg' :
  buildNestedStructsList ext b fuel queryName parent group reg
  = Some (Ok (l, reg')) ->
  BuiltList ext b queryName parent group reg l reg'.
Proof.
  unfold buildNestedStructsList. revert reg l reg'.
  induction group as [|nestedCfg rest IHl]; intros reg l reg' Hlist;
    apply buildNestedStructsListWith_Ok in Hlist.
  - destruct Hlist as [-> ->]. constructor.
  - destruct Hlist as (t & reg2 & l' & Hb & Hl & ->).
    econstructor; [eapply buildNestedStructData_Built; exact Hb
                  | apply IHl; exact Hl].
Qed.

(** ** C10: the key type *)

Lemma Built_KeyType ext b queryName config parent structFields reg t reg' :
  Built ext b queryName config parent structFields reg t reg' ->
  Forall (fun n => KeyType n = "pgtype.UUID") (allNodes t).
Proof.
  intros H.
  induction H using Built_mut_ind
    with (P0 := fun _ _ _ l _ =>
                  Forall (fun n => KeyType n = "pgtype.UUID")
                         (flat_map allNodes l)).
  - set (node := builtNode _ _ _ _ _ _ _ _ _) in *.
    pose proof (allNodes_updateDuplicates (setNestedStructs node nestedStructs) [])
      as Hsame.
    assert (Hall : Forall (fun n => KeyType n = "pgtype.UUID")
                          (allNodes (setNestedStructs node nestedStructs))).
    { rewrite allNodes_unfold. constructor; [reflexivity | assumption]. }
    clear -Hsame Hall.
    induction Hsame as [|n n' ns ns' [Hs _] _ IH]; [constructor|].
    inversion Hall as [|? ? Hn Hns]; subst.
    constructor; [|now apply IH].
    apply (f_equal KeyType) in Hs. simpl in Hs. congruence.
  - constructor.
  - cbn [flat_map]. apply Forall_app. now split.
Qed.

(** C10.  Every node of a tree that [buildNestedStructData] has built has the
    key type ["pgtype.UUID"], whatever its group-by field and whatever the
    catalog says about that field. *)
Theorem KeyType_is_UUID ext b fuel queryName config parent structFields reg t reg' :
  buildNestedStructData ext b fuel queryName config parent structFields reg
  = Some (Ok (t, reg')) ->
  forall n, In n (allNodes t) ->
    KeyType n = "pgtype.UUID"
    /\ KeyType n = determineKeyType (FieldGroupBy n).
Proof.
  intros H n Hn. apply buildNestedStructData_Built in H.
  apply Built_KeyType in H. rewrite Forall_forall in H.
  assert (Hk : KeyType n = "pgtype.UUID") by (apply H; now apply list_elem_of_In).
  split; [exact Hk | now rewrite Hk].
Qed.

Lemma KeyType_is_UUID_witness :
  exists t reg',
    buildNestedStructData exExt exBuilder 5 "GetPosts" exRootConfig None
      exRowFields exRegistry = Some (Ok (t, reg'))
    /\ KeyType t = "pgtype.UUID"
    /\ KeyType t = determineKeyType (FieldGroupBy t).
Proof.
  assert (Hok : hasChild (buildNestedStructData exExt exBuilder 5 "GetPosts"
                            exRootConfig None exRowFields exRegistry) = true)
    by (vm_compute; reflexivity).
  destruct (buildNestedStructData exExt exBuilder 5 "GetPosts" exRootConfig None
              exRowFields exRegistry) as [[[t reg']| |]|] eqn:H;
    try discriminate Hok.
  exists t, reg'. split; [reflexivity|].
  apply (KeyType_is_UUID _ _ _ _ _ _ _ _ _ _ H t).
  rewrite allNodes_unfold. now left.
Defined.

(** ** C3: an unspecified [is_composite] *)

Lemma GetIsComposite_nil (n : NestedGroupConfig) :
  gIsComposite n = None -> GetIsComposite n = true /\ isCompositeSet n = false.
Proof. unfold GetIsComposite, isCompositeSet. now intros ->. Qed.

Lemma populate_keeps_group (config : NestedGroupConfig) :
  gGroup (populateNestedConfigItemWithDefaultValues config) = gGroup config.
Proof. reflexivity. Qed.

(** C3 (the code at the failing input).  The node [Review] sits two levels
    down and leaves [is_composite] unspecified.  The defaults are not applied
    to it; the accessor [GetIsComposite], which [buildNestedStructData] reads,
    says true, where the inline test of the registry builder and of
    [getNestedFields] says false; and the builder, taking the node for a
    reference to a composite, reads through a registry entry that does not
    exist. *)
Theorem unspecified_is_composite_reads_true :
  gIsComposite exReview = None
  /\ firstQueryGrandchildren (populateNestedConfigWithDefaultValues exBookOptions)
     = [exReview]
  /\ GetIsComposite exReview = true
  /\ isCompositeSet exReview = false
  /\ generateNested exExt 10 exBookOptions exBookQueries exBookStructs ∅
     = Some Panic.
Proof. repeat split; vm_compute; reflexivity. Qed.

(** ** C4: a configuration for an unknown query *)

Lemma findTargetQuery_unknown qs config :
  unknownQuery qs config -> findTargetQuery qs (qcQuery config) = None.
Proof.
  unfold unknownQuery, findTargetQuery.
  induction 1 as [|q qs [Hm Hs] _ IH]; [reflexivity|]. simpl.
  apply String.eqb_neq in Hm, Hs. now rewrite Hm, Hs.
Qed.

Lemma buildNestedDataItemsLoop_skip ext b fuel pre config post :
  findTargetQuery (queries b) (qcQuery config) = None ->
  forall items roots reg,
    buildNestedDataItemsLoop ext b fuel (pre ++ config :: post) items roots reg
    = buildNestedDataItemsLoop ext b fuel (pre ++ post) items roots reg.
Proof.
  intros Hnone. induction pre as [|c pre IH]; intros items roots reg.
  - simpl. now rewrite Hnone.
  - cbn [app buildNestedDataItemsLoop].
    destruct (findTargetQuery (queries b) (qcQuery c)) as [targetQuery|];
      [|apply IH].
    repeat case_match; try reflexivity; apply IH.
Qed.

Lemma addSourceConfig_skip qs config pre post acc :
  findTargetQuery qs (qcQuery config) = None ->
  fold_left (addSourceConfig qs) (pre ++ config :: post) acc
  = fold_left (addSourceConfig qs) (pre ++ post) acc.
Proof.
  intros Hnone. rewrite !fold_left_app. cbn [fold_left].
  assert (Hskip : forall a, addSourceConfig qs a config = a).
  { intros [sources seen]. unfold addSourceConfig. now rewrite Hnone. }
  now rewrite Hskip.
Qed.

(** C4 (as amended).  A query configuration whose [query] matches neither the
    method name nor the source name of any query of the catalog is skipped:
    it belongs to no source file, and the items built for a list of
    configurations are those built for the list without it. *)
Theorem unknown_query_is_skipped ext b fuel emitJ emitP pkg composites
    pre config post reg :
  unknownQuery (queries b) config ->
  getNestedSourceWithConfigs
    (mkOptions emitJ emitP pkg
       (Some (mkNestedConfig composites (pre ++ config :: post)))) (queries b)
  = getNestedSourceWithConfigs
      (mkOptions emitJ emitP pkg
         (Some (mkNestedConfig composites (pre ++ post)))) (queries b)
  /\ buildNestedDataItems ext b fuel (pre ++ config :: post) reg
     = buildNestedDataItems ext b fuel (pre ++ post) reg.
Proof.
  intros Hunknown. apply findTargetQuery_unknown in Hunknown. split.
  - unfold getNestedSourceWithConfigs. cbn [Nested Queries]. f_equal.
    now apply addSourceConfig_skip.
  - unfold buildNestedDataItems. now apply buildNestedDataItemsLoop_skip.
Qed.

Lemma unknown_query_is_skipped_witness :
  unknownQuery (queries exBuilder) exUnknownQueryConfig
  /\ getNestedSourceWithConfigs
       (mkOptions true true "entity"
          (Some (mkNestedConfig [] ([] ++ exUnknownQueryConfig :: []))))
       (queries exBuilder)
     = getNestedSourceWithConfigs
         (mkOptions true true "entity" (Some (mkNestedConfig [] ([] ++ []))))
         (queries exBuilder)
  /\ buildNestedDataItems exExt exBuilder 5 ([] ++ exUnknownQueryConfig :: []) ∅
     = buildNestedDataItems exExt exBuilder 5 ([] ++ []) ∅.
Proof.
  assert (H : unknownQuery (queries exBuilder) exUnknownQueryConfig).
  { unfold unknownQuery. repeat constructor; discriminate. }
  split; [exact H|].
  exact (unknown_query_is_skipped exExt exBuilder 5 true true "entity" []
           [] exUnknownQueryConfig [] ∅ H).
Defined.

(** C4 (as stated) fails: the request whose only configuration names the
    unknown query [GetComments] succeeds, with nothing generated. *)
Lemma unknown_query_does_not_fail :
  findTargetQuery exQueries (qcQuery exUnknownQueryConfig) = None
  /\ generateNested exExt 10 exUnknownOptions exQueries exStructs ∅
     = Some (Ok ([], ∅))
  /\ buildNestedDataItems exExt exBuilder 10 [exUnknownQueryConfig] ∅
     = Some (Ok ([], ∅)).
Proof. repeat split; vm_compute; reflexivity. Qed.

(** ** C7: duplicate levels *)

Lemma countName_app name l1 l2 :
  countName name (l1 ++ l2) = countName name l1 + countName name l2.
Proof. unfold countName. now rewrite List.filter_app, length_app. Qed.

Lemma occurrencesBelow_countName name t :
  occurrencesBelow name t = countName name (outs t).
Proof.
  unfold occurrencesBelow, countName, outs.
  induction (descendants t) as [|d ds IH]; [reflexivity|].
  simpl. destruct (String.eqb (StructOut d) name); simpl; now rewrite IH.
Qed.

Lemma outs_unfold t :
  outs t = flat_map (fun c => StructOut c :: outs c) (NestedStructs t).
Proof.
  unfold outs, descendants.
  induction (NestedStructs t) as [|c cs IH]; [reflexivity|].
  cbn [flat_map]. rewrite map_app, IH. f_equal.
  now rewrite allNodes_unfold.
Qed.

Lemma collect_unfold (data : NestedStructData) structOutMap :
  collectAllNestedStructsByStructOut data structOutMap
  = fold_left
      (fun m nestedStruct =>
         collectAllNestedStructsByStructOut nestedStruct
           (<[StructOut nestedStruct :=
                default [] (m !! StructOut nestedStruct) ++ [nestedStruct]]> m))
      (NestedStructs data) structOutMap.
Proof. destruct data; reflexivity. Qed.

(** The map collected below a node holds, under each name, as many nodes more
    as the name occurs below the node. *)
Lemma collect_length name (t : NestedStructData) :
  forall m : gmap string (list NestedStructData),
    length (default [] (collectAllNestedStructsByStructOut t m !! name))
    = length (default [] (m !! name)) + countName name (outs t).
Proof.
  induction t as [t IH] using NestedStructData_tree_ind. intros m.
  rewrite outs_unfold, collect_unfold.
  revert m. induction (NestedStructs t) as [|c cs IHcs]; intros m.
  - cbn. unfold countName. simpl. lia.
  - inversion IH as [|? ? Hc Hcs]; subst.
    cbn [fold_left flat_map]. rewrite (IHcs Hcs), Hc.
    rewrite countName_app.
    change (StructOut c :: outs c) with ([StructOut c] ++ outs c).
    rewrite countName_app.
    assert (Hins : length (default [] (<[StructOut c :=
                     default [] (m !! StructOut c) ++ [c]]> m !! name))
                   = length (default [] (m !! name)) + countName name [StructOut c]).
    { unfold countName. cbn [List.filter].
      destruct (String.eqb (StructOut c) name) eqn:He.
      - apply String.eqb_eq in He. subst name.
        rewrite lookup_insert_eq. simpl. now rewrite length_app.
      - apply String.eqb_neq in He.
        rewrite lookup_insert_ne by exact He. simpl. lia. }
    rewrite Hins. lia.
Qed.

Lemma duplicatedIn_spec name a :
  duplicatedIn name a = (1 <? occurrencesBelow name a)%nat.
Proof.
  unfold duplicatedIn. pose proof (collect_length name a ∅) as H.
  rewrite lookup_empty in H. simpl in H.
  rewrite occurrencesBelow_countName.
  destruct (collectAllNestedStructsByStructOut a ∅ !! name) as [l|];
    simpl in H; now rewrite <- H.
Qed.

(** The loop over the levels writes every level of the path once. *)
Lemma setLevel_other name (ca : list NestedStructData) (levels : list nat) L :
  L ∉ levels ->
  forall d : gmap nat bool,
    fold_left (setLevel name ca) levels d !! L = d !! L.
Proof.
  induction levels as [|l ls IH]; intros Hnot d; [reflexivity|].
  cbn [fold_left]. rewrite IH by set_solver.
  unfold setLevel. destruct (ca !! (length ca - l)); [|reflexivity].
  apply lookup_insert_ne. set_solver.
Qed.

Lemma duplicatedAtLevels_spec c (ca : list NestedStructData)
    (d : gmap nat bool) L :
  1 <= L <= length ca ->
  exists a, ancestorAtLevel ca L = Some a
            /\ duplicatedAtLevels c ca d !! L
               = Some (1 <? occurrencesBelow (StructOut c) a)%nat.
Proof.
  intros HL. unfold ancestorAtLevel, duplicatedAtLevels.
  destruct (ca !! (length ca - L)) as [a|] eqn:Ha.
  2:{ apply lookup_ge_None in Ha. lia. }
  exists a. split; [reflexivity|]. rewrite <- duplicatedIn_spec.
  assert (Hin : L ∈ seq 1 (length ca)) by (apply elem_of_seq; lia).
  assert (Hnd : NoDup (seq 1 (length ca))) by apply NoDup_seq.
  revert d Hin Hnd.
  induction (seq 1 (length ca)) as [|l ls IH]; intros d Hin Hnd;
    [now apply elem_of_nil in Hin|].
  apply NoDup_cons in Hnd as [Hl Hnd]. cbn [fold_left].
  apply elem_of_cons in Hin as [->|Hin].
  - rewrite setLevel_other by exact Hl.
    unfold setLevel. rewrite Ha. apply lookup_insert_eq.
  - now apply IH.
Qed.

(** The names below a node are those of the nodes after the first. *)
Lemma outs_allNodes t : map StructOut (allNodes t) = StructOut t :: outs t.
Proof. rewrite allNodes_unfold. reflexivity. Qed.

Lemma sameNode_StructOut n n' : sameNode n n' -> StructOut n = StructOut n'.
Proof. intros [Hs _]. now apply (f_equal StructOut) in Hs. Qed.

Lemma outs_updateDuplicates t anc :
  outs (updateDuplicatesFromNodePerspective t anc) = outs t.
Proof.
  pose proof (allNodes_updateDuplicates t anc) as H.
  assert (Hm : map StructOut (allNodes (updateDuplicatesFromNodePerspective t anc))
               = map StructOut (allNodes t)).
  { induction H as [|n n' ns ns' Hn _ IH]; [reflexivity|].
    cbn [map]. now rewrite IH, (sameNode_StructOut n n' Hn). }
  rewrite !outs_allNodes in Hm. now injection Hm.
Qed.

Lemma outs_setDuplicated t d :
  outs (setDuplicatedRelativeToParents t d) = outs t.
Proof. reflexivity. Qed.

Lemma nodesWithAncestors_unfold t ancestors :
  nodesWithAncestors t ancestors
  = flat_map (fun child =>
                (child, ancestors ++ [t])
                :: nodesWithAncestors child (ancestors ++ [t]))
             (NestedStructs t).
Proof. destruct t; reflexivity. Qed.

Lemma ancestorAtLevel_outs (A B : list NestedStructData) L a :
  map outs A = map outs B ->
  ancestorAtLevel B L = Some a ->
  exists a', ancestorAtLevel A L = Some a' /\ outs a' = outs a.
Proof.
  intros Hm Ha. unfold ancestorAtLevel in *.
  assert (Hlen : length A = length B).
  { apply (f_equal length) in Hm. now rewrite !length_map in Hm. }
  rewrite Hlen.
  assert (Hl : map outs B !! (length B - L) = Some (outs a))
    by now rewrite list_lookup_fmap, Ha.
  rewrite <- Hm, list_lookup_fmap in Hl.
  destruct (A !! (length B - L)) as [a'|]; [|discriminate].
  exists a'. split; [reflexivity|]. now injection Hl.
Qed.

(** In the updated tree every node carries, for every level of its path, the
    flag of its name in the scope of the ancestor at that level. *)
Lemma updateDuplicates_flags (t : NestedStructData) :
  forall anc t2 A0,
    NestedStructs t2 = NestedStructs (updateDuplicatesFromNodePerspective t anc) ->
    map outs (A0 ++ [t2]) = map outs (anc ++ [t]) ->
    forall n ancestors,
      In (n, ancestors) (nodesWithAncestors t2 A0) ->
      forall L, 1 <= L <= length ancestors ->
        exists a, ancestorAtLevel ancestors L = Some a
                  /\ DuplicatedRelativeToParents n !! L
                     = Some (1 <? occurrencesBelow (StructOut n) a)%nat.
Proof.
  induction t as [t IH] using NestedStructData_tree_ind.
  intros anc t2 A0 Hns Houts n ancestors Hin L HL.
  rewrite nodesWithAncestors_unfold, Hns, updateDuplicates_unfold in Hin.
  change (NestedStructs (setNestedStructs t ?l)) with l in Hin.
  apply in_flat_map in Hin as (c' & Hc' & Hin).
  apply in_map_iff in Hc' as (c & <- & Hc).
  rewrite Forall_forall in IH.
  destruct Hin as [Heq | Hin].
  - injection Heq as <- <-.
    destruct (duplicatedAtLevels_spec c (anc ++ [t])
                (DuplicatedRelativeToParents c) L) as (a & Ha & Hflag).
    { apply (f_equal length) in Houts. rewrite !length_map in Houts. lia. }
    destruct (ancestorAtLevel_outs (A0 ++ [t2]) (anc ++ [t]) L a Houts Ha)
      as (a' & Ha' & Hoa).
    exists a'. split; [exact Ha'|].
    cbn [DuplicatedRelativeToParents setDuplicatedRelativeToParents].
    rewrite Hflag. f_equal.
    change (StructOut (setDuplicatedRelativeToParents ?x ?d)) with (StructOut x).
    assert (Hso : StructOut (updateDuplicatesFromNodePerspective c (anc ++ [t]))
                  = StructOut c)
      by (rewrite updateDuplicates_unfold; reflexivity).
    now rewrite Hso, !occurrencesBelow_countName, Hoa.
  - eapply (IH c (proj2 (list_elem_of_In _ _) Hc) (anc ++ [t]));
      [| |exact Hin|exact HL].
    + reflexivity.
    + rewrite (map_app outs (A0 ++ [t2])), (map_app outs (anc ++ [t])), Houts.
      f_equal. cbn [map]. f_equal.
      now rewrite outs_setDuplicated, outs_updateDuplicates.
Qed.

(** C7.  In a tree built by [buildNestedStructData], the flag a node carries
    for an ancestor level [L] (1 for its parent, rising towards the root) is
    true exactly when the node's output type name occurs more than once among
    the nodes below the ancestor at that level. *)
Theorem duplicated_at_level_iff ext b fuel queryName config parent structFields
    reg t reg' :
  buildNestedStructData ext b fuel queryName config parent structFields reg
  = Some (Ok (t, reg')) ->
  forall n ancestors L,
    In (n, ancestors) (nodesWithAncestors t []) ->
    1 <= L <= length ancestors ->
    exists a,
      ancestorAtLevel ancestors L = Some a
      /\ DuplicatedRelativeToParents n !! L
         = Some (bool_decide (1 < occurrencesBelow (StructOut n) a)).
Proof.
  intros H n ancestors L Hin HL.
  apply buildNestedStructData_Ok in H
    as (fuel' & nestedConfigs & structIn & isAG & reg1 & rowExists
        & nestedStructs & _ & _ & _ & _ & _ & _ & _ & ->).
  set (t0 := setNestedStructs _ nestedStructs) in *.
  destruct (updateDuplicates_flags t0 [] (updateDuplicatesFromNodePerspective t0 [])
              [] eq_refl) with (n := n) (ancestors := ancestors) (L := L)
    as (a & Ha & Hflag); auto.
  { cbn [app map]. now rewrite outs_updateDuplicates. }
  exists a. split; [exact Ha|]. rewrite Hflag. f_equal.
  destruct (1 <? _)%nat eqn:Hlt.
  - apply Nat.ltb_lt in Hlt. now rewrite bool_decide_eq_true_2.
  - apply Nat.ltb_ge in Hlt. rewrite bool_decide_eq_false_2; [reflexivity | lia].
Qed.

(** A name that occurs twice below the root is flagged, one that occurs once
    is not. *)
Example duplicated_sender_and_receiver :
  map (fun n => (StructOut n, DuplicatedRelativeToParents n !! 1))
      (NestedStructs (updateDuplicatesFromNodePerspective exMessageRoot []))
  = [("UserComposite", Some true); ("UserComposite", Some true);
     ("Image", Some false)].
Proof. vm_compute. reflexivity. Qed.

Lemma duplicated_at_level_iff_witness :
  exists t reg' n a,
    buildNestedStructData exExt exBuilder 5 "GetPosts" exRootConfig None
      exRowFields exRegistry = Some (Ok (t, reg'))
    /\ In (n, [t]) (nodesWithAncestors t [])
    /\ 1 <= 1 <= length [t]
    /\ ancestorAtLevel [t] 1 = Some a
    /\ DuplicatedRelativeToParents n !! 1
       = Some (bool_decide (1 < occurrencesBelow (StructOut n) a)).
Proof.
  assert (Hok : hasChild (buildNestedStructData exExt exBuilder 5 "GetPosts"
                            exRootConfig None exRowFields exRegistry) = true)
    by (vm_compute; reflexivity).
  destruct (buildNestedStructData exExt exBuilder 5 "GetPosts" exRootConfig None
              exRowFields exRegistry) as [[[t reg']| |]|] eqn:H;
    try discriminate Hok.
  unfold hasChild, builtTree in Hok.
  destruct (NestedStructs t) as [|n ns] eqn:Hn; [discriminate Hok|].
  assert (Hin : In (n, [t]) (nodesWithAncestors t [])).
  { rewrite nodesWithAncestors_unfold, Hn. now left. }
  assert (HL : 1 <= 1 <= length [t]) by (simpl; lia).
  destruct (duplicated_at_level_iff _ _ _ _ _ _ _ _ _ _ H n [t] 1 Hin HL)
    as (a & Ha & Hflag).
  exists t, reg', n, a. repeat split; auto.
Defined.

(** ** C2: cycles among composites *)

Section Cycles.

Variable ext : Externals.
Variable reg : Registry.
Hypothesis Hrange : rangesOverEntries ext.
Hypothesis Hclosed : allReferencesRegistered reg.

Lemma resolve_unfold fuel c :
  resolveAllTreeCompositeFields ext (S fuel) reg c
  = match reg !! c with
    | None => Some (Err (ErrCompositeNotInRegistryDirect c))
    | Some compositeInfo =>
        fold_left (resolveStep (resolveAllTreeCompositeFields ext fuel reg))
          (mapRange ext (NestedFieldToCompositeNameMap compositeInfo))
          (Some (Ok (DirectNestedFields compositeInfo)))
    end.
Proof. reflexivity. Qed.

Lemma entry_registered d field target :
  map_Forall (fun _ target => is_Some (reg !! target))
             (NestedFieldToCompositeNameMap d) ->
  (field, target) ∈ mapRange ext (NestedFieldToCompositeNameMap d) ->
  is_Some (reg !! target).
Proof.
  intros Hall Hin. rewrite (Hrange _) in Hin.
  apply elem_of_map_to_list in Hin. exact (Hall field target Hin).
Qed.

(** With every reference registered, no error arises. *)
Lemma resolve_no_error fuel :
  forall c, is_Some (reg !! c) ->
            returnsNoError (resolveAllTreeCompositeFields ext fuel reg c).
Proof.
  induction fuel as [|fuel IH]; intros c [d Hd]; [now left|].
  rewrite resolve_unfold, Hd.
  pose proof (Hclosed c d Hd) as Hall. cbn beta in Hall.
  assert (Hentries : forall e, e ∈ mapRange ext (NestedFieldToCompositeNameMap d) ->
                               is_Some (reg !! e.2)).
  { intros [field target] He. now apply (entry_registered d field target). }
  clear Hall.
  assert (Hacc : returnsNoError (Some (Ok (DirectNestedFields d))))
    by (right; eauto).
  revert Hacc. generalize (Some (Ok (DirectNestedFields d))).
  induction (mapRange ext (NestedFieldToCompositeNameMap d)) as [|e es IHes];
    intros acc Hacc; [exact Hacc|].
  cbn [fold_left]. apply IHes.
  - intros e' He'. apply Hentries. now right.
  - unfold resolveStep. destruct Hacc as [-> | [fields ->]]; [now left|].
    destruct (IH e.2 (Hentries e ltac:(now left))) as [-> | [fields' ->]];
      [now left | right; eauto].
Qed.

Lemma resolveStep_None resolve es :
  fold_left (resolveStep resolve) es None = None.
Proof. induction es as [|e es IH]; [reflexivity | exact IH]. Qed.

(** A reference whose resolution does not return keeps the loop from
    returning. *)
Lemma resolve_loop_diverges fuel es e :
  e ∈ es ->
  resolveAllTreeCompositeFields ext fuel reg e.2 = None ->
  (forall e', e' ∈ es -> is_Some (reg !! e'.2)) ->
  forall acc, returnsNoError acc -> fold_left (resolveStep (resolveAllTreeCompositeFields ext fuel reg)) es acc = None.
Proof.
  intros Hin Hnone Hreg. induction es as [|e0 es IH]; intros acc Hacc;
    [now apply elem_of_nil in Hin|].
  cbn [fold_left].
  destruct Hacc as [-> | [fields ->]]; [apply resolveStep_None|].
  apply elem_of_cons in Hin as [<- | Hin].
  - cbn [resolveStep]. rewrite Hnone. apply resolveStep_None.
  - apply IH; [exact Hin | intros e' He'; apply Hreg; now right |].
    cbn [resolveStep].
    destruct (resolve_no_error fuel e0.2 (Hreg e0 ltac:(now left)))
      as [-> | [fields' ->]]; [now left | right; eauto].
Qed.

Lemma onCycle_next c :
  onCycle reg c -> exists c', refersTo reg c c' /\ onCycle reg c'.
Proof.
  unfold onCycle. intros H. inversion H as [? ? Hr | ? c' ? Hr Htc]; subst.
  - exists c. split; [exact Hr | exact H].
  - exists c'. split; [exact Hr|]. eapply tc_r; eauto.
Qed.

(** On a cycle the resolution returns at no depth of recursion. *)
Lemma resolve_diverges_on_cycle fuel :
  forall c, onCycle reg c -> resolveAllTreeCompositeFields ext fuel reg c = None.
Proof.
  induction fuel as [|fuel IH]; intros c Hc; [reflexivity|].
  destruct (onCycle_next c Hc) as (c' & (d & field & Hd & Hfield) & Hc').
  rewrite resolve_unfold, Hd.
  pose proof (Hclosed c d Hd) as Hall. cbn beta in Hall.
  apply (resolve_loop_diverges fuel _ (field, c')).
  - rewrite (Hrange _). now apply elem_of_map_to_list.
  - now apply IH.
  - intros [f t] He. now apply (entry_registered d f t).
  - right. eauto.
Qed.

End Cycles.

Lemma exExt_ranges : rangesOverEntries exExt.
Proof. intros m. reflexivity. Qed.

Lemma exCyclicRegistry_closed : allReferencesRegistered exCyclicRegistry.
Proof.
  unfold allReferencesRegistered.
  apply (bool_decide_unpack _). vm_compute. exact I.
Qed.

Lemma exCyclicRegistry_cycle : onCycle exCyclicRegistry "UserComposite".
Proof.
  apply tc_once. unfold refersTo.
  eexists _, "Friend". split; vm_compute; reflexivity.
Qed.

(** C2 (as amended).  In a registry where every composite referred to is
    registered, resolving the excluded fields of a composite that lies on a
    cycle of references returns at no depth of recursion: neither fields nor an
    error come back.  Nothing in [resolveAllTreeCompositeFields] keeps track of
    the composites being resolved. *)
Theorem cyclic_composite_never_resolves ext reg c :
  rangesOverEntries ext ->
  allReferencesRegistered reg ->
  onCycle reg c ->
  forall fuel, resolveAllTreeCompositeFields ext fuel reg c = None.
Proof.
  intros Hrange Hclosed Hcycle fuel.
  now apply resolve_diverges_on_cycle.
Qed.

Lemma cyclic_composite_never_resolves_witness :
  rangesOverEntries exExt
  /\ allReferencesRegistered exCyclicRegistry
  /\ onCycle exCyclicRegistry "UserComposite"
  /\ resolveAllTreeCompositeFields exExt 7 exCyclicRegistry "UserComposite" = None.
Proof.
  split; [exact exExt_ranges|].
  split; [exact exCyclicRegistry_closed|].
  split; [exact exCyclicRegistry_cycle|].
  exact (cyclic_composite_never_resolves exExt exCyclicRegistry "UserComposite"
           exExt_ranges exCyclicRegistry_closed exCyclicRegistry_cycle 7).
Defined.

Lemma resolveAll_diverges ext fuel c rest reg :
  resolveAllTreeCompositeFields ext fuel reg (cName c) = None ->
  resolveAll ext fuel (c :: rest) reg = None.
Proof.
  intros H. unfold resolveAll. cbn [fold_left resolveOne]. rewrite H.
  induction rest as [|c' rest IH]; [reflexivity | exact IH].
Qed.

(** C2 (as stated) fails: for the composite [UserComposite], which nests a
    reference to itself, the resolution returns no error at any depth, and
    the registry is never built. *)
Lemma cyclic_composite_no_error :
  (forall fuel,
     resolveAllTreeCompositeFields exExt fuel exCyclicRegistry "UserComposite"
     = None)
  /\ (forall fuel,
        buildCompositeStructRegistry exExt fuel exCyclicOptions ∅ = None).
Proof.
  assert (H : forall fuel,
             resolveAllTreeCompositeFields exExt fuel exCyclicRegistry
               "UserComposite" = None).
  { intros fuel.
    apply (resolve_diverges_on_cycle exExt exCyclicRegistry exExt_ranges
             exCyclicRegistry_closed fuel "UserComposite"
             exCyclicRegistry_cycle). }
  split; [exact H|].
  intros fuel. unfold buildCompositeStructRegistry. cbn [Nested exCyclicOptions Composites].
  apply resolveAll_diverges. exact (H fuel).
Qed.

(** ** C5: own fields and children *)



(** *** The registry stays well formed *)







(** *** The property does not depend on the duplicate flags *)




(** *** Every built tree has the property *)



(** *** The registry is well formed after its two passes *)




Lemma resolveStep_Ok_prefix resolve es :
  forall acc fields,
    fold_left (resolveStep resolve) es acc = Some (Ok fields) ->
    exists init, acc = Some (Ok init) /\ forall f, In f init -> In f fields.
Proof.
  induction es as [|e es IH]; intros acc fields H.
  - cbn in H. subst. eauto.
  - cbn [fold_left] in H. apply IH in H as (mid & Hmid & Hsub).
    unfold resolveStep in Hmid.
    destruct acc as [[init| |]|]; try discriminate.
    destruct (resolve e.2) as [[more| |]|]; try discriminate.
    injection Hmid as <-. exists init. split; [reflexivity|].
    intros f Hf. apply Hsub, in_or_app. now left.
Qed.



Lemma resolveAll_not_Ok ext fuel composites acc :
  (forall reg, acc <> Some (Ok reg)) ->
  fold_left (resolveOne ext fuel) composites acc = acc.
Proof.
  revert acc. induction composites as [|c cs IH]; intros acc Hacc; [reflexivity|].
  cbn [fold_left]. destruct acc as [[reg| |]|]; try (now apply IH).
  now destruct (Hacc reg).
Qed.



(** *** The trees of a run *)








(** ** C8: composite fields that the entity lacks *)

Lemma firstError_fold (A : Type) (check : A -> option error) (l : list A) :
  forall acc,
    fold_left
      (fun acc x => match acc with Some err => Some err | None => check x end)
      l acc
    = match acc with
      | Some err => Some err
      | None => firstError check l
      end.
Proof.
  induction l as [|x xs IH]; intros acc; [now destruct acc|].
  cbn [fold_left firstError]. rewrite IH. destruct acc as [err|]; [reflexivity|].
  destruct (check x); reflexivity.
Qed.

Lemma validateNode_unfold ext structs parent n :
  validateCompositeFieldsExistInEntityNode ext structs parent n
  = match checkCompositeNode ext structs parent n with
    | Some err => Some err
    | None =>
        fold_left
          (fun acc child =>
             match acc with
             | Some err => Some err
             | None =>
                 validateCompositeFieldsExistInEntityNode ext structs parent child
             end)
          (NestedStructs n) None
    end.
Proof. destruct n; reflexivity. Qed.

Lemma firstError_app (A : Type) (f : A -> option error) l1 l2 :
  firstError f (l1 ++ l2)
  = match firstError f l1 with
    | Some b => Some b
    | None => firstError f l2
    end.
Proof.
  induction l1 as [|x xs IH]; [reflexivity|].
  cbn [app firstError]. destruct (f x); [reflexivity | exact IH].
Qed.

Lemma firstError_flat_map (A : Type) (f : A -> option error)
    (g : NestedStructData -> list A) (h : NestedStructData -> option error) l :
  Forall (fun c => h c = firstError f (g c)) l ->
  firstError h l = firstError f (flat_map g l).
Proof.
  induction 1 as [|c cs Hc _ IH]; [reflexivity|].
  cbn [flat_map firstError]. rewrite firstError_app, <- Hc.
  destruct (h c); [reflexivity | exact IH].
Qed.

(** The traversal reports the first error among the nodes, root first. *)
Lemma validateNode_first ext structs parent n :
  validateCompositeFieldsExistInEntityNode ext structs parent n
  = firstError (checkCompositeNode ext structs parent) (allNodes n).
Proof.
  induction n as [n IH] using NestedStructData_tree_ind.
  rewrite validateNode_unfold, allNodes_unfold. cbn [firstError].
  destruct (checkCompositeNode ext structs parent n); [reflexivity|].
  rewrite firstError_fold. now apply firstError_flat_map.
Qed.

Lemma validateList_first ext structs parent l :
  validateCompositeFieldsExistInEntity ext l structs parent
  = firstError (checkCompositeNode ext structs parent) (flat_map allNodes l).
Proof.
  unfold validateCompositeFieldsExistInEntity. rewrite firstError_fold.
  apply firstError_flat_map. apply Forall_forall. intros c _.
  apply validateNode_first.
Qed.


Lemma checkCompositeNode_drifts ext structs parent m entity :
  drifts ext structs m entity ->
  checkCompositeNode ext structs parent m
  = Some (ErrNestedCompositeFields (StructOut m) parent
            (missingFieldsOf (sFields entity) (Fields m)) (StructIn m)
            (formatAvailableFields (sFields entity))).
Proof.
  intros (Hc & Hr & He & Hm). unfold checkCompositeNode. rewrite Hc, Hr. cbn.
  unfold validateCompositeFieldsAgainstEntity. rewrite He.
  destruct (missingFieldsOf (sFields entity) (Fields m)); [congruence|].
  reflexivity.
Qed.



Lemma firstError_first (A : Type) (f : A -> option error) pre x post b :
  Forall (fun y => f y = None) pre -> f x = Some b ->
  firstError f (pre ++ x :: post) = Some b.
Proof.
  intros Hpre Hx. rewrite firstError_app.
  assert (Hnone : firstError f pre = None).
  { induction Hpre as [|y ys Hy _ IH]; [reflexivity|]. cbn [firstError].
    now rewrite Hy. }
  rewrite Hnone. cbn [firstError]. now rewrite Hx.
Qed.

Lemma firstError_Some (A : Type) (f : A -> option error) l x b :
  In x l -> f x = Some b ->
  exists y b', In y l /\ f y = Some b' /\ firstError f l = Some b'.
Proof.
  induction l as [|z zs IH]; [contradiction|].
  intros Hin Hx. cbn [firstError]. destruct (f z) as [bz|] eqn:Hz.
  - exists z, bz. repeat split; [now left | exact Hz].
  - destruct Hin as [-> | Hin]; [congruence|].
    destruct (IH Hin Hx) as (y & b' & Hy & Hfy & Hhead).
    exists y, b'. repeat split; [now right | exact Hfy | exact Hhead].
Qed.



(** The same drift in a run: the generation ends with the error of the
    validation, which names the composite, the field [Bio], the entity [User]
    and its fields. *)
Example schema_drift_ends_generation :
  generateNested exExt 10 exDriftOptions exDriftQueries exDriftStructs ∅
  = Some (Err
      (ErrWrap "failed to generate nested function for query GetPosts"
         (ErrWrap "validation failed for query GetPosts"
            (ErrWrap "validation failed for struct PostComposite"
               (ErrNestedCompositeFields "UserComposite" "PostComposite"
                  ["Bio"] "User" "[ID, Name]"))))).
Proof. vm_compute. reflexivity. Qed.

Lemma sameNode_drifts ext structs m0 m entity :
  sameNode m0 m -> drifts ext structs m entity -> drifts ext structs m0 entity.
Proof.
  intros [Hs _] (Hc & Hr & He & Hm).
  apply (f_equal IsComposite) in Hs as Hic. cbn in Hic.
  apply (f_equal IsRowFieldExistsInQuery) in Hs as Hir. cbn in Hir.
  apply (f_equal StructIn) in Hs as Hsi. cbn in Hsi.
  apply (f_equal Fields) in Hs as Hf. cbn in Hf.
  unfold drifts. now rewrite Hic, Hir, Hsi, Hf.
Qed.

Lemma Forall2_In_right (A B : Type) (R : A -> B -> Prop) xs ys y :
  Forall2 R xs ys -> In y ys -> exists x, In x xs /\ R x y.
Proof.
  induction 1 as [|x y' xs ys Hxy _ IH]; [contradiction|].
  intros [<- | Hy]; [exists x; split; [now left | exact Hxy]|].
  destruct (IH Hy) as (x0 & Hin & Hr). exists x0. split; [now right | exact Hr].
Qed.

(** A tree that the builder returns for a root has no such node: the
    validation has passed. *)
Lemma built_root_has_no_drift ext b fuel queryName config structFields reg t reg' :
  buildNestedStructData ext b fuel queryName config None structFields reg
  = Some (Ok (t, reg')) ->
  forall m entity, In m (descendants t) -> ~ drifts ext (structs b) m entity.
Proof.
  intros H m entity Hm Hdrift.
  apply buildNestedStructData_Ok in H
    as (fuel' & nestedConfigs & structIn & isAG & reg1 & rowExists
        & nestedStructs & _ & _ & _ & _ & _ & _ & Hval & ->).
  specialize (Hval eq_refl).
  set (t0 := setNestedStructs _ nestedStructs) in *.
  pose proof (allNodes_updateDuplicates t0 []) as Hsame.
  rewrite (allNodes_unfold t0), allNodes_unfold in Hsame.
  inversion Hsame as [|? ? ? ? _ Htl]; subst. fold (descendants t0) in Htl.
  fold (descendants (updateDuplicatesFromNodePerspective t0 [])) in Htl.
  destruct (Forall2_In_right _ _ _ _ _ _ Htl Hm) as (m0 & Hin0 & Hs0).
  apply (sameNode_drifts _ _ _ _ _ Hs0) in Hdrift.
  unfold validateExtractedFields in Hval.
  destruct (match reg' !! gStructOut config with Some _ => _ | None => None end);
    [discriminate|].
  rewrite validateList_first in Hval.
  pose proof (checkCompositeNode_drifts ext (structs b) (gStructOut config)
                m0 entity Hdrift) as Hcheck.
  destruct (firstError_Some _ (checkCompositeNode ext (structs b) (gStructOut config))
              (flat_map allNodes nestedStructs) m0 _ Hin0 Hcheck)
    as (y & e' & _ & _ & Hhead).
  now rewrite Hhead in Hval.
Qed.

(** ** C1: composites and the entities the row embeds *)

Lemma childrenWithParent_unfold t :
  childrenWithParent t
  = flat_map (fun c => (StructOut t, c) :: childrenWithParent c)
             (NestedStructs t).
Proof. destruct t; reflexivity. Qed.

Lemma validateInterfacesNode_unfold p methods rootName n :
  validateNestedCompositeInterfacesNode p methods rootName n
  = let descend :=
      fold_left
        (fun acc child =>
           match acc with
           | Some err => Some err
           | None =>
               validateNestedCompositeInterfacesNode (StructOut n) methods
                 rootName child
           end)
        (NestedStructs n) None in
    match
      (if IsComposite n then
         let nestedMethods := collectCompositeRequiredMethods n in
         let missingMethods := findMissingMethods methods nestedMethods in
         if (0 <? length missingMethods)%nat then
           Some (ErrInterfaceValidation (StructOut n) rootName p
                   (formatMissingMethods missingMethods))
         else descend
       else None)
    with
    | Some err => Some err
    | None => if (0 <? length (NestedStructs n))%nat then descend else None
    end.
Proof. destruct n; reflexivity. Qed.

(** The traversal reports the first error among the nodes below the root,
    parents before children. *)
Lemma validateInterfacesNode_first root rootName n :
  forall p,
    validateNestedCompositeInterfacesNode p (collectRequiredMethods root)
      rootName n
    = firstError (checkInterfaceNode root rootName)
                 ((p, n) :: childrenWithParent n).
Proof.
  induction n as [n IH] using NestedStructData_tree_ind. intros p.
  rewrite validateInterfacesNode_unfold. cbv zeta.
  rewrite firstError_fold.
  rewrite (firstError_flat_map _ (checkInterfaceNode root rootName)
             (fun c => (StructOut n, c) :: childrenWithParent c)).
  2:{ eapply Forall_impl; [exact IH|]. intros c Hc. apply Hc. }
  rewrite <- childrenWithParent_unfold.
  cbn [firstError checkInterfaceNode]. unfold missingMethodsOf.
  destruct (IsComposite n); cbn [andb].
  - destruct (0 <? length _)%nat; [reflexivity|].
    destruct (firstError _ (childrenWithParent n)); [reflexivity|].
    now destruct (0 <? _)%nat.
  - destruct (NestedStructs n) eqn:Hn; [|reflexivity].
    rewrite childrenWithParent_unfold, Hn. reflexivity.
Qed.

Lemma validateInterfaces_first root rootName :
  validateNestedInterfaceCompatibility root rootName
  = firstError (checkInterfaceNode root rootName) (childrenWithParent root).
Proof.
  unfold validateNestedInterfaceCompatibility, validateNestedCompositeInterfaces.
  rewrite firstError_fold.
  rewrite (firstError_flat_map _ (checkInterfaceNode root rootName)
             (fun c => (StructOut root, c) :: childrenWithParent c)).
  - now rewrite <- childrenWithParent_unfold.
  - apply Forall_forall. intros c _. apply validateInterfacesNode_first.
Qed.

(** *** The methods collected *)

Lemma collectMethods_unfold t acc mode :
  collectMethodsRecursive t acc mode
  = fold_left
      (fun acc nestedStruct =>
         collectMethodsRecursive nestedStruct (collectStep mode acc nestedStruct)
           mode)
      (NestedStructs t) acc.
Proof. destruct t; reflexivity. Qed.

Lemma descendants_unfold t :
  descendants t = flat_map (fun c => c :: descendants c) (NestedStructs t).
Proof.
  unfold descendants. induction (NestedStructs t) as [|c cs IH]; [reflexivity|].
  cbn [flat_map]. now rewrite allNodes_unfold, IH.
Qed.

Lemma collectStep_names mode acc c :
  seenNames acc ->
  seenNames (collectStep mode acc c)
  /\ forall name,
       In name (map mMethodName (collectStep mode acc c).1)
       <-> In name (map mMethodName acc.1)
           \/ (includesMethod mode c = true /\ name = "Get" +:+ StructIn c).
Proof.
  destruct acc as [methods seen]. unfold seenNames, collectStep. cbn [fst snd].
  intros Hseen.
  destruct (includesMethod mode c) eqn:Hinc; cbn [andb].
  - destruct (bool_decide ("Get" +:+ StructIn c ∈ seen)) eqn:Hin; cbn [negb fst snd].
    + apply bool_decide_eq_true in Hin. split; [exact Hseen|].
      intros name. split; [tauto|]. intros [H | [_ ->]]; [exact H|].
      now apply Hseen.
    + split.
      * intros name. rewrite map_app, in_app_iff, elem_of_union,
          elem_of_singleton, Hseen. cbn. intuition congruence.
      * intros name. rewrite map_app, in_app_iff. cbn. intuition congruence.
  - cbn [fst snd]. split; [exact Hseen|]. intros name. intuition congruence.
Qed.

(** The names collected below a node are the names collected before and the
    getters of the nodes below it that are taken. *)
Lemma collectMethods_names mode t :
  forall acc,
    seenNames acc ->
    seenNames (collectMethodsRecursive t acc mode)
    /\ forall name,
         In name (map mMethodName (collectMethodsRecursive t acc mode).1)
         <-> In name (map mMethodName acc.1)
             \/ exists d, In d (descendants t)
                          /\ includesMethod mode d = true
                          /\ name = "Get" +:+ StructIn d.
Proof.
  induction t as [t IH] using NestedStructData_tree_ind. intros acc Hacc.
  rewrite collectMethods_unfold, descendants_unfold.
  revert acc Hacc. induction (NestedStructs t) as [|c cs IHcs]; intros acc Hacc.
  - cbn. split; [exact Hacc|]. intros name. split; [tauto|].
    intros [H | (d & [] & _)]. exact H.
  - inversion IH as [|? ? Hc Hcs]; subst. cbn [fold_left flat_map].
    destruct (collectStep_names mode acc c Hacc) as [Hs1 Hn1].
    destruct (Hc _ Hs1) as [Hs2 Hn2].
    destruct (IHcs Hcs _ Hs2) as [Hs3 Hn3].
    split; [exact Hs3|]. intros name. rewrite Hn3, Hn2, Hn1.
    split.
    + intros [[[H | [Hi ->]] | (d & Hd & Hi & ->)] | (d & Hd & Hi & ->)].
      * now left.
      * right. exists c. split; [now left | now split].
      * right. exists d. split; [|now split].
        right. apply in_or_app. now left.
      * right. exists d. split; [|now split].
        right. apply in_or_app. now right.
    + intros [H | (d & [<- | Hd] & Hi & ->)].
      * now left; left; left.
      * left; left; right. now split.
      * apply in_app_or in Hd as [Hd | Hd].
        -- left; right. exists d. now repeat split.
        -- right. exists d. now repeat split.
Qed.

Lemma seenNames_empty : seenNames ([], ∅).
Proof. intros name. cbn. split; [|tauto]. intros H. now apply elem_of_empty in H. Qed.

Lemma collectRequiredMethods_names root name :
  In name (map mMethodName (collectRequiredMethods root))
  <-> exists d, In d (descendants root)
                /\ IsRowFieldExistsInQuery d = true
                /\ name = "Get" +:+ StructIn d.
Proof.
  unfold collectRequiredMethods.
  destruct (collectMethods_names true root ([], ∅) seenNames_empty) as [_ H].
  rewrite H. cbn. split; [intros [[] | H']; exact H' | now right].
Qed.

Lemma collectCompositeRequiredMethods_names n name :
  In name (map mMethodName (collectCompositeRequiredMethods n))
  <-> exists d, In d (descendants n) /\ name = "Get" +:+ StructIn d.
Proof.
  unfold collectCompositeRequiredMethods.
  destruct (collectMethods_names false n ([], ∅) seenNames_empty) as [_ H].
  rewrite H. cbn. split.
  - intros [[] | (d & Hd & _ & ->)]. now exists d.
  - intros (d & Hd & ->). right. now exists d.
Qed.

Lemma findMissingMethods_names available required name :
  In name (map mMethodName (findMissingMethods available required))
  <-> In name (map mMethodName required)
      /\ ~ In name (map mMethodName available).
Proof.
  unfold findMissingMethods. split.
  - intros H. apply in_map_iff in H as (m & <- & Hm).
    apply filter_In in Hm as [Hm Hnot].
    split; [now apply in_map|]. apply negb_true_iff, bool_decide_eq_false in Hnot.
    intros Hin. apply Hnot, elem_of_list_to_set, list_elem_of_In. exact Hin.
  - intros [H Hnot]. apply in_map_iff in H as (m & <- & Hm).
    apply in_map, filter_In. split; [exact Hm|].
    apply negb_true_iff, bool_decide_eq_false. intros Hin. apply Hnot.
    now apply elem_of_list_to_set, list_elem_of_In in Hin.
Qed.

Lemma getter_name_inj a b : "Get" +:+ a = "Get" +:+ b -> a = b.
Proof. intros H. now injection H. Qed.

(** An entity that a composite needs and that no row field offers is among
    the methods found missing. *)
Lemma missingMethodsOf_required root n d :
  In d (descendants n) -> notEmbedded root d ->
  In ("Get" +:+ StructIn d) (map mMethodName (missingMethodsOf root n)).
Proof.
  intros Hd Hnot. unfold missingMethodsOf. apply findMissingMethods_names. split.
  - apply collectCompositeRequiredMethods_names. now exists d.
  - intros Hin. apply collectRequiredMethods_names in Hin as (d' & Hd' & Hrow & Heq).
    apply getter_name_inj in Heq. now apply (Hnot d' Hd' Hrow).
Qed.

Lemma buildNestedData_tree ext b fuel query config reg :
  itemTree (buildNestedData ext b fuel query config reg)
  = builtTree (buildRootStructData ext b fuel query config reg).
Proof.
  unfold buildNestedData.
  now destruct (buildRootStructData ext b fuel query config reg)
    as [[[t reg']| |]|].
Qed.

(** C1 (as amended).  [validateNestedInterfaceCompatibility], run from the
    root of a tree in which a reference to a composite needs an entity that no
    row field of the tree offers, returns an error: the error names a
    composite and lists the getters it misses; the getter of the entity is
    among those the reference misses; and the error is that of the reference
    itself when no node before it in the tree fails the check.  But
    [buildNestedData] does not run the check: the item it returns carries the
    tree whenever the tree of the root has been built. *)
Theorem interface_check_reports_but_is_not_run
    t rootStructName pre p n post d ext b fuel query config reg :
  childrenWithParent t = pre ++ (p, n) :: post ->
  IsComposite n = true ->
  In d (descendants n) ->
  notEmbedded t d ->
  (exists e,
      validateNestedInterfaceCompatibility t rootStructName = Some e
      /\ (exists p' m,
             In (p', m) (childrenWithParent t)
             /\ IsComposite m = true
             /\ missingMethodsOf t m <> []
             /\ e = ErrInterfaceValidation (StructOut m) rootStructName p'
                      (formatMissingMethods (missingMethodsOf t m)))
      /\ In ("Get" +:+ StructIn d) (map mMethodName (missingMethodsOf t n))
      /\ (Forall (fun x => checkInterfaceNode t rootStructName x = None) pre ->
          e = ErrInterfaceValidation (StructOut n) rootStructName p
                (formatMissingMethods (missingMethodsOf t n))))
  /\ itemTree (buildNestedData ext b fuel query config reg)
     = builtTree (buildRootStructData ext b fuel query config reg).
Proof.
  intros Hpos Hc Hd Hnot. split; [|apply buildNestedData_tree].
  pose proof (missingMethodsOf_required t n d Hd Hnot) as Hmiss.
  assert (Hcheck : checkInterfaceNode t rootStructName (p, n)
                   = Some (ErrInterfaceValidation (StructOut n) rootStructName p
                             (formatMissingMethods (missingMethodsOf t n)))).
  { cbn [checkInterfaceNode]. rewrite Hc.
    destruct (missingMethodsOf t n); [contradiction | reflexivity]. }
  rewrite validateInterfaces_first.
  assert (Hin : In (p, n) (childrenWithParent t)).
  { rewrite Hpos. apply in_or_app. right. now left. }
  destruct (firstError_Some _ (checkInterfaceNode t rootStructName) _ _ _ Hin Hcheck)
    as ([p' m] & e & Hm & Hcm & Hfirst).
  exists e. split; [exact Hfirst|]. split; [|split; [exact Hmiss|]].
  - exists p', m. split; [exact Hm|]. cbn [checkInterfaceNode] in Hcm.
    destruct (IsComposite m); [|discriminate]. split; [reflexivity|].
    destruct (missingMethodsOf t m) as [|x xs] eqn:Hx; [discriminate|].
    split; [discriminate|]. cbn in Hcm. now injection Hcm as <-.
  - intros Hpre. rewrite Hpos in Hfirst.
    rewrite (firstError_first _ _ pre (p, n) post _ Hpre Hcheck) in Hfirst.
    now injection Hfirst as <-.
Qed.

Lemma exImage_notEmbedded : notEmbedded exPostRoot exImageNode.
Proof.
  intros d' [<- | [<- | []]] Hrow; [discriminate | discriminate Hrow].
Qed.

Lemma interface_check_reports_but_is_not_run_witness :
  childrenWithParent exPostRoot
  = [] ++ ("PostComposite", exUserNode) :: [("UserComposite", exImageNode)]
  /\ IsComposite exUserNode = true
  /\ In exImageNode (descendants exUserNode)
  /\ notEmbedded exPostRoot exImageNode
  /\ (exists e,
         validateNestedInterfaceCompatibility exPostRoot "PostComposite" = Some e
         /\ (exists p' m,
                In (p', m) (childrenWithParent exPostRoot)
                /\ IsComposite m = true
                /\ missingMethodsOf exPostRoot m <> []
                /\ e = ErrInterfaceValidation (StructOut m) "PostComposite" p'
                         (formatMissingMethods (missingMethodsOf exPostRoot m)))
         /\ In ("Get" +:+ StructIn exImageNode)
               (map mMethodName (missingMethodsOf exPostRoot exUserNode))
         /\ (Forall (fun x => checkInterfaceNode exPostRoot "PostComposite" x = None)
                    [] ->
             e = ErrInterfaceValidation (StructOut exUserNode) "PostComposite"
                   "PostComposite"
                   (formatMissingMethods (missingMethodsOf exPostRoot exUserNode))))
  /\ itemTree (buildNestedData exExt exBuilder 5 exPostsQuery exPostsConfig
                 exRegistry)
     = builtTree (buildRootStructData exExt exBuilder 5 exPostsQuery exPostsConfig
                    exRegistry).
Proof.
  assert (H1 : childrenWithParent exPostRoot
               = [] ++ ("PostComposite", exUserNode)
                       :: [("UserComposite", exImageNode)]) by reflexivity.
  assert (H2 : IsComposite exUserNode = true) by reflexivity.
  assert (H3 : In exImageNode (descendants exUserNode)) by (now left).
  split; [exact H1|]. split; [exact H2|]. split; [exact H3|].
  split; [exact exImage_notEmbedded|].
  exact (interface_check_reports_but_is_not_run exPostRoot "PostComposite" []
           "PostComposite" exUserNode [("UserComposite", exImageNode)]
           exImageNode exExt exBuilder 5 exPostsQuery exPostsConfig exRegistry
           H1 H2 H3 exImage_notEmbedded).
Defined.

(** C1 (as stated) fails: [GetPosts] reuses [UserComposite], which needs the
    entity [Image]; the row of [GetPosts] does not embed it; and the tree of
    [GetPosts] is built all the same, although the check, run on it, reports
    the missing getter. *)
Lemma incompatible_composite_is_built :
  map (fun t => validateNestedInterfaceCompatibility t (StructOut t))
      (builtTrees (generateNested exExt 10 exOptions exQueries exStructs ∅))
  = [Some (ErrInterfaceValidation "UserComposite" "PostComposite" "PostComposite"
             "[GetImage() entity.Image]")].
Proof. vm_compute. reflexivity. Qed.

(** ** C6: a composite is defined once *)










(** *** The roots *)

Lemma root_flags_updateDuplicates t anc :
  IsRoot (updateDuplicatesFromNodePerspective t anc) = IsRoot t
  /\ SkipStructGeneration (updateDuplicatesFromNodePerspective t anc)
     = SkipStructGeneration t.
Proof.
  pose proof (shallow_updateDuplicates t anc) as Hs.
  split; [exact (f_equal IsRoot Hs) | exact (f_equal SkipStructGeneration Hs)].
Qed.


(** *** The run *)










(** Two queries of one file that refer to [UserComposite]: the reference of
    the first defines it, the reference of the second is marked to skip. *)
Example shared_composite_defined_by_first_query :
  map (fun t => map (fun n => (StructOut n, IsRoot n, SkipStructGeneration n))
                    (allNodes t))
      (builtTrees (generateNested exExt 10 exSharedOptions exSharedQueries
                     exSharedStructs ∅))
  = [ [("PostComposite", true, false); ("UserComposite", false, false)];
      [("CommentComposite", true, false); ("UserComposite", false, true)] ].
Proof. vm_compute. reflexivity. Qed.


(** * Further properties *)

(** ** Naming: snake case, Pascal case and camel case *)

Section NamingMore.

Local Ltac all_ascii :=
  let c := fresh "c" in
  intros c; destruct c as [[|] [|] [|] [|] [|] [|] [|] [|]];
  vm_compute; intros; try discriminate; try reflexivity; auto.

Lemma lowerChar_not_upper : forall c, isUpperAZ (lowerChar c) = false.
Proof. all_ascii. Qed.






(** The round trip fails when a word before the last is an initialism. *)
Example PascalToSnakeCase_loses_initialism_boundary :
  PascalToSnakeCase (ToPascalCaseWithInitialisms "api_key") = "apikey".
Proof. reflexivity. Qed.

(** [ToCamelCase] never returns a string that starts with a letter in
    A-Z. *)
Lemma ToCamelCase_starts_lower (s : string) :
  startsUpper (ToCamelCase s) = false.
Proof.
  unfold ToCamelCase.
  destruct s as [|c r].
  - reflexivity.
  - destruct (isUpperAZ c && negb (containsUnderscore (String c r))).
    + simpl. apply lowerChar_not_upper.
    + destruct (ToPascalCaseWithInitialisms (String c r)) as [|d t];
        [reflexivity|].
      simpl. apply lowerChar_not_upper.
Qed.

Lemma Join_snake_head (parts : list string) :
  isSnakeWords parts = true -> startsUpper (Join parts "_") = false.
Proof.
  destruct parts as [|w rest]; [discriminate|].
  intros H. apply isSnakeWords_cons in H as [Hw _].
  destruct w as [|c r]; [discriminate|].
  simpl in Hw. apply andb_prop in Hw as [Hc _].
  destruct rest; simpl; now apply lower_not_upper.
Qed.

(** X3.  A name gets the same camel case whether it is given in snake case
    or in the Pascal case that [ToPascalCaseWithInitialisms] makes of it. *)
Theorem ToCamelCase_snake_and_pascal_agree (parts : list string) :
  isSnakeWords parts = true ->
  ToCamelCase (ToPascalCaseWithInitialisms (Join parts "_"))
  = ToCamelCase (Join parts "_").
Proof.
  intros H. pose proof (isSnakeWords_Forall parts H) as Hall.
  rewrite (ToPascalCaseWithInitialisms_snake parts H).
  destruct (pascalConcat_head parts H) as (d & r & Heq & Hd).
  pose proof (containsUnderscore_pascalConcat parts Hall) as Hu.
  pose proof (Join_snake_head parts H) as Hj.
  unfold ToCamelCase at 2.
  rewrite (ToPascalCaseWithInitialisms_snake parts H).
  destruct (Join parts "_") as [|c t] eqn:Ej.
  - exfalso. pose proof (Join_snake_nonempty parts H) as Hn.
    rewrite Ej in Hn. discriminate.
  - simpl in Hj. rewrite Hj. cbn [andb].
    unfold ToCamelCase. rewrite Heq in *. rewrite Hd, Hu. reflexivity.
Qed.

Lemma ToCamelCase_snake_and_pascal_agree_witness :
  isSnakeWords ["user"; "profile"; "id"] = true
  /\ ToCamelCase (ToPascalCaseWithInitialisms "user_profile_id")
     = ToCamelCase "user_profile_id".
Proof.
  split; [reflexivity|].
  exact (ToCamelCase_snake_and_pascal_agree ["user"; "profile"; "id"] eq_refl).
Defined.

End NamingMore.

(** ** The names of the fields *)

Lemma isSnakeWords_snoc (init : list string) (w w' : string) :
  isSnakeWords (init ++ [w]) = true -> isWord w' = true ->
  isSnakeWords (init ++ [w']) = true.
Proof.
  induction init as [|p init IH]; intros H Hw'.
  - exact Hw'.
  - change ((p :: init) ++ [w]) with (p :: (init ++ [w])) in H.
    change ((p :: init) ++ [w']) with (p :: (init ++ [w'])).
    destruct (init ++ [w]) as [|x xs] eqn:E1; [now destruct init|].
    destruct (init ++ [w']) as [|y ys] eqn:E2; [now destruct init|].
    cbn [isSnakeWords] in H |- *.
    apply andb_prop in H as [Hp Hr].
    rewrite Hp. cbn [andb]. now apply IH.
Qed.

Lemma inflectCasePreserving_last_word (init : list string) (w : string)
    (inflectFunc : string -> string) :
  isSnakeWords (init ++ [w]) = true ->
  isWord (inflectFunc w) = true ->
  inflectCasePreserving (pascalConcat (init ++ [w])) inflectFunc
  = pascalConcat (init ++ [inflectFunc w]).
Proof.
  intros H Hw'.
  pose proof (isSnakeWords_Forall _ H) as Hall.
  destruct (pascalConcat_head _ H) as (d & s & Heq & Hd).
  pose proof (containsUnderscore_pascalConcat _ Hall) as Hu.
  pose proof (PascalToSnakeCase_pascalConcat _ H) as Hsnake.
  assert (Hparts : splitUnderscore (Join (init ++ [w]) "_") = init ++ [w]).
  { apply splitUnderscore_Join.
    - now destruct init.
    - eapply Forall_impl; [exact Hall|]. intros p Hp.
      now apply containsUnderscore_word_chars, isWord_chars. }
  unfold inflectCasePreserving.
  rewrite Heq. rewrite Hd. rewrite <- Heq.
  rewrite Hu. unfold PascalToSnakeCase.
  replace (String.eqb (pascalConcat (init ++ [w])) "") with false
    by (rewrite Heq; reflexivity).
  rewrite Hsnake. cbv zeta. rewrite Hparts.
  destruct init as [|p init].
  - cbn [app length Nat.ltb Nat.leb].
    cbn [pascalConcat]. rewrite append_empty_r.
    apply Forall_inv in Hall. rewrite (ToLower_pascalPart w Hall).
    change (inflectFunc w) with (Join [inflectFunc w] "_").
    rewrite (ToPascalCaseWithInitialisms_snake [inflectFunc w] Hw').
    reflexivity.
  - replace (1 <? length ((p :: init) ++ [w]))%nat with true.
    2:{ symmetry. apply Nat.ltb_lt. rewrite length_app. simpl. lia. }
    rewrite removelast_last, last_last.
    apply ToPascalCaseWithInitialisms_snake.
    now apply (isSnakeWords_snoc _ w).
Qed.

(** X4.  Without [field_out], the field name of a node is its [struct_in] with
    the last word inflected: for a Pascal-case [struct_in] of snake-case
    words, [getFieldNameFromNestedConfig] keeps every word but the last and
    replaces the last by its plural (a slice) or singular (otherwise), again
    in Pascal case. *)
Theorem getFieldNameFromNestedConfig_inflects_last_word (ext : Externals)
    (nested : NestedGroupConfig) (init : list string) (w : string) :
  gFieldOut nested = "" ->
  gStructIn nested = pascalConcat (init ++ [w]) ->
  isSnakeWords (init ++ [w]) = true ->
  isWord (inflectionOf ext nested w) = true ->
  getFieldNameFromNestedConfig ext nested
  = pascalConcat (init ++ [inflectionOf ext nested w]).
Proof.
  intros Hout Hin H Hw'.
  unfold getFieldNameFromNestedConfig, inflectionOf in *.
  rewrite Hout. cbn [String.eqb]. rewrite Hin.
  unfold PluralizeCasePreserving, SingularizeCasePreserving.
  destruct (match gIsSlice nested with None => true | Some v => v end);
    now apply inflectCasePreserving_last_word.
Qed.

Lemma getFieldNameFromNestedConfig_inflects_last_word_witness :
  isSnakeWords (["book"] ++ ["review"]) = true
  /\ getFieldNameFromNestedConfig exExt (groupNode "BookReview" "" None [])
     = "BookReviews".
Proof.
  split; [reflexivity|].
  exact (getFieldNameFromNestedConfig_inflects_last_word exExt
           (groupNode "BookReview" "" None []) ["book"] "review"
           eq_refl eq_refl eq_refl eq_refl).
Defined.

(** The last word may be an initialism, the words before it may not: the
    plural of [UserID] is that of [id]. *)
Example getFieldNameFromNestedConfig_initialism :
  getFieldNameFromNestedConfig exExt (groupNode "UserID" "" None []) = "UserIds".
Proof. vm_compute. reflexivity. Qed.

(** ** The default values *)

Lemma populateItem_idempotent (config : NestedGroupConfig) :
  populateNestedConfigItemWithDefaultValues
    (populateNestedConfigItemWithDefaultValues config)
  = populateNestedConfigItemWithDefaultValues config.
Proof.
  destruct config as [fgb fo si so sl pt cp grp ms].
  unfold populateNestedConfigItemWithDefaultValues. cbn.
  f_equal.
  - destruct (String.eqb fgb "") eqn:E; [reflexivity | now rewrite E].
  - destruct (String.eqb so "") eqn:E; [|now rewrite E].
    destruct (String.eqb si "") eqn:E'; [|reflexivity].
    apply String.eqb_eq in E'. now subst.
  - rewrite map_map. apply map_ext. intros [fs ff ts tf]. cbn.
    destruct fs, ff, tf; reflexivity.
Qed.

(** X5.  The defaults are idempotent: a configuration that has its default
    values is left as it is by [populateNestedConfigWithDefaultValues]. *)
Theorem populateNestedConfigWithDefaultValues_idempotent (options : Options) :
  populateNestedConfigWithDefaultValues
    (populateNestedConfigWithDefaultValues options)
  = populateNestedConfigWithDefaultValues options.
Proof.
  destruct options as [ej ep pkg [[cs qs]|]]; [|reflexivity].
  unfold populateNestedConfigWithDefaultValues. cbn.
  rewrite !map_map. do 3 f_equal.
  - apply map_ext. intros [n r g]. cbn. f_equal.
    rewrite map_map. apply map_ext, populateItem_idempotent.
  - apply map_ext. intros [q f r g c]. cbn. f_equal.
    rewrite map_map. apply map_ext, populateItem_idempotent.
Qed.

Lemma populateItem_explicit (config : NestedGroupConfig) :
  isExplicit (populateNestedConfigItemWithDefaultValues config).
Proof.
  destruct config as [fgb fo si so sl pt cp grp ms].
  unfold isExplicit, populateNestedConfigItemWithDefaultValues. cbn.
  split; [eauto|]. split; [eauto|]. split; [eauto|].
  split; [|split].
  - destruct (String.eqb fgb "") eqn:E; [discriminate|].
    now apply String.eqb_neq.
  - destruct (String.eqb so "") eqn:E; [auto|].
    apply String.eqb_neq in E. intros; contradiction.
  - apply List.Forall_forall. intros m Hm. apply in_map_iff in Hm as (m0 & <- & _).
    cbn. destruct (FromStruct m0), (FromField m0), (ToField m0); eauto.
Qed.

Lemma firstLevelGroups_populate (options : Options) :
  firstLevelGroups (populateNestedConfigWithDefaultValues options)
  = map populateNestedConfigItemWithDefaultValues (firstLevelGroups options).
Proof.
  destruct options as [ej ep pkg [[cs qs]|]]; [|reflexivity].
  unfold firstLevelGroups, populateNestedConfigWithDefaultValues. cbn.
  rewrite map_app. f_equal.
  - induction qs as [|q qs IH]; [reflexivity|]. cbn. rewrite map_app. now f_equal.
  - induction cs as [|c cs IH]; [reflexivity|]. cbn. rewrite map_app. now f_equal.
Qed.

(** X6.  After [populateNestedConfigWithDefaultValues] every node at the first
    level of a query or of a composite has all its options set, a grouping
    field, and match rules without gaps; and on such a node the accessor
    [GetIsComposite] and the inline test [IsComposite != nil && *IsComposite]
    read the same value. *)
Theorem defaults_make_first_level_explicit (options : Options)
    (config : NestedGroupConfig) :
  In config (firstLevelGroups (populateNestedConfigWithDefaultValues options)) ->
  isExplicit config /\ GetIsComposite config = isCompositeSet config.
Proof.
  rewrite firstLevelGroups_populate. intros H.
  apply in_map_iff in H as (c0 & <- & _). split.
  - apply populateItem_explicit.
  - reflexivity.
Qed.

Lemma defaults_make_first_level_explicit_witness :
  In exBareUserDefaults
     (firstLevelGroups (populateNestedConfigWithDefaultValues exBareOptions))
  /\ isExplicit exBareUserDefaults
  /\ GetIsComposite exBareUserDefaults = isCompositeSet exBareUserDefaults.
Proof.
  assert (Hin : In exBareUserDefaults
     (firstLevelGroups (populateNestedConfigWithDefaultValues exBareOptions))).
  { left. reflexivity. }
  split; [exact Hin|].
  exact (defaults_make_first_level_explicit exBareOptions exBareUserDefaults Hin).
Defined.

(** ** The sources of a request *)

Section Sources.

Variable qs : list Query.

Lemma addConfigToSource_names sources f c :
  map SourceFileName (addConfigToSource sources f c) = map SourceFileName sources.
Proof.
  induction sources as [|s rest IH]; [reflexivity|]. simpl.
  destruct (String.eqb (SourceFileName s) f); [reflexivity|].
  simpl. now rewrite IH.
Qed.

Lemma addConfigToSource_each sources f c :
  List.NoDup (map SourceFileName sources) ->
  Forall2 (fun s s' =>
             SourceFileName s' = SourceFileName s
             /\ NestedDataItems s' = NestedDataItems s
             /\ Configs s' = if String.eqb (SourceFileName s) f
                             then Configs s ++ [c] else Configs s)
          sources (addConfigToSource sources f c).
Proof.
  induction sources as [|s rest IH]; intros Hnd; [constructor|].
  simpl in *. apply List.NoDup_cons_iff in Hnd as [Hnot Hnd].
  destruct (String.eqb (SourceFileName s) f) eqn:E.
  - constructor; [simpl; now rewrite E|].
    apply String.eqb_eq in E. subst f.
    clear IH Hnd. induction rest as [|r rest IH]; constructor.
    + destruct (String.eqb (SourceFileName r) (SourceFileName s)) eqn:E;
        [|auto].
      apply String.eqb_eq in E. exfalso. apply Hnot. left. exact E.
    + apply IH. intros Hin. apply Hnot. now right.
  - constructor; [now rewrite E | now apply IH].
Qed.

Lemma configsOfFile_snoc file processed c :
  configsOfFile qs file (processed ++ [c])
  = configsOfFile qs file processed
    ++ (if String.eqb (sourceFileOf qs c) file then [c] else []).
Proof. unfold configsOfFile. rewrite List.filter_app. reflexivity. Qed.

Lemma configsOfFile_absent file processed :
  (forall c, In c processed -> sourceFileOf qs c <> file) ->
  configsOfFile qs file processed = [].
Proof.
  induction processed as [|c rest IH]; intros H; [reflexivity|].
  unfold configsOfFile in *. simpl.
  destruct (String.eqb (sourceFileOf qs c) file) eqn:E.
  - apply String.eqb_eq in E. exfalso. apply (H c); [now left | exact E].
  - apply IH. intros c' Hc'. apply H. now right.
Qed.

Lemma addSourceConfig_invariant processed acc c :
  sourcesInvariant qs processed acc ->
  sourcesInvariant qs (processed ++ [c]) (addSourceConfig qs acc c).
Proof.
  destruct acc as [sources seen].
  intros (Hseen & Hnd & Hall & Hcov). simpl in *.
  unfold addSourceConfig. fold (sourceFileOf qs c).
  destruct (String.eqb (sourceFileOf qs c) "") eqn:Eempty.
  - (* no source file: the configuration is dropped *)
    apply String.eqb_eq in Eempty.
    unfold sourcesInvariant; cbn [fst snd].
    split; [exact Hseen|]. split; [exact Hnd|]. split.
    + eapply List.Forall_impl; [|exact Hall]. simpl.
      intros s (Hne & Hc & Hnn & Hitems).
      repeat split; auto.
      rewrite configsOfFile_snoc, Eempty.
      destruct (String.eqb "" (SourceFileName s)) eqn:E.
      * apply String.eqb_eq in E. congruence.
      * now rewrite app_nil_r.
    + intros c' [Hin | [<- | []]]%in_app_iff Hk; [now apply Hcov | congruence].
  - apply String.eqb_neq in Eempty.
    destruct (bool_decide (sourceFileOf qs c ∈ seen)) eqn:Eseen; simpl.
    + (* the file has its entry: the configuration is added to it *)
      apply bool_decide_eq_true in Eseen.
      pose proof (addConfigToSource_each sources (sourceFileOf qs c) c Hnd) as Heach.
      unfold sourcesInvariant; cbn [fst snd].
      split; [|split; [|split]].
      * intros f. rewrite addConfigToSource_names. apply Hseen.
      * now rewrite addConfigToSource_names.
      * clear Hcov Hseen Eseen Hnd.
        induction Heach as [|s s' l l' (Hn & Hi & Hc) _ IH]; [constructor|].
        apply List.Forall_cons_iff in Hall as [(Hne & Hcs & Hnn & Hitems) Hall].
        constructor; [|now apply IH].
        rewrite Hn, Hi, Hc, configsOfFile_snoc.
        rewrite (String.eqb_sym (sourceFileOf qs c)).
        repeat split; auto.
        -- destruct (String.eqb (SourceFileName s) (sourceFileOf qs c));
             [now rewrite Hcs | now rewrite app_nil_r].
        -- destruct (String.eqb (SourceFileName s) (sourceFileOf qs c)); auto.
           now destruct (Configs s).
      * rewrite addConfigToSource_names.
        intros c' [Hin | [<- | []]]%in_app_iff Hk; [now apply Hcov|].
        now apply Hseen.
    + (* the first configuration of the file: a new entry *)
      apply bool_decide_eq_false in Eseen.
      assert (Hnew : ~ In (sourceFileOf qs c) (map SourceFileName sources)).
      { intros Hin. apply Eseen, Hseen, Hin. }
      unfold sourcesInvariant; cbn [fst snd].
      split; [|split; [|split]].
      * intros f. rewrite map_app, in_app_iff. simpl.
        rewrite elem_of_union, elem_of_singleton, Hseen. intuition congruence.
      * rewrite map_app. simpl. apply List.NoDup_app; [exact Hnd | |].
        -- constructor; [intros [] | constructor].
        -- intros f Hf [<-|[]]. now apply Hnew.
      * apply List.Forall_app. split.
        -- rewrite List.Forall_forall in Hall |- *.
           intros s Hs. destruct (Hall s Hs) as (Hne & Hcs & Hnn & Hitems).
           repeat split; auto.
           rewrite configsOfFile_snoc.
           destruct (String.eqb (sourceFileOf qs c) (SourceFileName s)) eqn:E.
           ++ apply String.eqb_eq in E. exfalso. apply Hnew. rewrite E.
              now apply in_map.
           ++ now rewrite app_nil_r.
        -- constructor; [|constructor]. simpl.
           split; [exact Eempty|]. split; [|split; [discriminate | reflexivity]].
           rewrite configsOfFile_snoc, String.eqb_refl.
           rewrite configsOfFile_absent; [reflexivity|].
           intros c' Hc' Heq. apply Hnew. rewrite <- Heq.
           apply Hcov; [exact Hc' | congruence].
      * intros c' [Hin | [<- | []]]%in_app_iff Hk;
          rewrite map_app, in_app_iff; [left; now apply Hcov | right; now left].
Qed.

Lemma sourcesInvariant_start : sourcesInvariant qs [] ([], ∅).
Proof.
  split; [|split; [|split]]; simpl.
  - intros f. rewrite elem_of_empty. tauto.
  - constructor.
  - constructor.
  - intros c [].
Qed.

Lemma sourcesInvariant_fold configs processed acc :
  sourcesInvariant qs processed acc ->
  sourcesInvariant qs (processed ++ configs)
                   (fold_left (addSourceConfig qs) configs acc).
Proof.
  revert processed acc. induction configs as [|c rest IH]; intros processed acc H.
  - now rewrite app_nil_r.
  - simpl. replace (processed ++ c :: rest) with ((processed ++ [c]) ++ rest)
      by now rewrite <- app_assoc.
    apply IH, addSourceConfig_invariant, H.
Qed.

End Sources.

Lemma getNestedSourceWithConfigs_invariant opts qs nestedCfg :
  Nested opts = Some nestedCfg ->
  exists seen,
    sourcesInvariant qs (Queries nestedCfg)
                     (getNestedSourceWithConfigs opts qs, seen).
Proof.
  intros Hn. unfold getNestedSourceWithConfigs. rewrite Hn.
  pose proof (sourcesInvariant_fold qs (Queries nestedCfg) [] ([], ∅)
                (sourcesInvariant_start qs)) as H. simpl in H.
  destruct (fold_left _ _ _) as [sources seen]. now exists seen.
Qed.

(** X7.  [getNestedSourceWithConfigs] groups the configurations by source
    file: no file is listed twice, and the source of a file holds the
    configurations whose query lies in that file, all of them, in the order
    of the configuration, and at least one; it has no data items yet. *)
Theorem getNestedSourceWithConfigs_groups_by_file (opts : Options)
    (qs : list Query) (nestedCfg : NestedConfig) :
  Nested opts = Some nestedCfg ->
  List.NoDup (map SourceFileName (getNestedSourceWithConfigs opts qs))
  /\ List.Forall
       (fun src =>
          SourceFileName src <> ""
          /\ Configs src
             = configsOfFile qs (SourceFileName src) (Queries nestedCfg)
          /\ Configs src <> []
          /\ NestedDataItems src = [])
       (getNestedSourceWithConfigs opts qs).
Proof.
  intros Hn.
  destruct (getNestedSourceWithConfigs_invariant opts qs nestedCfg Hn)
    as (seen & _ & Hnd & Hall & _). simpl in Hnd, Hall. now split.
Qed.

Lemma getNestedSourceWithConfigs_groups_by_file_witness :
  map SourceFileName (getNestedSourceWithConfigs exSourceOptions exSourceQueries)
  = ["posts.sql"; "users.sql"]
  /\ List.NoDup
       (map SourceFileName
          (getNestedSourceWithConfigs exSourceOptions exSourceQueries))
  /\ List.Forall
       (fun src =>
          SourceFileName src <> ""
          /\ Configs src
             = configsOfFile exSourceQueries (SourceFileName src)
                 [ queryConfigFor "GetPosts"; queryConfigFor "GetUsers";
                   queryConfigFor "GetOrders"; queryConfigFor "ListPosts" ]
          /\ Configs src <> []
          /\ NestedDataItems src = [])
       (getNestedSourceWithConfigs exSourceOptions exSourceQueries).
Proof.
  split; [reflexivity|].
  exact (getNestedSourceWithConfigs_groups_by_file exSourceOptions
           exSourceQueries _ eq_refl).
Defined.

(** X8.  A configuration is dropped by [getNestedSourceWithConfigs] only when
    no source file is found for it: every configuration whose query is found
    in a file with a name belongs to the source of that file. *)
Theorem getNestedSourceWithConfigs_keeps_known (opts : Options)
    (qs : list Query) (nestedCfg : NestedConfig) (config : NestedQueryConfig) :
  Nested opts = Some nestedCfg ->
  In config (Queries nestedCfg) ->
  sourceFileOf qs config <> "" ->
  exists src,
    In src (getNestedSourceWithConfigs opts qs)
    /\ SourceFileName src = sourceFileOf qs config
    /\ In config (Configs src).
Proof.
  intros Hn Hin Hk.
  destruct (getNestedSourceWithConfigs_invariant opts qs nestedCfg Hn)
    as (seen & _ & _ & Hall & Hcov). simpl in *.
  apply (Hcov config Hin) in Hk. apply in_map_iff in Hk as (src & Hname & Hsrc).
  exists src. split; [exact Hsrc|]. split; [exact Hname|].
  rewrite List.Forall_forall in Hall.
  destruct (Hall src Hsrc) as (_ & -> & _).
  unfold configsOfFile. apply List.filter_In. split; [exact Hin|].
  rewrite Hname. apply String.eqb_refl.
Qed.

Lemma getNestedSourceWithConfigs_keeps_known_witness :
  exists src,
    In src (getNestedSourceWithConfigs exSourceOptions exSourceQueries)
    /\ SourceFileName src = "posts.sql"
    /\ In (queryConfigFor "ListPosts") (Configs src).
Proof.
  refine (getNestedSourceWithConfigs_keeps_known exSourceOptions exSourceQueries
            _ (queryConfigFor "ListPosts") eq_refl _ _).
  - simpl. auto.
  - discriminate.
Defined.

(** The configuration for [GetOrders], a query that does not exist, is in no
    source. *)
Example unknown_query_has_no_source :
  map (fun src => (SourceFileName src, map qcQuery (Configs src)))
      (getNestedSourceWithConfigs exSourceOptions exSourceQueries)
  = [ ("posts.sql", ["GetPosts"; "ListPosts"]); ("users.sql", ["GetUsers"]) ].
Proof. vm_compute. reflexivity. Qed.

(** ** The names of the generated files *)

Section FileNames.

Local Ltac app_simpl :=
  repeat match goal with
         | |- context [String ?x ?a +:+ ?b] =>
             change (String x a +:+ b) with (String x (a +:+ b))
         | |- context [EmptyString +:+ ?b] => change (EmptyString +:+ b) with b
         end.

Local Ltac ssimpl := app_simpl; simpl; app_simpl.

Lemma length_append (a b : string) :
  String.length (a +:+ b) = (String.length a + String.length b)%nat.
Proof. induction a as [|c a IH]; ssimpl; [reflexivity | now rewrite IH]. Qed.

Lemma substring_all (s : string) : substring 0 (String.length s) s = s.
Proof. induction s as [|c s IH]; simpl; [reflexivity | now rewrite IH]. Qed.

Lemma substring_prefix (a b : string) :
  substring 0 (String.length a) (a +:+ b) = a.
Proof.
  induction a as [|c a IH]; ssimpl.
  - now destruct b.
  - now rewrite IH.
Qed.

Lemma substring_suffix (a b : string) :
  substring (String.length a) (String.length b) (a +:+ b) = b.
Proof.
  induction a as [|c a IH]; ssimpl; [apply substring_all | exact IH].
Qed.

Lemma HasSuffix_append (a suffix : string) : HasSuffix (a +:+ suffix) suffix = true.
Proof.
  unfold HasSuffix. rewrite length_append.
  replace (String.length a + String.length suffix - String.length suffix)%nat
    with (String.length a) by lia.
  rewrite substring_suffix, String.eqb_refl.
  apply andb_true_iff. split; [apply Nat.leb_le; lia | reflexivity].
Qed.

Lemma TrimSuffix_append (a suffix : string) : TrimSuffix (a +:+ suffix) suffix = a.
Proof.
  unfold TrimSuffix. rewrite HasSuffix_append, length_append.
  replace (String.length a + String.length suffix - String.length suffix)%nat
    with (String.length a) by lia.
  apply substring_prefix.
Qed.

Lemma substring_split (n : nat) (s : string) :
  (n <= String.length s)%nat ->
  s = substring 0 n s +:+ substring n (String.length s - n) s.
Proof.
  revert n. induction s as [|c s IH]; intros [|n] Hn; simpl in *; try lia.
  - reflexivity.
  - ssimpl. now rewrite substring_all.
  - ssimpl. f_equal. apply IH. lia.
Qed.

Lemma HasSuffix_inv (s suffix : string) :
  HasSuffix s suffix = true -> exists a, s = a +:+ suffix.
Proof.
  unfold HasSuffix. intros [Hlen Heq]%andb_prop.
  apply Nat.leb_le in Hlen. apply String.eqb_eq in Heq.
  exists (substring 0 (String.length s - String.length suffix) s).
  pose proof (substring_split (String.length s - String.length suffix) s
                ltac:(lia)) as Hs.
  replace (String.length s - (String.length s - String.length suffix))%nat
    with (String.length suffix) in Hs by lia.
  rewrite Heq in Hs. exact Hs.
Qed.

Lemma HasPrefix_append (p rest : string) : HasPrefix (p +:+ rest) p = true.
Proof.
  induction p as [|c p IH]; ssimpl; [reflexivity|].
  now rewrite Ascii.eqb_refl, IH.
Qed.

Lemma Index_append_Some (a b p : string) :
  HasPrefix b p = true -> exists i, Index (a +:+ b) p = Some i.
Proof.
  intros H. induction a as [|c a (i & IH)]; ssimpl.
  - exists 0%nat. destruct b; simpl; now rewrite H.
  - destruct (HasPrefix (String c (a +:+ b)) p); [now eauto|].
    rewrite IH. now eauto.
Qed.

Lemma Contains_append (a p rest : string) : Contains (a +:+ p +:+ rest) p = true.
Proof.
  unfold Contains.
  destruct (Index_append_Some a (p +:+ rest) p (HasPrefix_append p rest))
    as (i & ->). reflexivity.
Qed.

Lemma Index_unfold (s p : string) :
  Index s p
  = if HasPrefix s p then Some 0%nat
    else match s with
         | EmptyString => None
         | String _ r => match Index r p with Some i => Some (S i) | None => None end
         end.
Proof. destruct s; reflexivity. Qed.

(** The marker starts with the one underscore it has, so an occurrence that
    begins before a marker cannot run into it. *)
Lemma marker_no_overlap (c : ascii) (b rest : string) :
  HasPrefix (String c b +:+ nestedFileNameSuffix +:+ rest) nestedFileNameSuffix
  = HasPrefix (String c b) nestedFileNameSuffix.
Proof.
  unfold nestedFileNameSuffix.
  destruct b as [|c1 [|c2 [|c3 [|c4 [|c5 [|c6 [|c7 [|c8 [|c9 [|c10 b]]]]]]]]]];
    ssimpl; rewrite ?andb_false_r; try reflexivity.
Qed.

Lemma Index_marker (base rest : string) :
  Index base nestedFileNameSuffix = None ->
  Index (base +:+ nestedFileNameSuffix +:+ rest) nestedFileNameSuffix
  = Some (String.length base).
Proof.
  induction base as [|c b IH]; intros H.
  - app_simpl. rewrite Index_unfold, HasPrefix_append. reflexivity.
  - rewrite Index_unfold in H.
    destruct (HasPrefix (String c b) nestedFileNameSuffix) eqn:Hp; [discriminate|].
    destruct (Index b nestedFileNameSuffix) eqn:Hi; [discriminate|].
    rewrite Index_unfold, marker_no_overlap, Hp.
    app_simpl. cbv iota. now rewrite IH.
Qed.

Lemma Contains_slash_cons (c : ascii) (r : string) :
  Contains (String c r) "/" = Ascii.eqb c slash || Contains r "/".
Proof.
  unfold Contains. rewrite Index_unfold. cbn [HasPrefix]. rewrite andb_true_r.
  unfold slash. destruct (Ascii.eqb c "/"); [reflexivity|].
  cbn [orb]. now destruct (Index r "/").
Qed.

Lemma Contains_slash_append (a b : string) :
  Contains (a +:+ b) "/" = Contains a "/" || Contains b "/".
Proof.
  induction a as [|c a IH]; ssimpl; [reflexivity|].
  rewrite !Contains_slash_cons, IH. now rewrite orb_assoc.
Qed.

Lemma stripTrailingSlashes_go (a : string) :
  stripTrailingSlashes (a +:+ ".go") = a +:+ ".go".
Proof.
  induction a as [|c a IH]; [reflexivity|]. app_simpl.
  change (stripTrailingSlashes (String c (a +:+ ".go")))
    with (match stripTrailingSlashes (a +:+ ".go") with
          | EmptyString =>
              if Ascii.eqb c slash then EmptyString else String c EmptyString
          | String d r' => String c (String d r')
          end).
  rewrite IH. destruct a; reflexivity.
Qed.

Lemma lastElement_no_slash (s : string) :
  Contains s "/" = false -> lastElement s = s.
Proof.
  destruct s as [|c r]; [reflexivity|].
  rewrite Contains_slash_cons. intros [Hc Hr]%orb_false_elim.
  simpl. now rewrite Hr, Hc.
Qed.

Lemma lastElement_after_slash (dir name : string) :
  Contains name "/" = false ->
  lastElement (dir +:+ String slash name) = name.
Proof.
  intros Hn. induction dir as [|c d IH]; ssimpl.
  - rewrite Hn. reflexivity.
  - rewrite Contains_slash_append, Contains_slash_cons. simpl.
    rewrite orb_true_r. exact IH.
Qed.

Lemma filepathBase_plain (name : string) :
  Contains name "/" = false -> filepathBase (name +:+ ".go") = name +:+ ".go".
Proof.
  intros Hn. unfold filepathBase.
  rewrite stripTrailingSlashes_go, lastElement_no_slash.
  - destruct name; reflexivity.
  - rewrite Contains_slash_append, Hn. reflexivity.
Qed.

Lemma filepathBase_joinPlain (dir name : string) :
  Contains name "/" = false ->
  filepathBase (joinPlain dir (name +:+ ".go")) = name +:+ ".go".
Proof.
  intros Hn. unfold filepathBase, joinPlain.
  assert (Hne : forall x, String.eqb (x +:+ ".go") "" = false)
    by (intros x; now destruct x).
  replace (dir +:+ "/" +:+ name +:+ ".go") with ((dir +:+ "/" +:+ name) +:+ ".go")
    by now rewrite !append_assoc.
  rewrite Hne, stripTrailingSlashes_go.
  replace ((dir +:+ "/" +:+ name) +:+ ".go")
    with (dir +:+ String slash (name +:+ ".go"))
    by (rewrite !append_assoc; reflexivity).
  rewrite lastElement_after_slash, Hne; [reflexivity|].
  rewrite Contains_slash_append, Hn. reflexivity.
Qed.

Lemma getNestedFileName_unfold join options fileName :
  getNestedFileName join options fileName
  = if negb (String.eqb (OutputQueryFilesDirectory options) "")
    then join (OutputQueryFilesDirectory options)
              (nestedFileNameOf options (TrimSuffix fileName ".sql"))
    else nestedFileNameOf options (TrimSuffix fileName ".sql").
Proof.
  unfold getNestedFileName, nestedFileNameOf.
  destruct (String.eqb (OutputFilesSuffix options) "") eqn:E; [|reflexivity].
  apply String.eqb_eq in E. rewrite E. reflexivity.
Qed.

Lemma extract_of_base (base rest : string) :
  Index base nestedFileNameSuffix = None ->
  (let baseName := base +:+ nestedFileNameSuffix +:+ rest in
   match Index baseName nestedFileNameSuffix with
   | Some nestedIndex => substring 0 nestedIndex baseName +:+ ".sql"
   | None => TrimSuffix baseName nestedFileNameSuffix +:+ ".sql"
   end) = base +:+ ".sql".
Proof.
  intros H. cbv zeta. rewrite (Index_marker base rest H).
  now rewrite substring_prefix.
Qed.

(** X9.  [extractSqlFileNameFromNestedFileName] undoes [getNestedFileName]:
    from the name of the file generated for a [.sql] file it gives that
    file's name back, whatever the output suffix and the output directory,
    provided the name holds no slash and no [_nested.sql] of its own, the
    suffix holds no slash, and the last element of the joined path is the
    file name. *)
Theorem extractSqlFileName_getNestedFileName (join : string -> string -> string)
    (options : FileOptions) (base : string) :
  Contains base "/" = false ->
  Contains (OutputFilesSuffix options) "/" = false ->
  Index base nestedFileNameSuffix = None ->
  (OutputQueryFilesDirectory options <> "" ->
   filepathBase (join (OutputQueryFilesDirectory options)
                      (nestedFileNameOf options base))
   = nestedFileNameOf options base) ->
  extractSqlFileNameFromNestedFileName
    (getNestedFileName join options (base +:+ ".sql"))
  = base +:+ ".sql".
Proof.
  intros Hbase Hsfx Hmark Hjoin.
  rewrite getNestedFileName_unfold, TrimSuffix_append.
  assert (Hb : filepathBase (nestedFileNameOf options base)
               = nestedFileNameOf options base).
  { unfold nestedFileNameOf.
    replace (base +:+ nestedFileNameSuffix +:+ OutputFilesSuffix options +:+ ".go")
      with ((base +:+ nestedFileNameSuffix +:+ OutputFilesSuffix options) +:+ ".go")
      by now rewrite !append_assoc.
    apply filepathBase_plain.
    rewrite !Contains_slash_append, Hbase, Hsfx. reflexivity. }
  unfold extractSqlFileNameFromNestedFileName.
  assert (Hname : filepathBase
                    (if negb (String.eqb (OutputQueryFilesDirectory options) "")
                     then join (OutputQueryFilesDirectory options)
                               (nestedFileNameOf options base)
                     else nestedFileNameOf options base)
                  = nestedFileNameOf options base).
  { destruct (String.eqb (OutputQueryFilesDirectory options) "") eqn:E;
      cbn [negb]; [exact Hb|].
    apply Hjoin. now apply String.eqb_neq. }
  rewrite Hname. unfold nestedFileNameOf.
  replace (base +:+ nestedFileNameSuffix +:+ OutputFilesSuffix options +:+ ".go")
    with ((base +:+ nestedFileNameSuffix +:+ OutputFilesSuffix options) +:+ ".go")
    by now rewrite !append_assoc.
  rewrite TrimSuffix_append.
  apply (extract_of_base base (OutputFilesSuffix options) Hmark).
Qed.

Lemma extractSqlFileName_getNestedFileName_witness :
  Contains "book_authors" "/" = false
  /\ Contains "_gen" "/" = false
  /\ Index "book_authors" nestedFileNameSuffix = None
  /\ extractSqlFileNameFromNestedFileName
       (getNestedFileName joinPlain
          {| OutputFilesSuffix := "_gen"; OutputQueryFilesDirectory := "queries" |}
          "book_authors.sql")
     = "book_authors.sql".
Proof.
  split; [reflexivity|]. split; [reflexivity|]. split; [reflexivity|].
  apply (extractSqlFileName_getNestedFileName joinPlain
           {| OutputFilesSuffix := "_gen"; OutputQueryFilesDirectory := "queries" |}
           "book_authors"); try reflexivity.
Defined.

(** A file whose name holds the marker is not given back. *)
Example extractSqlFileName_marker_in_name :
  extractSqlFileNameFromNestedFileName
    (getNestedFileName joinPlain
       {| OutputFilesSuffix := ""; OutputQueryFilesDirectory := "" |}
       "a_nested.sql_b.sql")
  = "a.sql".
Proof. reflexivity. Qed.

(** X10.  Every name [getNestedFileName] gives is recognised by
    [isNestedFileName], provided the joined path ends with the file name. *)
Theorem getNestedFileName_isNestedFileName (join : string -> string -> string)
    (options : FileOptions) (fileName : string) :
  (OutputQueryFilesDirectory options <> "" ->
   exists dir,
     join (OutputQueryFilesDirectory options)
          (nestedFileNameOf options (TrimSuffix fileName ".sql"))
     = dir +:+ nestedFileNameOf options (TrimSuffix fileName ".sql")) ->
  isNestedFileName (getNestedFileName join options fileName) = true.
Proof.
  intros Hjoin. rewrite getNestedFileName_unfold.
  assert (Hdir : exists dir,
             (if negb (String.eqb (OutputQueryFilesDirectory options) "")
              then join (OutputQueryFilesDirectory options)
                     (nestedFileNameOf options (TrimSuffix fileName ".sql"))
              else nestedFileNameOf options (TrimSuffix fileName ".sql"))
             = dir +:+ nestedFileNameOf options (TrimSuffix fileName ".sql")).
  { destruct (String.eqb (OutputQueryFilesDirectory options) "") eqn:E;
      cbn [negb]; [now exists "" |].
    apply Hjoin. now apply String.eqb_neq. }
  destruct Hdir as (dir & ->).
  generalize (TrimSuffix fileName ".sql"). intros base.
  unfold isNestedFileName, nestedFileNameOf. apply andb_true_iff. split.
  - replace (dir +:+ base +:+ nestedFileNameSuffix
             +:+ OutputFilesSuffix options +:+ ".go")
      with ((dir +:+ base) +:+ nestedFileNameSuffix
            +:+ (OutputFilesSuffix options +:+ ".go"))
      by now rewrite !append_assoc.
    apply Contains_append.
  - replace (dir +:+ base +:+ nestedFileNameSuffix
             +:+ OutputFilesSuffix options +:+ ".go")
      with ((dir +:+ base +:+ nestedFileNameSuffix
             +:+ OutputFilesSuffix options) +:+ ".go")
      by now rewrite !append_assoc.
    apply HasSuffix_append.
Qed.

Lemma getNestedFileName_isNestedFileName_witness :
  isNestedFileName
    (getNestedFileName joinPlain
       {| OutputFilesSuffix := "_gen"; OutputQueryFilesDirectory := "queries" |}
       "book_authors.sql") = true.
Proof.
  apply (getNestedFileName_isNestedFileName joinPlain
           {| OutputFilesSuffix := "_gen"; OutputQueryFilesDirectory := "queries" |}
           "book_authors.sql").
  intros _. exists "queries/". reflexivity.
Defined.

(** In the branch of [extractSqlFileNameFromNestedFileName] taken when
    the name holds no [_nested.sql], [strings.TrimSuffix] has nothing to
    remove: the result is the last element of the path without its [.go],
    followed by [.sql]. *)
Lemma extractSqlFileName_without_marker (fileName : string) :
  Index (TrimSuffix (filepathBase fileName) ".go") nestedFileNameSuffix = None ->
  extractSqlFileNameFromNestedFileName fileName
  = TrimSuffix (filepathBase fileName) ".go" +:+ ".sql".
Proof.
  intros H. unfold extractSqlFileNameFromNestedFileName. rewrite H.
  f_equal. unfold TrimSuffix at 1.
  destruct (HasSuffix _ nestedFileNameSuffix) eqn:Hs; [|reflexivity].
  exfalso. apply HasSuffix_inv in Hs as (a & Ha).
  destruct (Index_append_Some a nestedFileNameSuffix nestedFileNameSuffix
              eq_refl) as (i & Hi).
  rewrite <- Ha in Hi. congruence.
Qed.

Lemma extractSqlFileName_without_marker_witness :
  Index (TrimSuffix (filepathBase "out/models.go") ".go") nestedFileNameSuffix
  = None
  /\ extractSqlFileNameFromNestedFileName "out/models.go" = "models.sql".
Proof.
  split; [reflexivity|].
  exact (extractSqlFileName_without_marker "out/models.go" eq_refl).
Defined.

End FileNames.

(** ** Name conflicts *)

Section Validate.

Lemma enumNamesOf_fold enums (acc : gset string) name :
  name ∈ fold_left (fun enumNames enum =>
                      {[ "Null" +:+ eName enum ]} ∪ ({[ eName enum ]} ∪ enumNames))
                   enums acc
  <-> name ∈ acc \/ isEnumName enums name.
Proof.
  revert acc. induction enums as [|e rest IH]; intros acc; simpl.
  - split; [now left|]. intros [H | (e & [] & _)]. exact H.
  - rewrite IH, !elem_of_union, !elem_of_singleton. unfold isEnumName. split.
    + intros [[-> | [-> | H]] | (e' & Hin & He')].
      * right. exists e. split; [now left | now right].
      * right. exists e. split; [now left | now left].
      * now left.
      * right. exists e'. split; [now right | exact He'].
    + intros [H | (e' & [<- | Hin] & He')].
      * left. right. now right.
      * left. destruct He' as [-> | ->]; [right; now left | now left].
      * right. exists e'. now split.
Qed.

Lemma enumNamesOf_spec enums name :
  name ∈ enumNamesOf enums <-> isEnumName enums name.
Proof.
  unfold enumNamesOf. rewrite enumNamesOf_fold, elem_of_empty. tauto.
Qed.

Lemma structNamesOf_inr enumNames structs acc structNames :
  structNamesOf enumNames structs acc = inr structNames ->
  (forall s, In s structs -> sName s ∉ enumNames)
  /\ (forall name, name ∈ structNames <->
                   name ∈ acc \/ In name (map sName structs)).
Proof.
  revert acc. induction structs as [|s rest IH]; intros acc; simpl.
  - intros [= <-]. split; [intros s [] | intros name; tauto].
  - destruct (bool_decide (sName s ∈ enumNames)) eqn:E; [discriminate|].
    apply bool_decide_eq_false in E. intros H.
    destruct (IH _ H) as [Hno Hnames]. split.
    + intros s' [<- | Hin]; [exact E | now apply Hno].
    + intros name. rewrite Hnames, elem_of_union, elem_of_singleton.
      intuition congruence.
Qed.

Lemma structNamesOf_inl enumNames structs acc err :
  structNamesOf enumNames structs acc = inl err ->
  exists s, In s structs /\ sName s ∈ enumNames
            /\ err = ErrStructEnumConflict (sName s).
Proof.
  revert acc. induction structs as [|s rest IH]; intros acc; simpl; [discriminate|].
  destruct (bool_decide (sName s ∈ enumNames)) eqn:E.
  - apply bool_decide_eq_true in E. intros [= <-]. exists s. auto.
  - intros H. destruct (IH _ H) as (s' & Hin & Hs'). exists s'. auto.
Qed.

Lemma checkQueryConstants_None enumNames structNames names :
  checkQueryConstants enumNames structNames names = None
  <-> forall name, In name names -> (name ∉ enumNames) /\ (name ∉ structNames).
Proof.
  induction names as [|n rest IH]; simpl.
  - split; [intros _ name [] | reflexivity].
  - destruct (bool_decide (n ∈ enumNames)) eqn:E1.
    + apply bool_decide_eq_true in E1. split; [discriminate|].
      intros H. destruct (H n (or_introl eq_refl)) as [Hn _]. contradiction.
    + apply bool_decide_eq_false in E1.
      destruct (bool_decide (n ∈ structNames)) eqn:E2.
      * apply bool_decide_eq_true in E2. split; [discriminate|].
        intros H. destruct (H n (or_introl eq_refl)) as [_ Hn]. contradiction.
      * apply bool_decide_eq_false in E2. rewrite IH. split.
        -- intros H name [<- | Hin]; auto.
        -- intros H name Hin. apply H. now right.
Qed.

(** X11.  [validate] accepts exactly when no struct has the name of an enum or
    of its null wrapper and, if the query constants are exported, no query
    constant has the name of an enum, of a null wrapper or of a struct.
    Nothing else is compared: two structs, or two queries, of the same name
    pass. *)
Theorem validate_accepts_iff (ConstantName : Query -> string)
    (emitExportedQueries : bool) (enums : list Enum) (structs : list Struct)
    (queries : list Query) :
  validate ConstantName emitExportedQueries enums structs queries = None
  <-> (forall s, In s structs -> ~ isEnumName enums (sName s))
      /\ (emitExportedQueries = true ->
          forall q, In q queries ->
            ~ isEnumName enums (ConstantName q)
            /\ ~ In (ConstantName q) (map sName structs)).
Proof.
  unfold validate.
  destruct (structNamesOf (enumNamesOf enums) structs ∅) as [err | structNames]
    eqn:Hs.
  - split; [discriminate|]. intros [H _].
    apply structNamesOf_inl in Hs as (s & Hin & Hconf & _).
    exfalso. apply (H s Hin). now apply enumNamesOf_spec.
  - apply structNamesOf_inr in Hs as [Hno Hnames].
    assert (Hstructs : forall s, In s structs -> ~ isEnumName enums (sName s)).
    { intros s Hin Hc. apply (Hno s Hin). now apply enumNamesOf_spec. }
    destruct emitExportedQueries; cbn [negb].
    + rewrite checkQueryConstants_None. split.
      * intros H. split; [exact Hstructs|]. intros _ q Hq.
        destruct (H (ConstantName q) (in_map _ _ _ Hq)) as [He Hst]. split.
        -- intros Hc. now apply He, enumNamesOf_spec.
        -- intros Hc. apply Hst, Hnames. now right.
      * intros [_ H] name (q & <- & Hq)%in_map_iff.
        destruct (H eq_refl q Hq) as [He Hst]. split.
        -- intros Hc. now apply He, enumNamesOf_spec.
        -- intros [Hc | Hc]%Hnames; [now apply elem_of_empty in Hc | auto].
    + split; [|reflexivity]. intros _. split; [exact Hstructs | discriminate].
Qed.

(** The struct check of [validate] comes first: when a struct has the
    name of an enum, the error names a struct, whatever the queries are. *)
Lemma validate_reports_struct_first (ConstantName : Query -> string)
    (emitExportedQueries : bool) (enums : list Enum) (structs : list Struct)
    (queries : list Query) (s : Struct) :
  In s structs -> isEnumName enums (sName s) ->
  exists s', In s' structs /\ isEnumName enums (sName s')
    /\ validate ConstantName emitExportedQueries enums structs queries
       = Some (ErrStructEnumConflict (sName s')).
Proof.
  intros Hin Hc. unfold validate.
  destruct (structNamesOf (enumNamesOf enums) structs ∅) as [err | structNames]
    eqn:Hs.
  - apply structNamesOf_inl in Hs as (s' & Hin' & Hconf & ->).
    exists s'. split; [exact Hin'|]. split; [|reflexivity].
    now apply enumNamesOf_spec.
  - apply structNamesOf_inr in Hs as [Hno _]. exfalso.
    apply (Hno s Hin). now apply enumNamesOf_spec.
Qed.

Lemma validate_reports_struct_first_witness :
  exists s', In s' [ {| sName := "Post"; sFields := [] |};
                     {| sName := "NullStatus"; sFields := [] |} ]
    /\ isEnumName [ {| eName := "Status" |} ] (sName s')
    /\ validate (fun q => MethodName q) true [ {| eName := "Status" |} ]
         [ {| sName := "Post"; sFields := [] |};
           {| sName := "NullStatus"; sFields := [] |} ]
         [ {| MethodName := "Status"; SourceName := "q.sql"; RetStruct := None |} ]
       = Some (ErrStructEnumConflict (sName s')).
Proof.
  apply (validate_reports_struct_first (fun q => MethodName q) true
           [ {| eName := "Status" |} ] _ _ {| sName := "NullStatus"; sFields := [] |}).
  - right. left. reflexivity.
  - exists {| eName := "Status" |}. split; [now left | now right].
Defined.

End Validate.

(** ** Parsing and validating the options *)

Section Options.

Context {Override : Type} (lib : opts.Library Override).

Lemma Parse_inv req o :
  opts.Parse lib req = inr o ->
  exists p g,
    opts.parseOpts lib req = inr p /\ opts.parseGlobalOpts lib req = inr g
    /\ opts.Overrides o = opts.gOverrides g ++ opts.Overrides p
    /\ opts.Rename o = opts.gRename g ∪ opts.Rename p
    /\ opts.EmitPreparedQueries o = opts.EmitPreparedQueries p
    /\ opts.EmitMethodsWithDbArgument o = opts.EmitMethodsWithDbArgument p
    /\ opts.Package o = opts.Package p
    /\ opts.OutputModelsPackage o = opts.OutputModelsPackage p
    /\ opts.ModelsPackageImportPath o = opts.ModelsPackageImportPath p
    /\ opts.QueryParameterLimit o = opts.QueryParameterLimit p
    /\ opts.Initialisms o = opts.Initialisms p
    /\ opts.InitialismsMap o = opts.InitialismsMap p.
Proof.
  unfold opts.Parse.
  destruct (opts.parseOpts lib req) as [e|p]; [discriminate|].
  destruct (opts.parseGlobalOpts lib req) as [e|g]; [discriminate|].
  intros [= <-]. exists p, g. split; [reflexivity|]. split; [reflexivity|].
  assert (Hov : forall l : list Override, (0 <? length l)%nat = false -> l = []).
  { intros [|x l]; [reflexivity | discriminate]. }
  assert (Hre : forall m : gmap string string, (0 <? size m)%nat = false -> m = ∅).
  { intros m Hm. apply map_size_empty_iff. apply Nat.ltb_ge in Hm. lia. }
  destruct (0 <? length (opts.gOverrides g))%nat eqn:E1;
    destruct (0 <? size (opts.gRename g))%nat eqn:E2; cbn;
    try rewrite (Hov _ E1); try rewrite (Hre _ E2);
    rewrite ?(left_id_L ∅ (∪)); repeat split; reflexivity.
Qed.

(** X12.  A request without plugin options cannot be validated: [Parse]
    answers with options whose parameter limit is nil, and [ValidateOpts]
    reads through it. *)
Theorem Parse_without_plugin_options_panics (req : opts.GenerateRequest)
    (o : opts.Options Override) :
  opts.PluginOptions req = "" ->
  opts.Parse lib req = inr o ->
  opts.ValidateOpts o = opts.NilDereference.
Proof.
  intros Hempty HP.
  destruct (Parse_inv req o HP)
    as (p & g & Hp & _ & _ & _ & Hq & Hd & _ & _ & _ & Hl & _).
  unfold opts.parseOpts in Hp. rewrite Hempty in Hp. simpl in Hp.
  injection Hp as <-.
  unfold opts.ValidateOpts. rewrite Hq, Hd, Hl. reflexivity.
Qed.




(** X14.  [Parse] puts the global options in front: the global overrides come
    before those of the plugin, and where both rename the same name the
    global renaming is the one kept. *)
Theorem Parse_global_options_take_precedence (req : opts.GenerateRequest)
    (o p : opts.Options Override) (g : opts.GlobalOptions_ Override)
    (name : string) :
  opts.Parse lib req = inr o ->
  opts.parseOpts lib req = inr p ->
  opts.parseGlobalOpts lib req = inr g ->
  opts.Overrides o = opts.gOverrides g ++ opts.Overrides p
  /\ opts.Rename o !! name
     = match opts.gRename g !! name with
       | Some v => Some v
       | None => opts.Rename p !! name
       end.
Proof.
  intros HP Hp Hg.
  destruct (Parse_inv req o HP) as (p' & g' & Hp' & Hg' & Hov & Hre & _).
  rewrite Hp in Hp'. rewrite Hg in Hg'. injection Hp' as <-. injection Hg' as <-.
  split; [exact Hov|]. rewrite Hre, lookup_union.
  destruct (opts.gRename g !! name), (opts.Rename p !! name); reflexivity.
Qed.

(** X15.  [ValidateOpts] accepts exactly the options that do not ask both for
    prepared queries and for methods with a database argument, whose
    parameter limit is set and not negative, and that name the models package
    and its import path together or not at all. *)
Theorem ValidateOpts_accepts_iff (o : opts.Options Override) :
  opts.ValidateOpts o = opts.Valid
  <-> (opts.EmitMethodsWithDbArgument o = false
       \/ opts.EmitPreparedQueries o = false)
      /\ (exists limit, opts.QueryParameterLimit o = Some limit /\ (0 <= limit)%Z)
      /\ (opts.OutputModelsPackage o = "" <-> opts.ModelsPackageImportPath o = "").
Proof.
  unfold opts.ValidateOpts.
  destruct (opts.EmitMethodsWithDbArgument o), (opts.EmitPreparedQueries o);
    cbn [andb];
    try (split; [discriminate | intros [[H|H] _]; discriminate]).
  all: destruct (opts.QueryParameterLimit o) as [limit|];
    [|split; [discriminate | intros (_ & (l & Hl & _) & _); discriminate]].
  all: destruct (limit <? 0)%Z eqn:El;
    [apply Z.ltb_lt in El; split;
       [discriminate | intros (_ & (l & [= <-] & Hl) & _); lia]
    | apply Z.ltb_ge in El].
  all: destruct (String.eqb_spec (opts.OutputModelsPackage o) "") as [E1|E1];
    destruct (String.eqb_spec (opts.ModelsPackageImportPath o) "") as [E2|E2];
    cbn [negb andb].
  all: split; intros H; try discriminate H; try reflexivity;
    try (exfalso; tauto);
    try (split; [auto|]; split; [eauto|]; tauto).
Qed.

End Options.

Lemma Parse_without_plugin_options_panics_witness :
  opts.PluginOptions {| opts.PluginOptions := ""; opts.GlobalOptions := "" |} = ""
  /\ opts.Parse exLibrary {| opts.PluginOptions := ""; opts.GlobalOptions := "" |}
     = inr opts.zeroOptions
  /\ opts.ValidateOpts (@opts.zeroOptions unit) = opts.NilDereference.
Proof.
  split; [reflexivity|]. split; [reflexivity|].
  exact (Parse_without_plugin_options_panics exLibrary
           {| opts.PluginOptions := ""; opts.GlobalOptions := "" |}
           opts.zeroOptions eq_refl eq_refl).
Defined.

Lemma exRequest_parsed :
  opts.parseOpts exLibrary exRequest = inr exPluginOptions
  /\ opts.parseGlobalOpts exLibrary exRequest = inr exGlobalOptions
  /\ opts.Parse exLibrary exRequest = inr exParsedOptions.
Proof. repeat split. Qed.


Lemma Parse_global_options_take_precedence_witness :
  opts.Rename exPluginOptions !! "id" = Some "Ident"
  /\ opts.gRename exGlobalOptions !! "id" = Some "ID"
  /\ opts.Rename exParsedOptions !! "id" = Some "ID".
Proof.
  split; [reflexivity|]. split; [reflexivity|].
  destruct exRequest_parsed as (Hp & Hg & HP).
  rewrite (proj2 (Parse_global_options_take_precedence exLibrary exRequest
                    exParsedOptions exPluginOptions exGlobalOptions "id"
                    HP Hp Hg)).
  reflexivity.
Defined.

(** ** Template helpers *)

Section TemplateUtils.

Local Ltac app_simpl :=
  repeat match goal with
         | |- context [String ?x ?a +:+ ?b] =>
             change (String x a +:+ b) with (String x (a +:+ b))
         | |- context [EmptyString +:+ ?b] => change (EmptyString +:+ b) with b
         end.

Local Ltac ssimpl := app_simpl; simpl; app_simpl.

Lemma stringLe_cases (a b : string) :
  stringLe a b <-> a = b \/ OrderedTypeEx.String_as_OT.lt a b.
Proof.
  unfold stringLe, String.leb.
  pose proof (OrderedTypeEx.String_as_OT.cmp_eq a b) as Heq.
  pose proof (OrderedTypeEx.String_as_OT.cmp_lt a b) as Hlt.
  unfold OrderedTypeEx.String_as_OT.cmp in *.
  destruct (String.compare a b); split; intros H; auto.
  - left. now apply Heq.
  - right. now apply Hlt.
  - discriminate.
  - destruct H as [H | H]; [apply Heq in H | apply Hlt in H]; discriminate.
Qed.

Lemma stringLe_trans : Transitive stringLe.
Proof.
  intros a b c [-> | Hab]%stringLe_cases [-> | Hbc]%stringLe_cases;
    apply stringLe_cases; auto.
  right. eapply OrderedTypeEx.String_as_OT.lt_trans; eassumption.
Qed.

Lemma stringLe_total : Total stringLe.
Proof. intros a b. apply String.leb_total. Qed.

Lemma stringLe_antisym : AntiSymm eq stringLe.
Proof. intros a b. apply String.leb_antisym. Qed.

Lemma sortStrings_Permutation (l1 l2 : list string) :
  l1 ≡ₚ l2 -> sortStrings l1 = sortStrings l2.
Proof.
  intros H. unfold sortStrings.
  apply (@StronglySorted_unique _ stringLe stringLe_antisym).
  - apply (@StronglySorted_merge_sort _ stringLe _ stringLe_trans stringLe_total).
  - apply (@StronglySorted_merge_sort _ stringLe _ stringLe_trans stringLe_total).
  - now rewrite !merge_sort_Permutation.
Qed.

(** X16.  The string [joinTags] returns does not depend on the order in which
    the map of tags is visited. *)
Theorem joinTags_order_independent (ext1 ext2 : Externals)
    (tags : gmap string string) :
  mapRange ext1 tags ≡ₚ mapRange ext2 tags ->
  joinTags ext1 tags = joinTags ext2 tags.
Proof.
  intros H. unfold joinTags.
  rewrite (sortStrings_Permutation (map formatTag (mapRange ext1 tags))
             (map formatTag (mapRange ext2 tags))); [reflexivity|].
  now apply Permutation_map.
Qed.

Lemma joinTags_order_independent_witness :
  mapRange exExt {[ "json" := "id"; "db" := "id" ]}
  ≡ₚ mapRange exExtBackwards {[ "json" := "id"; "db" := "id" ]}
  /\ joinTags exExt {[ "json" := "id"; "db" := "id" ]}
     = joinTags exExtBackwards {[ "json" := "id"; "db" := "id" ]}.
Proof.
  assert (H : mapRange exExt {[ "json" := "id"; "db" := "id" ]}
              ≡ₚ mapRange exExtBackwards {[ "json" := "id"; "db" := "id" ]}).
  { simpl. apply Permutation_rev. }
  split; [exact H|].
  exact (joinTags_order_independent exExt exExtBackwards _ H).
Defined.

Lemma HasPrefix_inv (s p : string) :
  HasPrefix s p = true -> s = p +:+ TrimPrefix s p.
Proof.
  intros H. unfold TrimPrefix. rewrite H.
  assert (G : forall s p, HasPrefix s p = true ->
                s = p +:+ substring (String.length p)
                                    (String.length s - String.length p) s).
  { clear. intros s p. revert s. induction p as [|c p IH]; intros s H.
    - app_simpl. simpl. rewrite Nat.sub_0_r. clear.
      induction s as [|d s IHs]; [reflexivity|]. simpl. now rewrite <- IHs.
    - destruct s as [|d s]; [discriminate|]. simpl in H.
      apply andb_prop in H as [Hd Hs]. apply Ascii.eqb_eq in Hd. subst d.
      ssimpl. f_equal. now apply IH. }
  now apply G.
Qed.

Lemma TrimPrefix_append (p rest : string) : TrimPrefix (p +:+ rest) p = rest.
Proof.
  unfold TrimPrefix. rewrite HasPrefix_append, length_append.
  replace (String.length p + String.length rest - String.length p)%nat
    with (String.length rest) by lia.
  apply substring_suffix.
Qed.

Lemma goToPgtypeMap_entries (fieldType : string) (mapping : typeMapping) :
  goToPgtypeMap !! fieldType = Some mapping ->
  Contains fieldType "." = false
  /\ pgtypeWrapper mapping <> fieldType
  /\ valueField mapping <> "".
Proof.
  assert (H : map_Forall (fun k m => Contains k "." = false
                                     /\ pgtypeWrapper m <> k
                                     /\ valueField m <> "") goToPgtypeMap).
  { unfold goToPgtypeMap. simpl.
    repeat (apply map_Forall_insert_2;
            [split; [reflexivity | split; discriminate]|]).
    apply map_Forall_empty. }
  apply H.
Qed.

Lemma Contains_dot_cons (c : ascii) (r : string) :
  Contains (String c r) "." = Ascii.eqb c "."%char || Contains r ".".
Proof.
  unfold Contains. rewrite Index_unfold. cbn [HasPrefix]. rewrite andb_true_r.
  destruct (Ascii.eqb c "."); [reflexivity|].
  cbn [orb]. now destruct (Index r ".").
Qed.

Lemma Contains_dot_append (a rest : string) : Contains (a +:+ "." +:+ rest) "." = true.
Proof.
  change ("." +:+ rest) with (String "."%char rest).
  induction a as [|c a IH]; app_simpl.
  - now rewrite Contains_dot_cons.
  - rewrite Contains_dot_cons, IH. apply orb_true_r.
Qed.

Lemma append_length_neq (a b : string) : a <> "" -> a +:+ b <> b.
Proof.
  intros Ha H. apply (f_equal String.length) in H.
  rewrite length_append in H. destruct a; [contradiction | simpl in H; lia].
Qed.

Lemma append_inj_l (p a b : string) : p +:+ a = p +:+ b -> a = b.
Proof.
  induction p as [|c p IH]; ssimpl; [auto|]. intros [= H]. auto.
Qed.

(** X17.  [getNullableValueField] names no field, so that the value is used
    as it is, exactly for the types [getNullableType] leaves as they are,
    and for the one type that is the models package with its dot and nothing
    after it. *)
Theorem getNullableValueField_empty_iff (fieldType modelsPackage : string) :
  getNullableValueField fieldType modelsPackage = ""
  <-> getNullableType fieldType modelsPackage = fieldType
      \/ (modelsPackage <> "" /\ fieldType = modelsPackage +:+ ".").
Proof.
  unfold getNullableValueField, getNullableType.
  destruct (goToPgtypeMap !! fieldType) as [mapping|] eqn:Hm.
  - destruct (goToPgtypeMap_entries _ _ Hm) as (Hdot & Hw & Hv).
    split; [contradiction|]. intros [H | [_ ->]]; [contradiction|].
    exfalso.
    assert (Hc : Contains (modelsPackage +:+ ".") "." = true)
      by exact (Contains_dot_append modelsPackage "").
    rewrite Hdot in Hc. discriminate.
  - destruct (String.eqb_spec modelsPackage "") as [Hp | Hp]; cbn [negb andb].
    + split; [now left | reflexivity].
    + destruct (HasPrefix fieldType (modelsPackage +:+ ".")) eqn:Hpre.
      * apply HasPrefix_inv in Hpre.
        remember (TrimPrefix fieldType (modelsPackage +:+ ".")) as typeName
          eqn:Et. clear Et. subst fieldType. clear Hm.
        rewrite append_assoc. split.
        -- intros ->. right. split; [exact Hp | reflexivity].
        -- intros [H | [_ H]].
           ++ exfalso. apply append_inj_l in H.
              change (".Null" +:+ typeName) with ("." +:+ ("Null" +:+ typeName)) in H.
              apply append_inj_l in H.
              now apply (append_length_neq "Null" typeName).
           ++ rewrite <- (append_empty_r (modelsPackage +:+ ".")) in H.
              rewrite !append_assoc in H.
              apply append_inj_l in H.
              change ("." +:+ typeName) with (String "."%char typeName) in H.
              now injection H.
      * split; [now left | reflexivity].
Qed.

(** For a type of the models package, a package name followed by a dot
    and a name, [getNullableType] gives the package's type [Null] followed by
    the name, and [getNullableValueField] the name. *)
Lemma getNullable_of_models_type (modelsPackage typeName : string) :
  modelsPackage <> "" ->
  getNullableType (modelsPackage +:+ "." +:+ typeName) modelsPackage
  = modelsPackage +:+ ".Null" +:+ typeName
  /\ getNullableValueField (modelsPackage +:+ "." +:+ typeName) modelsPackage
     = typeName.
Proof.
  intros Hp. unfold getNullableType, getNullableValueField.
  destruct (goToPgtypeMap !! (modelsPackage +:+ "." +:+ typeName))
    as [mapping|] eqn:Hm.
  - destruct (goToPgtypeMap_entries _ _ Hm) as (Hdot & _).
    rewrite Contains_dot_append in Hdot. discriminate.
  - apply String.eqb_neq in Hp. rewrite Hp. cbn [negb andb].
    replace (modelsPackage +:+ "." +:+ typeName)
      with ((modelsPackage +:+ ".") +:+ typeName) by now rewrite append_assoc.
    rewrite HasPrefix_append, TrimPrefix_append. split; reflexivity.
Qed.

Lemma getNullable_of_models_type_witness :
  "entity" <> ""
  /\ getNullableType "entity.ImageType" "entity" = "entity.NullImageType"
  /\ getNullableValueField "entity.ImageType" "entity" = "ImageType".
Proof.
  assert (H : "entity" <> "") by discriminate.
  split; [exact H|].
  exact (getNullable_of_models_type "entity" "ImageType" H).
Defined.

(** With [pgtype] for the models package, the wrapper of a basic type is
    wrapped once more. *)
Example getNullableType_wraps_a_wrapper :
  getNullableType (getNullableType "bool" "pgtype") "pgtype" = "pgtype.NullBool".
Proof. reflexivity. Qed.

End TemplateUtils.

(** ** What the validators accept *)

Section ValidationMore.

Lemma firstError_None (A : Type) (f : A -> option error) (l : list A) :
  firstError f l = None <-> forall x, In x l -> f x = None.
Proof.
  induction l as [|y ys IH]; cbn [firstError].
  - split; [intros _ x [] | reflexivity].
  - destruct (f y) eqn:Hy.
    + split; [discriminate|]. intros H. rewrite (H y) in Hy; [discriminate|now left].
    + rewrite IH. split.
      * intros H x [<- | Hx]; auto.
      * intros H x Hx. apply H. now right.
Qed.

Lemma childrenWithParent_descendants (t n : NestedStructData) :
  In n (descendants t) <-> exists p, In (p, n) (childrenWithParent t).
Proof.
  induction t as [t IH] using NestedStructData_tree_ind.
  rewrite descendants_unfold, childrenWithParent_unfold.
  rewrite List.Forall_forall in IH. split.
  - intros (c & Hc & [<- | Hn])%in_flat_map.
    + exists (StructOut t). apply in_flat_map. exists c. split; [exact Hc | now left].
    + apply (IH c Hc) in Hn as (p & Hp). exists p.
      apply in_flat_map. exists c. split; [exact Hc | now right].
  - intros (p & (c & Hc & [[= _ <-] | Hn])%in_flat_map).
    + apply in_flat_map. exists c. split; [exact Hc | now left].
    + apply in_flat_map. exists c. split; [exact Hc|]. right.
      apply (IH c Hc). now exists p.
Qed.

Lemma missingMethodsOf_nil (root n : NestedStructData) :
  missingMethodsOf root n = []
  <-> forall d, In d (descendants n) -> embeddedIn root d.
Proof.
  split.
  - intros Hnil d Hd.
    destruct (in_dec string_dec ("Get" +:+ StructIn d)
                (map mMethodName (collectRequiredMethods root))) as [Hin | Hnot].
    + apply collectRequiredMethods_names in Hin as (d' & Hd' & Hrow & Heq).
      apply getter_name_inj in Heq. now exists d'.
    + exfalso.
      assert (Hin : In ("Get" +:+ StructIn d)
                       (map mMethodName (missingMethodsOf root n))).
      { unfold missingMethodsOf. apply findMissingMethods_names.
        split; [|exact Hnot].
        apply collectCompositeRequiredMethods_names. now exists d. }
      rewrite Hnil in Hin. exact Hin.
  - intros H. destruct (missingMethodsOf root n) as [|m ms] eqn:Hm; [reflexivity|].
    exfalso.
    assert (Hin : In (mMethodName m) (map mMethodName (missingMethodsOf root n))).
    { rewrite Hm. now left. }
    unfold missingMethodsOf in Hin.
    apply findMissingMethods_names in Hin as [Hreq Hnot].
    apply collectCompositeRequiredMethods_names in Hreq as (d & Hd & Hname).
    destruct (H d Hd) as (d' & Hd' & Hrow & Heq).
    apply Hnot. apply collectRequiredMethods_names.
    exists d'. repeat split; auto. now rewrite Heq.
Qed.

(** X18.  [validateNestedInterfaceCompatibility] accepts a tree exactly when,
    for every node below the root that is a reference to a composite, every
    entity below that node is embedded in a row field somewhere in the tree.
    Getters are compared by name only: their return types play no part. *)
Theorem validateNestedInterfaceCompatibility_accepts_iff
    (root : NestedStructData) (rootStructName : string) :
  validateNestedInterfaceCompatibility root rootStructName = None
  <-> forall n, In n (descendants root) -> IsComposite n = true ->
        forall d, In d (descendants n) -> embeddedIn root d.
Proof.
  rewrite validateInterfaces_first, firstError_None. split.
  - intros H n Hn Hcomp.
    apply childrenWithParent_descendants in Hn as (p & Hp).
    specialize (H (p, n) Hp). cbn [checkInterfaceNode] in H.
    rewrite Hcomp in H. cbn [andb] in H.
    apply missingMethodsOf_nil.
    destruct (missingMethodsOf root n); [reflexivity | discriminate].
  - intros H [p n] Hp. cbn [checkInterfaceNode].
    destruct (IsComposite n) eqn:Hcomp; [|reflexivity]. cbn [andb].
    assert (Hn : In n (descendants root)).
    { apply childrenWithParent_descendants. now exists p. }
    rewrite (proj2 (missingMethodsOf_nil root n) (H n Hn Hcomp)). reflexivity.
Qed.

Lemma missingFieldsOf_nil (entityFields fields : list Field) :
  missingFieldsOf entityFields fields = []
  <-> forall f, In f fields ->
                fieldExistsInEntityFields entityFields (fName f) = true.
Proof.
  unfold missingFieldsOf. induction fields as [|f fs IH]; cbn [List.filter map].
  - split; [intros _ f [] | reflexivity].
  - destruct (fieldExistsInEntityFields entityFields (fName f)) eqn:Hf;
      cbn [negb].
    + rewrite IH. split.
      * intros H g [<- | Hg]; auto.
      * intros H g Hg. apply H. now right.
    + split; [discriminate|]. intros H.
      rewrite (H f (or_introl eq_refl)) in Hf. discriminate.
Qed.

Lemma validateAgainstEntity_None ext structs name fields entityName parent ctx :
  validateCompositeFieldsAgainstEntity ext structs name fields entityName
    parent ctx = None
  <-> fieldsExistIn ext structs entityName fields.
Proof.
  unfold validateCompositeFieldsAgainstEntity, fieldsExistIn.
  destruct (getStructByName ext structs entityName) as [entity|].
  - destruct (missingFieldsOf (sFields entity) fields) as [|m ms] eqn:Hm.
    + cbn. split; [|reflexivity]. intros _ e [= <-].
      now apply missingFieldsOf_nil.
    + cbn [length Nat.ltb Nat.leb]. split.
      * destruct (String.eqb ctx "root"); discriminate.
      * intros H. specialize (H entity eq_refl).
        apply missingFieldsOf_nil in H. congruence.
  - split; [discriminate | reflexivity].
Qed.

(** X19.  [validateExtractedFields] accepts a tree exactly when the fields of
    the root exist in the entity its composite is bound to, and the fields of
    every node below that is a reference to a composite and is embedded in the
    row exist in the entity of that node.  A composite that is not registered,
    an entity that the catalog does not have and a node that the row does not
    embed are passed over. *)
Theorem validateExtractedFields_accepts_iff (ext : Externals) (reg : Registry)
    (structs : list Struct) (t : NestedStructData) :
  validateExtractedFields ext reg (Fields t) (NestedStructs t) structs
    (StructOut t) = None
  <-> (forall compositeData,
          reg !! StructOut t = Some compositeData ->
          fieldsExistIn ext structs (cStructRootIn (Config compositeData))
                        (Fields t))
      /\ (forall m, In m (descendants t) ->
            IsComposite m = true -> IsRowFieldExistsInQuery m = true ->
            fieldsExistIn ext structs (StructIn m) (Fields m)).
Proof.
  unfold validateExtractedFields.
  rewrite validateList_first. fold (descendants t).
  assert (Hnodes :
    firstError (checkCompositeNode ext structs (StructOut t)) (descendants t)
    = None
    <-> forall m, In m (descendants t) ->
          IsComposite m = true -> IsRowFieldExistsInQuery m = true ->
          fieldsExistIn ext structs (StructIn m) (Fields m)).
  { rewrite firstError_None. split.
    - intros H m Hm Hc Hr. specialize (H m Hm).
      unfold checkCompositeNode in H. rewrite Hc, Hr in H. cbn [andb] in H.
      now apply validateAgainstEntity_None in H.
    - intros H m Hm. unfold checkCompositeNode.
      destruct (IsComposite m) eqn:Hc; [|reflexivity].
      destruct (IsRowFieldExistsInQuery m) eqn:Hr; [|reflexivity]. cbn [andb].
      apply validateAgainstEntity_None. now apply H. }
  destruct (reg !! StructOut t) as [compositeData|].
  - destruct (validateCompositeFieldsAgainstEntity ext structs (StructOut t)
                (Fields t) (cStructRootIn (Config compositeData)) (StructOut t)
                "root") as [err|] eqn:Hroot.
    + split; [discriminate|]. intros [H _].
      specialize (H compositeData eq_refl).
      apply (validateAgainstEntity_None ext structs (StructOut t) (Fields t)
               (cStructRootIn (Config compositeData)) (StructOut t) "root") in H.
      rewrite H in Hroot. discriminate.
    + apply validateAgainstEntity_None in Hroot.
      destruct (firstError _ _) as [err|] eqn:Hfirst.
      * split; [discriminate|]. intros [_ H]. apply Hnodes in H. discriminate.
      * split; [|reflexivity]. intros _. split.
        -- now intros d [= <-].
        -- now apply Hnodes.
  - destruct (firstError _ _) as [err|] eqn:Hfirst.
    + split; [discriminate|]. intros [_ H]. apply Hnodes in H. discriminate.
    + split; [|reflexivity]. intros _. split; [discriminate | now apply Hnodes].
Qed.

Lemma collectStep_distinct mode acc c :
  seenNames acc -> List.NoDup (map mMethodName acc.1) ->
  List.NoDup (map mMethodName (collectStep mode acc c).1).
Proof.
  destruct acc as [methods seen]. intros Hseen Hnd. unfold collectStep.
  destruct (includesMethod mode c && negb (bool_decide ("Get" +:+ StructIn c ∈ seen)))
    eqn:E; [|exact Hnd].
  apply andb_prop in E as [_ Hnew]. apply negb_true_iff in Hnew.
  apply bool_decide_eq_false in Hnew.
  cbn [fst]. rewrite map_app. cbn [map mMethodName].
  apply List.NoDup_app; [exact Hnd | |].
  - constructor; [intros [] | constructor].
  - intros name Hin [<- | []]. apply Hnew, Hseen. exact Hin.
Qed.

Lemma collectMethods_distinct mode t :
  forall acc,
    seenNames acc -> List.NoDup (map mMethodName acc.1) ->
    List.NoDup (map mMethodName (collectMethodsRecursive t acc mode).1).
Proof.
  induction t as [t IH] using NestedStructData_tree_ind.
  intros acc. rewrite collectMethods_unfold.
  revert acc. induction IH as [|c cs Hc _ IHcs]; intros acc Hseen Hnd;
    [exact Hnd|].
  cbn [fold_left]. apply IHcs.
  - apply collectMethods_names. apply collectStep_names, Hseen.
  - apply Hc; [apply collectStep_names, Hseen | now apply collectStep_distinct].
Qed.

(** X20.  [collectRequiredMethods] and [collectCompositeRequiredMethods] list
    no getter twice, however often an entity occurs in the tree. *)
Theorem collected_methods_are_distinct (t : NestedStructData) :
  List.NoDup (map mMethodName (collectRequiredMethods t))
  /\ List.NoDup (map mMethodName (collectCompositeRequiredMethods t)).
Proof.
  split; apply collectMethods_distinct;
    try apply seenNames_empty; constructor.
Qed.

End ValidationMore.

(** ** Resolving the registry *)

Section RegistryMore.

Variable ext : Externals.
Hypothesis Hrange : rangesOverEntries ext.

Lemma resolveStep_Ok_all resolve es :
  forall acc fields,
    fold_left (resolveStep resolve) es acc = Some (Ok fields) ->
    forall e, In e es -> exists r, resolve e.2 = Some (Ok r).
Proof.
  induction es as [|e0 es IH]; intros acc fields H e He; [contradiction|].
  cbn [fold_left] in H. destruct He as [<- | He].
  - apply resolveStep_Ok_prefix in H as (mid & Hmid & _).
    unfold resolveStep in Hmid.
    destruct acc as [[init| |]|]; try discriminate.
    destruct (resolve e0.2) as [[r| |]|]; try discriminate. eauto.
  - exact (IH _ _ H e He).
Qed.

Lemma resolveStep_all_Ok resolve es :
  (forall e, In e es -> exists r, resolve e.2 = Some (Ok r)) ->
  forall init, exists fields,
    fold_left (resolveStep resolve) es (Some (Ok init)) = Some (Ok fields).
Proof.
  induction es as [|e0 es IH]; intros Hall init; [now eauto|].
  cbn [fold_left resolveStep].
  destruct (Hall e0 (or_introl eq_refl)) as (r & ->).
  apply IH. intros e He. apply Hall. now right.
Qed.

Lemma mapRange_In (m : gmap string string) (field target : string) :
  In (field, target) (mapRange ext m) <-> m !! field = Some target.
Proof.
  rewrite <- list_elem_of_In, (Hrange m). apply elem_of_map_to_list.
Qed.

Lemma resolve_dangling (reg : Registry) (c target : string) :
  tc (refersTo reg) c target ->
  reg !! target = None ->
  forall fuel fields,
    resolveAllTreeCompositeFields ext fuel reg c <> Some (Ok fields).
Proof.
  intros Hreach Hmissing fuel. revert c Hreach.
  induction fuel as [|fuel IH]; intros c Hreach fields; [discriminate|].
  assert (Hnext : exists d field c',
             reg !! c = Some d
             /\ NestedFieldToCompositeNameMap d !! field = Some c'
             /\ (c' = target \/ tc (refersTo reg) c' target)).
  { inversion Hreach as [? ? (d & field & Hd & Hf) | ? c' ? (d & field & Hd & Hf) Htc];
      subst; exists d, field; eauto. }
  destruct Hnext as (d & field & c' & Hd & Hf & Hc').
  cbn [resolveAllTreeCompositeFields]. rewrite Hd. intros H.
  apply mapRange_In in Hf.
  destruct (resolveStep_Ok_all _ _ _ _ H (field, c') Hf) as (r & Hr).
  cbn [snd] in Hr. destruct Hc' as [-> | Hc'].
  - destruct fuel as [|fuel']; [discriminate|].
    cbn [resolveAllTreeCompositeFields] in Hr. rewrite Hmissing in Hr.
    discriminate.
  - exact (IH c' Hc' r Hr).
Qed.

(** A composite from which a composite that is not registered can be
    reached is never resolved: at no depth of recursion does
    [resolveAllTreeCompositeFields] return fields for it. *)
Lemma dangling_reference_never_resolves (reg : Registry) (c target : string) :
  tc (refersTo reg) c target ->
  reg !! target = None ->
  forall fuel fields,
    resolveAllTreeCompositeFields ext fuel reg c <> Some (Ok fields).
Proof. apply resolve_dangling. Qed.

(** X21.  In a registry without cycles where every composite referred to is
    registered, [resolveAllTreeCompositeFields] returns the fields of every
    registered composite, at any depth of recursion greater than the rank of
    the composite. *)
Theorem acyclic_registry_resolves (reg : Registry) (rank : string -> nat) :
  allReferencesRegistered reg ->
  decreasesAlongReferences reg rank ->
  forall fuel c,
    is_Some (reg !! c) -> (rank c < fuel)%nat ->
    exists fields,
      resolveAllTreeCompositeFields ext fuel reg c = Some (Ok fields).
Proof.
  intros Hclosed Hrank fuel.
  induction fuel as [|fuel IH]; intros c [d Hd] Hlt; [lia|].
  cbn [resolveAllTreeCompositeFields]. rewrite Hd.
  apply resolveStep_all_Ok. intros [field c'] Hin. cbn [snd].
  apply mapRange_In in Hin.
  apply IH.
  - exact (Hclosed c d Hd field c' Hin).
  - pose proof (Hrank c d Hd field c' Hin) as Hdec. cbn beta in Hdec. lia.
Qed.

Lemma registerAll_cons c cs reg :
  registerAll (c :: cs) reg
  = registerAll cs
      (registerCompositeStructData c (directNestedOf (cGroup c)).1
         (directNestedOf (cGroup c)).2 reg).
Proof.
  unfold registerAll. cbn [fold_left].
  now destruct (directNestedOf (cGroup c)).
Qed.

Lemma registerAll_other cs name :
  ~ In name (map cName cs) ->
  forall reg, registerAll cs reg !! name = reg !! name.
Proof.
  induction cs as [|c cs IH]; intros Hnot reg; [reflexivity|].
  rewrite registerAll_cons, IH.
  - unfold registerCompositeStructData. apply lookup_insert_ne.
    intros Heq. apply Hnot. now left.
  - intros Hin. apply Hnot. now right.
Qed.

Lemma registerAll_lookup cs composite :
  List.NoDup (map cName cs) -> In composite cs ->
  forall reg, exists d,
    registerAll cs reg !! cName composite = Some d
    /\ NestedFieldToCompositeNameMap d = (directNestedOf (cGroup composite)).2.
Proof.
  induction cs as [|c cs IH]; intros Hnd Hin reg; [contradiction|].
  cbn [map] in Hnd. apply List.NoDup_cons_iff in Hnd as [Hnot Hnd].
  rewrite registerAll_cons. destruct Hin as [-> | Hin].
  - rewrite (registerAll_other cs _ Hnot).
    unfold registerCompositeStructData. rewrite lookup_insert_eq. eauto.
  - now apply IH.
Qed.

Lemma directNestedOf_snd_fold group :
  forall acc (m : gmap string string),
    (fold_left
       (fun acc childNestedItem =>
          let '(nestedFields, m) := acc in
          (nestedFields ++ [gStructIn childNestedItem],
           if isCompositeSet childNestedItem
           then <[gStructIn childNestedItem := gStructOut childNestedItem]> m
           else m))
       group (acc, m)).2
    = fold_left
        (fun m childNestedItem =>
           if isCompositeSet childNestedItem
           then <[gStructIn childNestedItem := gStructOut childNestedItem]> m
           else m)
        group m.
Proof.
  induction group as [|c cs IH]; intros acc m; [reflexivity|].
  cbn [fold_left]. apply IH.
Qed.

Lemma directNestedOf_lookup group child :
  List.NoDup (map gStructIn group) -> In child group ->
  isCompositeSet child = true ->
  (directNestedOf group).2 !! gStructIn child = Some (gStructOut child).
Proof.
  unfold directNestedOf. rewrite directNestedOf_snd_fold.
  generalize (∅ : gmap string string).
  induction group as [|c cs IH]; intros m Hnd Hin Hcomp; [contradiction|].
  cbn [map] in Hnd. apply List.NoDup_cons_iff in Hnd as [Hnot Hnd].
  cbn [fold_left]. destruct Hin as [-> | Hin].
  - rewrite Hcomp. clear IH Hnd.
    assert (Hkeep : forall (m : gmap string string),
              fold_left
                (fun m childNestedItem =>
                   if isCompositeSet childNestedItem
                   then <[gStructIn childNestedItem :=
                            gStructOut childNestedItem]> m
                   else m) cs m !! gStructIn child
              = m !! gStructIn child).
    { induction cs as [|c cs IH]; intros m'; [reflexivity|].
      cbn [fold_left]. rewrite IH.
      - destruct (isCompositeSet c); [|reflexivity].
        apply lookup_insert_ne. intros Heq. apply Hnot. now left.
      - intros Hin. apply Hnot. now right. }
    rewrite Hkeep. apply lookup_insert_eq.
  - now apply IH.
Qed.

(** The registry holds a composite [name] that refers to [target], and no
    composite [target]. *)
Lemma resolveOne_keeps_dangling fuel name target reg c reg' :
  refersTo reg name target -> reg !! target = None ->
  resolveOne ext fuel (Some (Ok reg)) c = Some (Ok reg') ->
  refersTo reg' name target /\ reg' !! target = None.
Proof.
  intros (d & field & Hd & Hf) Hmissing. cbn [resolveOne].
  destruct (resolveAllTreeCompositeFields ext fuel reg (cName c))
    as [[fields| |]|]; try discriminate.
  destruct (reg !! cName c) as [compositeStruct|] eqn:Hc; [|discriminate].
  intros [= <-]. split.
  - destruct (decide (cName c = name)) as [Heq | Hne].
    + subst name. rewrite Hd in Hc. injection Hc as <-.
      exists (setEntityFieldsToExclude d fields), field.
      split; [apply lookup_insert_eq | exact Hf].
    + exists d, field. split; [|exact Hf]. now rewrite lookup_insert_ne.
  - rewrite lookup_insert_ne; [exact Hmissing|]. congruence.
Qed.

Lemma resolveAll_dangling fuel name target cs :
  In name (map cName cs) ->
  forall reg,
    refersTo reg name target -> reg !! target = None ->
    forall reg', resolveAll ext fuel cs reg <> Some (Ok reg').
Proof.
  unfold resolveAll.
  induction cs as [|c cs IH]; intros Hin reg Href Hmissing reg'; [contradiction|].
  cbn [fold_left].
  destruct (resolveOne ext fuel (Some (Ok reg)) c) as [[reg1| |]|] eqn:Hone.
  - destruct (resolveOne_keeps_dangling fuel name target reg c reg1 Href
                Hmissing Hone) as [Href1 Hmissing1].
    destruct (decide (cName c = name)) as [Heq | Hne].
    + exfalso. cbn [resolveOne] in Hone. rewrite Heq in Hone.
      destruct (resolveAllTreeCompositeFields ext fuel reg name)
        as [[fields| |]|] eqn:Hres; try discriminate.
      exact (resolve_dangling reg name target (tc_once _ _ _ Href) Hmissing
               fuel fields Hres).
    + apply IH; [|exact Href1 | exact Hmissing1].
      destruct Hin as [Heq | Hin]; [contradiction | exact Hin].
  - rewrite resolveAll_not_Ok; [discriminate | discriminate].
  - rewrite resolveAll_not_Ok; [discriminate | discriminate].
  - rewrite resolveAll_not_Ok; [discriminate | discriminate].
Qed.

(** X22.  A configuration in which a composite has a child that refers to a
    composite nobody defines is never given a registry by
    [buildCompositeStructRegistry], whatever the depth of recursion allowed. *)
Theorem undefined_composite_is_rejected (fuel : nat) (opts : Options)
    (reg0 : Registry) (nestedCfg : NestedConfig)
    (composite : NestedCompositeConfig) (child : NestedGroupConfig) :
  Nested opts = Some nestedCfg ->
  List.NoDup (map cName (Composites nestedCfg)) ->
  In composite (Composites nestedCfg) ->
  List.NoDup (map gStructIn (cGroup composite)) ->
  In child (cGroup composite) ->
  isCompositeSet child = true ->
  ~ In (gStructOut child) (map cName (Composites nestedCfg)) ->
  reg0 !! gStructOut child = None ->
  forall reg, buildCompositeStructRegistry ext fuel opts reg0 <> Some (Ok reg).
Proof.
  intros Hn Hnames Hin Hins Hchild Hcomp Hundef Hreg0 reg.
  unfold buildCompositeStructRegistry. rewrite Hn.
  apply (resolveAll_dangling fuel (cName composite) (gStructOut child)).
  - now apply in_map.
  - destruct (registerAll_lookup _ composite Hnames Hin reg0) as (d & Hd & Hmap).
    exists d, (gStructIn child). split; [exact Hd|].
    rewrite Hmap. now apply directNestedOf_lookup.
  - now rewrite registerAll_other.
Qed.

End RegistryMore.

Lemma exRegistry_closed : allReferencesRegistered exRegistry.
Proof.
  unfold allReferencesRegistered.
  apply (bool_decide_unpack _). vm_compute. exact I.
Qed.

Lemma exRegistry_ranked : decreasesAlongReferences exRegistry exRank.
Proof.
  unfold decreasesAlongReferences.
  apply (bool_decide_unpack _). vm_compute. exact I.
Qed.

Lemma acyclic_registry_resolves_witness :
  rangesOverEntries exExt
  /\ allReferencesRegistered exRegistry
  /\ decreasesAlongReferences exRegistry exRank
  /\ is_Some (exRegistry !! "PostComposite")
  /\ (exRank "PostComposite" < 2)%nat
  /\ exists fields,
       resolveAllTreeCompositeFields exExt 2 exRegistry "PostComposite"
       = Some (Ok fields).
Proof.
  assert (Hsome : is_Some (exRegistry !! "PostComposite")).
  { apply (bool_decide_unpack _). vm_compute. exact I. }
  assert (Hlt : (exRank "PostComposite" < 2)%nat) by (vm_compute; lia).
  split; [exact exExt_ranges|]. split; [exact exRegistry_closed|].
  split; [exact exRegistry_ranked|]. split; [exact Hsome|]. split; [exact Hlt|].
  exact (acyclic_registry_resolves exExt exExt_ranges exRegistry exRank
           exRegistry_closed exRegistry_ranked 2 "PostComposite" Hsome Hlt).
Defined.

(** The fields of [PostComposite]: its own child and the child of the
    composite it refers to. *)
Example exRegistry_resolves_PostComposite :
  resolveAllTreeCompositeFields exExt 2 exRegistry "PostComposite"
  = Some (Ok ["User"; "Image"]).
Proof. vm_compute. reflexivity. Qed.

Lemma dangling_reference_never_resolves_witness :
  tc (refersTo (registerAll [exDanglingComposite] ∅))
     "PostComposite" "UserComposite"
  /\ registerAll [exDanglingComposite] ∅ !! "UserComposite" = None
  /\ resolveAllTreeCompositeFields exExt 5 (registerAll [exDanglingComposite] ∅)
       "PostComposite" <> Some (Ok ["User"]).
Proof.
  assert (Href : tc (refersTo (registerAll [exDanglingComposite] ∅))
                    "PostComposite" "UserComposite").
  { apply tc_once. eexists _, "User". split; vm_compute; reflexivity. }
  assert (Hmissing : registerAll [exDanglingComposite] ∅ !! "UserComposite"
                     = None) by (vm_compute; reflexivity).
  split; [exact Href|]. split; [exact Hmissing|].
  exact (dangling_reference_never_resolves exExt exExt_ranges _ _ _
           Href Hmissing 5 ["User"]).
Defined.

Lemma undefined_composite_is_rejected_witness :
  rangesOverEntries exExt
  /\ Nested exDanglingOptions
     = Some {| Composites := [exDanglingComposite]; Queries := [] |}
  /\ In (groupNode "User" "UserComposite" (Some true) [])
        (cGroup exDanglingComposite)
  /\ ~ In "UserComposite" (map cName [exDanglingComposite])
  /\ buildCompositeStructRegistry exExt 5 exDanglingOptions ∅ <> Some (Ok ∅).
Proof.
  assert (Hchild : In (groupNode "User" "UserComposite" (Some true) [])
                      (cGroup exDanglingComposite)) by now left.
  assert (Hundef : ~ In "UserComposite" (map cName [exDanglingComposite])).
  { intros [H | []]. discriminate H. }
  split; [exact exExt_ranges|]. split; [reflexivity|].
  split; [exact Hchild|]. split; [exact Hundef|].
  apply (undefined_composite_is_rejected exExt exExt_ranges 5 exDanglingOptions ∅
           {| Composites := [exDanglingComposite]; Queries := [] |}
           exDanglingComposite (groupNode "User" "UserComposite" (Some true) [])).
  - reflexivity.
  - repeat constructor. intros [].
  - now left.
  - repeat constructor. intros [].
  - exact Hchild.
  - reflexivity.
  - exact Hundef.
  - reflexivity.
Defined.

(** What the builder answers there: the error of the lookup that fails. *)
Example undefined_composite_error :
  buildCompositeStructRegistry exExt 5 exDanglingOptions ∅
  = Some (Err (ErrCompositeNotInRegistryDirect "UserComposite")).
Proof. vm_compute. reflexivity. Qed.

(** ** Trees and data items of a run *)

Section TreesMore.

Lemma eraseFlags_unfold t :
  eraseFlags t
  = setDuplicatedRelativeToParents
      (setNestedStructs t (map eraseFlags (NestedStructs t))) ∅.
Proof. destruct t; reflexivity. Qed.

Lemma eraseFlags_setDuplicated t d :
  eraseFlags (setDuplicatedRelativeToParents t d) = eraseFlags t.
Proof. rewrite !eraseFlags_unfold. reflexivity. Qed.

(** X23.  [updateDuplicatesFromNodePerspective] changes duplicate flags and
    nothing else: without the flags the tree is the one it was, and the flags
    of the node the function is called on are left as they are. *)
Theorem updateDuplicates_changes_flags_only (t : NestedStructData)
    (ancestors : list NestedStructData) :
  eraseFlags (updateDuplicatesFromNodePerspective t ancestors) = eraseFlags t
  /\ DuplicatedRelativeToParents
       (updateDuplicatesFromNodePerspective t ancestors)
     = DuplicatedRelativeToParents t.
Proof.
  split; [|rewrite updateDuplicates_unfold; reflexivity].
  revert ancestors.
  induction t as [t IH] using NestedStructData_tree_ind. intros ancestors.
  rewrite updateDuplicates_unfold.
  rewrite (eraseFlags_unfold (setNestedStructs t _)), (eraseFlags_unfold t).
  cbn [NestedStructs setNestedStructs]. rewrite map_map.
  f_equal.
  assert (Hmap : forall l,
            Forall (fun c => forall anc,
                      eraseFlags (updateDuplicatesFromNodePerspective c anc)
                      = eraseFlags c) l ->
            map (fun x => eraseFlags
                   (setDuplicatedRelativeToParents
                      (updateDuplicatesFromNodePerspective x (ancestors ++ [t]))
                      (duplicatedAtLevels x (ancestors ++ [t])
                         (DuplicatedRelativeToParents x)))) l
            = map eraseFlags l).
  { induction 1 as [|c cs Hc _ IHcs]; [reflexivity|]. cbn [map].
    now rewrite eraseFlags_setDuplicated, Hc, IHcs. }
  rewrite (Hmap _ IH). reflexivity.
Qed.

Lemma sameNode_skipsChildren n n' :
  sameNode n n' -> skipsChildren n -> skipsChildren n'.
Proof.
  intros [Hs Hm] H Hskip.
  assert (Hn : SkipStructGeneration n = true).
  { rewrite <- Hskip. exact (f_equal SkipStructGeneration Hs). }
  specialize (H Hn). clear -H Hm.
  revert H Hm. generalize (NestedStructs n) (NestedStructs n').
  induction l as [|c cs IH]; intros [|c' cs'] H Hm; try discriminate;
    [constructor|].
  cbn [map] in Hm.
  pose proof (f_equal (hd (shallow c)) Hm) as Hc.
  pose proof (f_equal (@tl _) Hm) as Hcs. cbn [hd tl] in Hc, Hcs.
  apply List.Forall_cons_iff in H as [Hc1 Hcs1].
  constructor; [|now apply IH].
  rewrite <- Hc1. exact (f_equal SkipStructGeneration (eq_sym Hc)).
Qed.

Lemma Built_skipsChildren ext b queryName config parent structFields reg t reg' :
  Built ext b queryName config parent structFields reg t reg' ->
  List.Forall skipsChildren (allNodes t)
  /\ (isRootOf parent = false -> parentSkipsOf parent = true ->
      SkipStructGeneration t = true).
Proof.
  intros H.
  induction H using Built_mut_ind
    with (P0 := fun parent _ _ l _ =>
                  List.Forall skipsChildren (flat_map allNodes l)
                  /\ (SkipStructGeneration parent = true ->
                      List.Forall (fun c => SkipStructGeneration c = true) l)).
  - set (node := builtNode _ _ _ _ _ _ _ _ _) in *.
    destruct IHBuilt as [Hall Hchildren]. split.
    + pose proof (allNodes_updateDuplicates (setNestedStructs node nestedStructs) [])
        as Hsame.
      assert (Hbefore : List.Forall skipsChildren
                          (allNodes (setNestedStructs node nestedStructs))).
      { rewrite allNodes_unfold. constructor; [|exact Hall].
        intros Hskip. apply Hchildren, Hskip. }
      clear -Hsame Hbefore.
      induction Hsame as [|n n' ns ns' Hs _ IH]; [constructor|].
      apply List.Forall_cons_iff in Hbefore as [Hn Hns].
      constructor; [now apply (sameNode_skipsChildren n) | now apply IH].
    + intros Hroot Hparent.
      destruct (root_flags_updateDuplicates
                  (setNestedStructs node nestedStructs) []) as [_ ->].
      subst node. cbn. unfold skipOf. rewrite Hroot, Hparent.
      cbn. apply orb_true_r.
  - split; [constructor | constructor].
  - destruct IHBuilt as [Ht Hroot]. destruct IHBuilt0 as [Hl Hrest]. split.
    + cbn [flat_map]. apply List.Forall_app. now split.
    + intros Hskip. constructor; [now apply Hroot | now apply Hrest].
Qed.

Lemma allNodes_sub (t n : NestedStructData) :
  In n (allNodes t) -> forall m, In m (allNodes n) -> In m (allNodes t).
Proof.
  induction t as [t IH] using NestedStructData_tree_ind.
  rewrite (allNodes_unfold t). intros [<- | Hn] m Hm.
  - now rewrite allNodes_unfold in Hm.
  - right. apply in_flat_map in Hn as (c & Hc & Hn).
    apply in_flat_map. exists c. split; [exact Hc|].
    rewrite List.Forall_forall in IH. exact (IH c Hc Hn m Hm).
Qed.

Lemma skipsChildren_descendants (n : NestedStructData) :
  (forall m, In m (allNodes n) -> skipsChildren m) ->
  SkipStructGeneration n = true ->
  forall d, In d (descendants n) -> SkipStructGeneration d = true.
Proof.
  induction n as [n IH] using NestedStructData_tree_ind.
  intros Hall Hskip d. rewrite descendants_unfold.
  intros (c & Hc & Hd)%in_flat_map.
  assert (Hcs : SkipStructGeneration c = true).
  { pose proof (Hall n ltac:(rewrite allNodes_unfold; now left) Hskip) as Hch.
    rewrite List.Forall_forall in Hch. now apply Hch. }
  destruct Hd as [<- | Hd]; [exact Hcs|].
  rewrite List.Forall_forall in IH. apply (IH c Hc); [|exact Hcs | exact Hd].
  intros m Hm. apply Hall. rewrite allNodes_unfold. right.
  apply in_flat_map. now exists c.
Qed.

Lemma buildNestedDataItemsLoop_Built ext b fuel queryConfigs :
  forall items roots reg result reg',
    buildNestedDataItemsLoop ext b fuel queryConfigs items roots reg
    = Some (Ok (result, reg')) ->
    forall P : NestedStructData -> Prop,
      (forall queryName config structFields reg0 t reg1,
          Built ext b queryName config None structFields reg0 t reg1 -> P t) ->
      List.Forall (fun item => forall t, tRootStructData item = Some t -> P t) items ->
      List.Forall (fun item => forall t, tRootStructData item = Some t -> P t) result.
Proof.
  induction queryConfigs as [|config rest IH];
    intros items roots reg result reg' H P HP Hitems.
  - cbn in H. injection H as <- <-. exact Hitems.
  - cbn [buildNestedDataItemsLoop] in H.
    destruct (findTargetQuery (queries b) (qcQuery config)) as [query|];
      [|exact (IH _ _ _ _ _ H P HP Hitems)].
    match type of H with
    | match ?w with _ => _ end = _ => destruct w as [firstQuery|]
    end.
    + apply (IH _ _ _ _ _ H P HP).
      apply List.Forall_app. split; [exact Hitems|].
      constructor; [|constructor]. intros t Ht. discriminate Ht.
    + destruct (buildNestedData ext b fuel query config reg)
        as [[[item reg1]| |]|] eqn:Hb; try discriminate.
      apply (IH _ _ _ _ _ H P HP).
      apply List.Forall_app. split; [exact Hitems|].
      constructor; [|constructor]. intros t Ht.
      unfold buildNestedData, buildRootStructData in Hb.
      destruct (buildNestedStructData _ _ _ _ _ _ _ _)
        as [[[t0 reg2]| |]|] eqn:Hbuild; try discriminate.
      injection Hb as <- <-. cbn in Ht. injection Ht as <-.
      apply buildNestedStructData_Built in Hbuild. exact (HP _ _ _ _ _ _ Hbuild).
Qed.

Lemma populateLoop_Built ext b fuel sources :
  forall reg result reg',
    populateLoop ext b fuel sources reg = Some (Ok (result, reg')) ->
    forall P : NestedStructData -> Prop,
      (forall queryName config structFields reg0 t reg1,
          Built ext b queryName config None structFields reg0 t reg1 -> P t) ->
      forall t, In t (treesOf result) -> P t.
Proof.
  induction sources as [|src rest IH]; intros reg result reg' H P HP t Ht.
  - cbn in H. injection H as <- _. contradiction.
  - cbn [populateLoop] in H.
    destruct (buildNestedDataItems ext b fuel (Configs src) reg)
      as [[[items reg1]| |]|] eqn:Hitems; try discriminate.
    destruct (populateLoop ext b fuel rest reg1) as [[[rest' reg2]| |]|] eqn:Hl;
      try discriminate.
    injection H as <- <-.
    unfold treesOf in Ht. cbn [flat_map NestedDataItems] in Ht.
    apply in_app_iff in Ht as [Ht | Ht].
    + pose proof (buildNestedDataItemsLoop_Built _ _ _ _ _ _ _ _ _ Hitems P HP
                    (List.Forall_nil _)) as Hall.
      apply list_elem_of_In, list_elem_of_omap in Ht as (item & Hitem & Hroot).
      rewrite List.Forall_forall in Hall.
      apply (Hall item); [now apply list_elem_of_In | exact Hroot].
    + exact (IH _ _ _ Hl P HP t Ht).
Qed.

(** Every tree of a run is the outcome of a successful
    [buildNestedStructData] for a root. *)
Lemma run_trees_Built ext fuel opts qs sts sources reg0 result reg' :
  populateNestedDataItems ext fuel opts qs sts sources reg0
  = Some (Ok (result, reg')) ->
  forall P : NestedStructData -> Prop,
    (forall queryName config structFields reg t reg1,
        Built ext {| options := opts; queries := qs; structs := sts;
                     nested := sources |}
              queryName config None structFields reg t reg1 -> P t) ->
    forall t, In t (treesOf result) -> P t.
Proof.
  unfold populateNestedDataItems. intros H.
  destruct (buildCompositeStructRegistry ext fuel opts reg0)
    as [[reg| |]|]; try discriminate.
  exact (populateLoop_Built _ _ _ _ _ _ _ H).
Qed.

(** X24.  In the trees of a run, below a node whose struct is not generated
    no struct is generated either. *)
Theorem skipped_node_has_skipped_descendants ext fuel opts qs sts sources reg0
    result reg' :
  populateNestedDataItems ext fuel opts qs sts sources reg0
  = Some (Ok (result, reg')) ->
  forall t n d,
    In t (treesOf result) -> In n (allNodes t) ->
    SkipStructGeneration n = true -> In d (descendants n) ->
    SkipStructGeneration d = true.
Proof.
  intros H t n d Ht. revert n d.
  apply (run_trees_Built _ _ _ _ _ _ _ _ _ H
           (fun t => forall n d, In n (allNodes t) ->
                       SkipStructGeneration n = true -> In d (descendants n) ->
                       SkipStructGeneration d = true)); [|exact Ht].
  clear. intros queryName config structFields reg t reg1 HB n d Hn Hskip.
  apply Built_skipsChildren in HB as [Hall _].
  rewrite List.Forall_forall in Hall.
  apply skipsChildren_descendants; [|exact Hskip].
  intros m Hm. apply Hall. now apply (allNodes_sub t n).
Qed.

End TreesMore.

Lemma skipped_node_has_skipped_descendants_witness :
  exists result reg' t n d,
    populateNestedDataItems exExt 10 exNestedSharedOptions exSharedQueries
      exSharedStructs
      (getNestedSourceWithConfigs exNestedSharedOptions exSharedQueries) ∅
    = Some (Ok (result, reg'))
    /\ In t (treesOf result) /\ In n (allNodes t)
    /\ SkipStructGeneration n = true /\ In d (descendants n)
    /\ SkipStructGeneration d = true.
Proof.
  assert (Hok : secondTreeSkips
                  (populateNestedDataItems exExt 10 exNestedSharedOptions
                     exSharedQueries exSharedStructs
                     (getNestedSourceWithConfigs exNestedSharedOptions
                        exSharedQueries) ∅) = true)
    by (vm_compute; reflexivity).
  unfold secondTreeSkips in Hok.
  destruct (populateNestedDataItems exExt 10 exNestedSharedOptions
              exSharedQueries exSharedStructs
              (getNestedSourceWithConfigs exNestedSharedOptions exSharedQueries) ∅)
    as [[[result reg']| |]|] eqn:H; try discriminate Hok.
  cbn [builtTrees] in Hok.
  destruct (treesOf result) as [|t0 [|t [|]]] eqn:Ht; try discriminate Hok.
  destruct (NestedStructs t) as [|n ns] eqn:Hn; [discriminate Hok|].
  apply andb_prop in Hok as [Hskip Hd].
  destruct (NestedStructs n) as [|d ds] eqn:Hdn; [discriminate Hd|].
  assert (Hin : In t (treesOf result)) by (rewrite Ht; right; now left).
  assert (Hnin : In n (allNodes t)).
  { rewrite allNodes_unfold, Hn. right. cbn [flat_map].
    apply in_or_app. left. rewrite allNodes_unfold. now left. }
  assert (Hdin : In d (descendants n)).
  { rewrite descendants_unfold, Hdn. now left. }
  exists result, reg', t, n, d.
  split; [reflexivity|]. split; [exact Hin|]. split; [exact Hnin|].
  split; [exact Hskip|]. split; [exact Hdin|].
  exact (skipped_node_has_skipped_descendants _ _ _ _ _ _ _ _ _ H t n d
           Hin Hnin Hskip Hdin).
Defined.

Section DataItems.

Variable ext : Externals.
Variable b : NestedQueryTemplateDataBuilder.
Variable fuel : nat.

Lemma buildNestedData_item query config reg item reg' :
  buildNestedData ext b fuel query config reg = Some (Ok (item, reg')) ->
  tQuery item = query /\ tRootStructName item = qcStructRoot config
  /\ isBuiltItem item.
Proof.
  unfold buildNestedData.
  destruct (buildRootStructData ext b fuel query config reg)
    as [[[t reg1]| |]|]; try discriminate.
  intros [= <- <-]. repeat split. cbn. eauto.
Qed.

Lemma buildNestedDataItemsLoop_items queryConfigs :
  forall items roots reg result reg',
    buildNestedDataItemsLoop ext b fuel queryConfigs items roots reg
    = Some (Ok (result, reg')) ->
    rootsInvariant (queries b) roots items ->
    exists new,
      result = items ++ new
      /\ map (fun item => (tQuery item, tRootStructName item)) new
         = knownQueries (queries b) queryConfigs
      /\ wrappersFollow (queries b) items new.
Proof.
  induction queryConfigs as [|config rest IH];
    intros items roots reg result reg' H Hinv.
  - cbn in H. injection H as <- <-. exists []. now rewrite app_nil_r.
  - cbn [buildNestedDataItemsLoop] in H. cbn [knownQueries flat_map].
    fold (knownQueries (queries b) rest).
    destruct (findTargetQuery (queries b) (qcQuery config)) as [query|] eqn:Hq;
      [|exact (IH _ _ _ _ _ H Hinv)].
    set (structRoot := if String.eqb (qcStructRoot config) ""
                       then qcQuery config +:+ "Group"
                       else qcStructRoot config) in *.
    destruct (roots !! structRoot) as [firstQuery|] eqn:Hroot.
    + destruct (negb (String.eqb firstQuery (qcQuery config))) eqn:Hdiff.
      * (* a wrapper *)
        destruct (IH _ _ _ _ _ H) as (new & -> & Hmap & Hfollow).
        { intros R q HR. destruct (Hinv R q HR) as (first & Hin & Hfirst).
          exists first. split; [apply in_or_app; now left | exact Hfirst]. }
        exists (buildNestedWrapperData b query config firstQuery :: new).
        split; [now rewrite <- app_assoc|]. split; [cbn; now rewrite Hmap|].
        split; [|exact Hfollow]. right. split; [reflexivity|].
        exact (Hinv structRoot firstQuery Hroot).
      * (* the same query again: built once more *)
        destruct (buildNestedData ext b fuel query config reg)
          as [[[item reg1]| |]|] eqn:Hb; try discriminate.
        apply buildNestedData_item in Hb as (Hquery & Hname & Hbuilt).
        destruct (IH _ _ _ _ _ H) as (new & -> & Hmap & Hfollow).
        { intros R q HR.
          destruct (decide (R = structRoot)) as [-> | Hne].
          - rewrite lookup_insert_eq in HR. injection HR as <-.
            exists item. split; [apply in_or_app; right; now left|].
            split; [apply Hbuilt | now rewrite Hquery].
          - rewrite lookup_insert_ne in HR by congruence.
            destruct (Hinv R q HR) as (first & Hin & Hfirst).
            exists first. split; [apply in_or_app; now left | exact Hfirst]. }
        exists (item :: new).
        split; [now rewrite <- app_assoc|].
        split; [cbn; now rewrite Hmap, Hquery, Hname|].
        split; [now left | exact Hfollow].
    + destruct (buildNestedData ext b fuel query config reg)
        as [[[item reg1]| |]|] eqn:Hb; try discriminate.
      apply buildNestedData_item in Hb as (Hquery & Hname & Hbuilt).
      destruct (IH _ _ _ _ _ H) as (new & -> & Hmap & Hfollow).
      { intros R q HR.
        destruct (decide (R = structRoot)) as [-> | Hne].
        - rewrite lookup_insert_eq in HR. injection HR as <-.
          exists item. split; [apply in_or_app; right; now left|].
          split; [apply Hbuilt | now rewrite Hquery].
        - rewrite lookup_insert_ne in HR by congruence.
          destruct (Hinv R q HR) as (first & Hin & Hfirst).
          exists first. split; [apply in_or_app; now left | exact Hfirst]. }
      exists (item :: new).
      split; [now rewrite <- app_assoc|].
      split; [cbn; now rewrite Hmap, Hquery, Hname|].
      split; [now left | exact Hfollow].
Qed.

(** X25.  When [buildNestedDataItems] succeeds it has made one item for every
    configuration whose query the catalog has, in the order of the
    configurations, each with the query found and the root name configured;
    a configuration for an unknown query leaves no item. *)
Theorem one_item_per_known_configuration
    (queryConfigs : list NestedQueryConfig) (reg : Registry)
    (items : list NestedQueryTemplateData) (reg' : Registry) :
  buildNestedDataItems ext b fuel queryConfigs reg = Some (Ok (items, reg')) ->
  map (fun item => (tQuery item, tRootStructName item)) items
  = knownQueries (queries b) queryConfigs.
Proof.
  unfold buildNestedDataItems. intros H.
  apply buildNestedDataItemsLoop_items in H as (new & -> & Hmap & _);
    [exact Hmap|].
  intros R q HR. rewrite lookup_empty in HR. discriminate.
Qed.

(** X26.  Every item [buildNestedDataItems] makes either carries a tree, and
    then casts to no other query, or stands for the tree of another query:
    then an item before it carries a tree, and the query the item casts to is
    the query of that earlier item. *)
Theorem wrappers_follow_built_items
    (queryConfigs : list NestedQueryConfig) (reg : Registry)
    (items : list NestedQueryTemplateData) (reg' : Registry) :
  buildNestedDataItems ext b fuel queryConfigs reg = Some (Ok (items, reg')) ->
  wrappersFollow (queries b) [] items.
Proof.
  unfold buildNestedDataItems. intros H.
  apply buildNestedDataItemsLoop_items in H as (new & -> & _ & Hfollow);
    [exact Hfollow|].
  intros R q HR. rewrite lookup_empty in HR. discriminate.
Qed.

End DataItems.

Lemma exWrapper_run :
  exists items reg',
    buildNestedDataItems exExt exWrapperBuilder 10 exWrapperConfigs exRegistry
    = Some (Ok (items, reg'))
    /\ map (fun item => (MethodName (tQuery item), tCastToQueryName item,
                         bool_decide (is_Some (tRootStructData item)))) items
       = [ ("GetPosts", "", true); ("ListPosts", "GetPosts", false) ].
Proof.
  assert (Hok : match buildNestedDataItems exExt exWrapperBuilder 10
                        exWrapperConfigs exRegistry with
                | Some (Ok (items, _)) =>
                    bool_decide
                      (map (fun item =>
                              (MethodName (tQuery item), tCastToQueryName item,
                               bool_decide (is_Some (tRootStructData item))))
                           items
                       = [ ("GetPosts", "", true); ("ListPosts", "GetPosts", false) ])
                | _ => false
                end = true) by (vm_compute; reflexivity).
  destruct (buildNestedDataItems exExt exWrapperBuilder 10 exWrapperConfigs
              exRegistry) as [[[items reg']| |]|]; try discriminate Hok.
  exists items, reg'. split; [reflexivity|].
  now apply bool_decide_eq_true in Hok.
Qed.

Lemma one_item_per_known_configuration_witness :
  exists items reg',
    buildNestedDataItems exExt exWrapperBuilder 10 exWrapperConfigs exRegistry
    = Some (Ok (items, reg'))
    /\ map (fun item => (tQuery item, tRootStructName item)) items
       = knownQueries exWrapperQueries exWrapperConfigs.
Proof.
  destruct exWrapper_run as (items & reg' & H & _).
  exists items, reg'. split; [exact H|].
  exact (one_item_per_known_configuration exExt exWrapperBuilder 10 _ _ _ _ H).
Defined.

Lemma wrappers_follow_built_items_witness :
  exists items reg',
    buildNestedDataItems exExt exWrapperBuilder 10 exWrapperConfigs exRegistry
    = Some (Ok (items, reg'))
    /\ wrappersFollow exWrapperQueries [] items.
Proof.
  destruct exWrapper_run as (items & reg' & H & _).
  exists items, reg'. split; [exact H|].
  exact (wrappers_follow_built_items exExt exWrapperBuilder 10 _ _ _ _ H).
Defined.

(** ** Field types and query roots *)

(** X27.  [isQueryRootComposite] and
    [IsCompositeStructWillBeGeneratedInAnotherFile] are one function under two
    names: for a reference to a composite both say whether some configured
    query of some source, the one being generated included, has the composite
    as its root. *)
Theorem isQueryRootComposite_is_willBeGenerated
    (b : NestedQueryTemplateDataBuilder) (config : NestedGroupConfig) :
  isQueryRootComposite b config
  = IsCompositeStructWillBeGeneratedInAnotherFile b config.
Proof.
  unfold isQueryRootComposite, IsCompositeStructWillBeGeneratedInAnotherFile.
  generalize (GetIsComposite config). intros g.
  assert (Hinner : forall cs,
            existsb (fun nestedConfig =>
                       String.eqb (qcStructRoot nestedConfig) (gStructOut config)
                       && g) cs
            = g && existsb (fun nestedConfig =>
                              String.eqb (qcStructRoot nestedConfig)
                                         (gStructOut config)) cs).
  { induction cs as [|c cs IH]; cbn [existsb]; [now destruct g|].
    rewrite IH. destruct g, (String.eqb _ _); reflexivity. }
  assert (Houter : forall l,
            existsb (fun nestedItem =>
                       existsb (fun nestedConfig =>
                                  String.eqb (qcStructRoot nestedConfig)
                                             (gStructOut config) && g)
                               (Configs nestedItem)) l
            = g && existsb (fun nestedItem =>
                              existsb (fun nestedConfig =>
                                         String.eqb (qcStructRoot nestedConfig)
                                                    (gStructOut config))
                                      (Configs nestedItem)) l).
  { induction l as [|src rest IH]; cbn [existsb]; [now destruct g|].
    rewrite IH, Hinner. destruct g; reflexivity. }
  rewrite Houter. now destruct g.
Qed.

Lemma builtNode_typedByFlags ext b config parent structFields reg structIn
    isAlreadyGenerated rowFieldExists :
  typedByFlags (OutputModelsPackage (options b))
    (builtNode ext b config parent structFields reg structIn
       isAlreadyGenerated rowFieldExists).
Proof.
  unfold typedByFlags, fieldTypeOf, builtNode, newNestedStructData, getFieldType.
  cbn. split; [|reflexivity].
  destruct (shouldReuseEntityStruct b (gStructOut config) (gStructIn config) config),
    (GetIsSlice config), (GetIsPointer config); reflexivity.
Qed.

Lemma sameNode_typedByFlags pkg n n' :
  sameNode n n' -> typedByFlags pkg n -> typedByFlags pkg n'.
Proof.
  intros [Hs _] [Hf Hr]. unfold typedByFlags, fieldTypeOf in *.
  rewrite <- (f_equal FieldType Hs : FieldType n = FieldType n').
  rewrite <- (f_equal RowFieldType Hs : RowFieldType n = RowFieldType n').
  rewrite <- (f_equal RowFieldName Hs : RowFieldName n = RowFieldName n').
  rewrite <- (f_equal IsSlice Hs : IsSlice n = IsSlice n').
  rewrite <- (f_equal IsPointer Hs : IsPointer n = IsPointer n').
  rewrite <- (f_equal IsEntityStruct Hs : IsEntityStruct n = IsEntityStruct n').
  rewrite <- (f_equal StructOut Hs : StructOut n = StructOut n').
  now split.
Qed.

Lemma Built_typedByFlags ext b queryName config parent structFields reg t reg' :
  Built ext b queryName config parent structFields reg t reg' ->
  List.Forall (typedByFlags (OutputModelsPackage (options b))) (allNodes t).
Proof.
  intros H.
  induction H using Built_mut_ind
    with (P0 := fun _ _ _ l _ =>
                  List.Forall (typedByFlags (OutputModelsPackage (options b)))
                              (flat_map allNodes l)).
  - pose proof (builtNode_typedByFlags ext b config parent structFields reg
                  structIn isAlreadyGenerated rowFieldExists) as Hnode.
    set (node := builtNode _ _ _ _ _ _ _ _ _) in *.
    pose proof (allNodes_updateDuplicates (setNestedStructs node nestedStructs) [])
      as Hsame.
    assert (Hall : List.Forall (typedByFlags (OutputModelsPackage (options b)))
                     (allNodes (setNestedStructs node nestedStructs))).
    { rewrite allNodes_unfold. constructor; [exact Hnode | assumption]. }
    clear -Hsame Hall.
    induction Hsame as [|n n' ns ns' Hs _ IH]; [constructor|].
    apply List.Forall_cons_iff in Hall as [Hn Hns].
    constructor; [now apply (sameNode_typedByFlags _ n) | now apply IH].
  - constructor.
  - cbn [flat_map]. apply List.Forall_app. now split.
Qed.

(** X28.  In the trees of a run the type of the field that holds a node is
    spelled from the node's flags: the mark of a slice, the mark of a pointer,
    and for an entity struct the entity in the package [entity], whatever the
    models package of the options is called; the type of the row field is the
    entity in the models package of the options. *)
Theorem field_types_follow_flags ext fuel opts qs sts sources reg0 result reg' :
  populateNestedDataItems ext fuel opts qs sts sources reg0
  = Some (Ok (result, reg')) ->
  forall t n, In t (treesOf result) -> In n (allNodes t) ->
    FieldType n = fieldTypeOf n
    /\ RowFieldType n = OutputModelsPackage opts +:+ "." +:+ RowFieldName n.
Proof.
  intros H t n Ht. revert n.
  apply (run_trees_Built _ _ _ _ _ _ _ _ _ H
           (fun t => forall n, In n (allNodes t) ->
                       typedByFlags (OutputModelsPackage opts) n)); [|exact Ht].
  clear. intros queryName config structFields reg t reg1 HB n Hn.
  apply Built_typedByFlags in HB. cbn [options] in HB.
  rewrite List.Forall_forall in HB. now apply HB.
Qed.

Lemma field_types_follow_flags_witness :
  exists result reg' t,
    populateNestedDataItems exExt 10 exOptionsN exQueries exStructs
      (getNestedSourceWithConfigs exOptionsN exQueries) ∅
    = Some (Ok (result, reg'))
    /\ In t (treesOf result)
    /\ In t (allNodes t)
    /\ FieldType t = fieldTypeOf t
    /\ RowFieldType t = OutputModelsPackage exOptionsN +:+ "." +:+ RowFieldName t.
Proof.
  assert (Hok : bool_decide
                  (is_Some (head (builtTrees
                     (populateNestedDataItems exExt 10 exOptionsN exQueries
                        exStructs
                        (getNestedSourceWithConfigs exOptionsN exQueries) ∅))))
                = true) by (vm_compute; reflexivity).
  destruct (populateNestedDataItems exExt 10 exOptionsN exQueries exStructs
              (getNestedSourceWithConfigs exOptionsN exQueries) ∅)
    as [[[result reg']| |]|] eqn:H; try discriminate Hok.
  cbn [builtTrees] in Hok.
  destruct (treesOf result) as [|t ts] eqn:Ht; [discriminate Hok|].
  assert (Hin : In t (treesOf result)) by (rewrite Ht; now left).
  assert (Hn : In t (allNodes t)) by (rewrite allNodes_unfold; now left).
  exists result, reg', t.
  split; [reflexivity|]. split; [exact Hin|]. split; [exact Hn|].
  exact (field_types_follow_flags _ _ _ _ _ _ _ _ _ H t t Hin Hn).
Defined.

(** ** The earlier builder *)

Section LegacyBuilder.

Import Legacy.

Variable ext : Externals.

Lemma Legacy_NestedConfig_tree_ind (P : NestedConfig -> Prop) :
  (forall c, Forall P (nNested c) -> P c) -> forall c, P c.
Proof.
  intros H. fix IH 1. intros c. apply H.
  destruct c as [? ? ? ? ? children]. simpl.
  induction children as [|c cs IHcs]; constructor; [apply IH | exact IHcs].
Qed.

Lemma Legacy_NestedStructData_tree_ind (P : NestedStructData -> Prop) :
  (forall t, Forall P (sdNested t) -> P t) -> forall t, P t.
Proof.
  intros H. fix IH 1. intros t. apply H.
  destruct t as [? ? ? ? ? ? ? children]. simpl.
  induction children as [|c cs IHcs]; constructor; [apply IH | exact IHcs].
Qed.

Lemma appendEach_Some {A B : Type} (f : A -> option B) (l : list A) (ys : list B) :
  appendEach f l = Some ys -> Forall2 (fun x y => f x = Some y) l ys.
Proof.
  revert ys. induction l as [|x l IH]; intros ys H; simpl in H.
  - injection H as <-. constructor.
  - destruct (f x) as [y|] eqn:Hx; [|discriminate].
    destruct (appendEach f l) as [ys'|]; [|discriminate].
    injection H as <-. constructor; auto.
Qed.

Lemma appendEach_returns {A B : Type} (f : A -> option B) (l : list A) :
  Forall (fun x => exists y, f x = Some y) l -> exists ys, appendEach f l = Some ys.
Proof.
  induction 1 as [|x l [y Hy] _ [ys Hys]]; simpl.
  - now exists [].
  - rewrite Hy, Hys. now exists (y :: ys).
Qed.

Lemma ToLower_nonempty (s : string) : s <> "" -> ToLower s <> "".
Proof. destruct s; [congruence | discriminate]. Qed.

Lemma inflectWithCase_returns (inflect : string -> string) (word : string) :
  (forall s, s <> "" -> inflect s <> "") ->
  exists r, inflectWithCase inflect word = Some r.
Proof.
  intros H. destruct word as [|c w]; [now exists ""|].
  unfold inflectWithCase.
  destruct (isUpperAZ c); [|eauto].
  assert (Hne : String c w <> "") by discriminate.
  specialize (H (ToLower (String c w)) (ToLower_nonempty _ Hne)).
  destruct (inflect (ToLower (String c w))) as [|d r]; [congruence|].
  simpl. eauto.
Qed.

Lemma fieldName_returns (isSlice : bool) (word : string) :
  inflectsWords ext ->
  exists r, (if isSlice then pluralizeWithCase ext word
             else singularizeWithCase ext word) = Some r.
Proof.
  intros H. destruct isSlice; apply inflectWithCase_returns; intros s Hs;
    now destruct (H s Hs).
Qed.

Lemma buildNestedStructData_unfold queryName config structs options :
  buildNestedStructData ext queryName config structs options
  = let isSlice := match nSlice config with Some v => v | None => true end in
    let isPointer := match nPointer config with Some v => v | None => true end in
    match (if isSlice then pluralizeWithCase ext (nStructIn config)
           else singularizeWithCase ext (nStructIn config)) with
    | None => None
    | Some fieldName =>
        match appendEach (fun nested =>
                      buildNestedStructData ext queryName nested structs options)
                   (nNested config) with
        | None => None
        | Some nestedStructs =>
            Some {| sdStructIn := nStructIn config;
                    sdStructOut :=
                      if String.eqb (nStructOut config) ""
                      then queryName +:+ nStructIn config +:+ "Group"
                      else nStructOut config;
                    sdField :=
                      if String.eqb (nField config) "" then "ID" else nField config;
                    sdIsSlice := isSlice;
                    sdIsPointer := isPointer;
                    sdFieldName := fieldName;
                    sdFields :=
                      extractFields ext (structFieldsOf structs (nStructIn config))
                        options (collectNestedFields (nNested config))
                        (nStructIn config);
                    sdNested := nestedStructs |}
        end
    end.
Proof. destruct config; reflexivity. Qed.

Lemma buildDefinitionsOf_unfold nested :
  buildDefinitionsOf ext nested
  = match appendEach (fun childNested =>
                  arrayFieldFor ext (sdStructIn childNested)
                    (sdStructOut childNested) (sdIsSlice childNested)
                    (sdIsPointer childNested))
               (sdNested nested) with
    | None => None
    | Some nestedArrays =>
        match appendEach (buildDefinitionsOf ext) (sdNested nested) with
        | None => None
        | Some below =>
            Some ({| defName := sdStructOut nested;
                     defFields := sdFields nested;
                     defNestedArrays := nestedArrays |} :: concat below)
        end
    end.
Proof. destruct nested; reflexivity. Qed.

Lemma structOuts_unfold nested :
  structOuts nested = sdStructOut nested :: flat_map structOuts (sdNested nested).
Proof. destruct nested; reflexivity. Qed.

Lemma configOuts_unfold queryName config :
  configOuts queryName config
  = (if String.eqb (nStructOut config) ""
     then queryName +:+ nStructIn config +:+ "Group"
     else nStructOut config)
    :: flat_map (configOuts queryName) (nNested config).
Proof. destruct config; reflexivity. Qed.

Lemma buildNestedStructData_returns queryName structs options :
  inflectsWords ext ->
  forall config, exists sd,
    buildNestedStructData ext queryName config structs options = Some sd.
Proof.
  intros Hw config.
  induction config as [config IH] using Legacy_NestedConfig_tree_ind.
  rewrite buildNestedStructData_unfold. cbv zeta.
  destruct (fieldName_returns
              (match nSlice config with Some v => v | None => true end)
              (nStructIn config) Hw) as [fieldName ->].
  destruct (appendEach_returns _ _ IH) as [nestedStructs ->]. eauto.
Qed.

Lemma flat_map_Forall2 {A B C : Type} (f : A -> list C) (g : B -> list C)
    (l : list A) (k : list B) :
  Forall2 (fun x y => g y = f x) l k -> flat_map g k = flat_map f l.
Proof. induction 1; simpl; congruence. Qed.

Lemma buildNestedStructData_outs queryName structs options :
  forall config sd,
    buildNestedStructData ext queryName config structs options = Some sd ->
    structOuts sd = configOuts queryName config.
Proof.
  intros config.
  induction config as [config IH] using Legacy_NestedConfig_tree_ind.
  intros sd H. rewrite buildNestedStructData_unfold in H. cbv zeta in H.
  destruct (if match nSlice config with Some v => v | None => true end
            then _ else _) as [fieldName|]; [|discriminate].
  destruct (appendEach _ (nNested config)) as [nestedStructs|] eqn:Hn;
    [|discriminate].
  injection H as <-. rewrite structOuts_unfold, configOuts_unfold. simpl.
  f_equal. apply flat_map_Forall2.
  apply appendEach_Some in Hn.
  clear -IH Hn. induction Hn as [|x y l k Hxy _ IHl]; constructor.
  - apply (Forall_inv IH), Hxy.
  - apply IHl, (Forall_inv_tail IH).
Qed.

Lemma arrayFieldFor_returns structIn structOut isSlice isPointer :
  inflectsWords ext ->
  exists af, arrayFieldFor ext structIn structOut isSlice isPointer = Some af.
Proof.
  intros Hw. unfold arrayFieldFor.
  destruct (fieldName_returns isSlice structIn Hw) as [fieldName ->]. eauto.
Qed.

Lemma buildDefinitionsOf_returns :
  inflectsWords ext ->
  forall nested, exists defs, buildDefinitionsOf ext nested = Some defs.
Proof.
  intros Hw nested.
  induction nested as [nested IH] using Legacy_NestedStructData_tree_ind.
  rewrite buildDefinitionsOf_unfold.
  destruct (appendEach_returns
              (fun childNested =>
                 arrayFieldFor ext (sdStructIn childNested)
                   (sdStructOut childNested) (sdIsSlice childNested)
                   (sdIsPointer childNested)) (sdNested nested)) as [arrays ->].
  { apply Forall_forall. intros x _. now apply arrayFieldFor_returns. }
  destruct (appendEach_returns _ _ IH) as [below ->]. eauto.
Qed.

Lemma buildDefinitionsOf_names :
  forall nested defs,
    buildDefinitionsOf ext nested = Some defs ->
    map defName defs = structOuts nested.
Proof.
  intros nested.
  induction nested as [nested IH] using Legacy_NestedStructData_tree_ind.
  intros defs H. rewrite buildDefinitionsOf_unfold in H.
  destruct (appendEach _ (sdNested nested)) as [arrays|]; [|discriminate].
  destruct (appendEach (buildDefinitionsOf ext) (sdNested nested))
    as [below|] eqn:Hb; [|discriminate].
  injection H as <-. rewrite structOuts_unfold. simpl. f_equal.
  apply appendEach_Some in Hb.
  clear -IH Hb. induction Hb as [|x y l k Hxy _ IHl]; simpl; [reflexivity|].
  rewrite map_app. f_equal.
  - apply (Forall_inv IH), Hxy.
  - apply IHl, (Forall_inv_tail IH).
Qed.

Lemma buildAllNestedStructDefinitions_names nestedStructs defs :
  buildAllNestedStructDefinitions ext nestedStructs = Some defs ->
  map defName defs = flat_map structOuts nestedStructs.
Proof.
  unfold buildAllNestedStructDefinitions.
  destruct (appendEach _ nestedStructs) as [below|] eqn:Hb; [|discriminate].
  intros [= <-]. apply appendEach_Some in Hb.
  induction Hb as [|x y l k Hxy _ IHl]; simpl; [reflexivity|].
  rewrite map_app. f_equal; [|exact IHl].
  now apply buildDefinitionsOf_names.
Qed.

(** What [buildNestedTemplateData] returns when [flect] gives words: its
    parts, named. *)
Lemma buildNestedTemplateData_returns options package query config structs :
  inflectsWords ext ->
  exists td nestedStructs rootFields rootArrays defs,
    buildNestedTemplateData ext options package query config structs = Some td
    /\ appendEach (fun nested =>
                    buildNestedStructData ext (tdQueryName td) nested structs
                      options) (lqGroup config) = Some nestedStructs
    /\ buildNestedArrayFields ext (lqGroup config) = Some rootArrays
    /\ buildAllNestedStructDefinitions ext nestedStructs = Some defs
    /\ tdNestedStructs td = nestedStructs
    /\ tdGenerateStructs td
       = {| defName := tdRootStruct td;
            defFields := rootFields;
            defNestedArrays := rootArrays |} :: defs.
Proof.
  intros Hw. unfold buildNestedTemplateData.
  set (queryName := if String.eqb (MethodName query) "" then SourceName query
                    else MethodName query).
  destruct (appendEach_returns
              (fun nested => buildNestedStructData ext queryName nested structs
                               options) (lqGroup config)) as [nestedStructs Hn].
  { apply Forall_forall. intros x _. now apply buildNestedStructData_returns. }
  destruct (appendEach_returns
              (fun n =>
                 arrayFieldFor ext (nStructIn n)
                   (if String.eqb (nStructOut n) "" then nStructIn n +:+ "Group"
                    else nStructOut n)
                   (match nSlice n with Some v => v | None => true end)
                   (match nPointer n with Some v => v | None => true end))
              (lqGroup config)) as [rootArrays Ha].
  { apply Forall_forall. intros x _. now apply arrayFieldFor_returns. }
  destruct (appendEach_returns (buildDefinitionsOf ext) nestedStructs)
    as [below Hb].
  { apply Forall_forall. intros x _. now apply buildDefinitionsOf_returns. }
  assert (Hd : buildAllNestedStructDefinitions ext nestedStructs
               = Some (concat below)).
  { unfold buildAllNestedStructDefinitions. now rewrite Hb. }
  cbv zeta. rewrite Hn. fold queryName. unfold buildNestedArrayFields.
  rewrite Ha. cbv iota beta. rewrite Hd.
  eexists _, nestedStructs, _, rootArrays, (concat below).
  split; [reflexivity|]. simpl.
  split; [exact Hn|]. split; [reflexivity|]. split; [exact Hd|].
  split; reflexivity.
Qed.

(** X29.  The earlier builder defines one struct for the root and one for every
    configured node, a node before what lies below it: when [flect] gives
    words, [buildNestedTemplateData] returns, and the names of its
    [GenerateStructs] are the root struct followed by the output names the
    configuration asks for. *)
Theorem Legacy_one_definition_per_configured_node (options : Options)
    (package : string) (query : Query) (config : NestedQueryConfig)
    (structs : list Struct) :
  inflectsWords ext ->
  exists td,
    buildNestedTemplateData ext options package query config structs = Some td
    /\ map defName (tdGenerateStructs td)
       = tdRootStruct td
         :: flat_map (configOuts (tdQueryName td)) (lqGroup config).
Proof.
  intros Hw.
  destruct (buildNestedTemplateData_returns options package query config
              structs Hw)
    as (td & nestedStructs & rootFields & rootArrays & defs
        & Htd & Hn & _ & Hd & _ & Hg).
  exists td. split; [exact Htd|].
  rewrite Hg. simpl. f_equal.
  rewrite (buildAllNestedStructDefinitions_names _ _ Hd).
  apply flat_map_Forall2.
  apply appendEach_Some in Hn.
  eapply Forall2_impl; [exact Hn|].
  intros x y Hxy. simpl in Hxy. now apply buildNestedStructData_outs in Hxy.
Qed.

Lemma arrayType_inj isSlice isPointer a b :
  arrayType isSlice isPointer a = arrayType isSlice isPointer b -> a = b.
Proof.
  unfold arrayType. destruct isSlice, isPointer; intros H;
    repeat (injection H as H); exact H.
Qed.

Lemma append_is_suffix (q x : string) : q +:+ x = x <-> q = "".
Proof.
  split; [|now intros ->].
  intros H. apply (f_equal String.length) in H.
  rewrite length_append in H.
  destruct q; [reflexivity | simpl in H; lia].
Qed.

Lemma root_field_and_struct queryName n structs options af sd :
  arrayFieldFor ext (nStructIn n)
    (if String.eqb (nStructOut n) "" then nStructIn n +:+ "Group"
     else nStructOut n)
    (match nSlice n with Some v => v | None => true end)
    (match nPointer n with Some v => v | None => true end) = Some af ->
  buildNestedStructData ext queryName n structs options = Some sd ->
  afName af = sdFieldName sd
  /\ (afType af = arrayType (sdIsSlice sd) (sdIsPointer sd) (sdStructOut sd)
      <-> nStructOut n <> "" \/ queryName = "").
Proof.
  intros Ha Hs. rewrite buildNestedStructData_unfold in Hs. cbv zeta in Hs.
  unfold arrayFieldFor in Ha.
  destruct (if match nSlice n with Some v => v | None => true end
            then _ else _) as [fieldName|]; [|discriminate].
  destruct (appendEach _ (nNested n)) as [nestedStructs|]; [|discriminate].
  injection Ha as <-. injection Hs as <-. simpl.
  split; [reflexivity|].
  destruct (String.eqb_spec (nStructOut n) "") as [He|Hne].
  - split.
    + intros H%arrayType_inj. right.
      symmetry in H. rewrite <- (append_is_suffix queryName) in *. exact H.
    + intros [H| ->]; [congruence | reflexivity].
  - split; [now left | reflexivity].
Qed.

(** X30.  The earlier builder names the struct of a node directly below the
    root in two ways: the field of the root struct has the type
    [<struct_in>Group] where [buildNestedStructData] defines
    [<query><struct_in>Group].  The type of the root's i-th nested field
    names the struct built for the i-th node exactly when the node has a
    [struct_out] or the query has no name. *)
Theorem Legacy_root_field_type_matches_iff (options : Options)
    (package : string) (query : Query) (config : NestedQueryConfig)
    (structs : list Struct) (i : nat) (n : NestedConfig) :
  inflectsWords ext ->
  lqGroup config !! i = Some n ->
  exists td rootDef defs af sd,
    buildNestedTemplateData ext options package query config structs = Some td
    /\ tdGenerateStructs td = rootDef :: defs
    /\ defNestedArrays rootDef !! i = Some af
    /\ tdNestedStructs td !! i = Some sd
    /\ afName af = sdFieldName sd
    /\ (afType af = arrayType (sdIsSlice sd) (sdIsPointer sd) (sdStructOut sd)
        <-> nStructOut n <> "" \/ tdQueryName td = "").
Proof.
  intros Hw Hi.
  destruct (buildNestedTemplateData_returns options package query config
              structs Hw)
    as (td & nestedStructs & rootFields & rootArrays & defs
        & Htd & Hn & Ha & _ & Hns & Hg).
  apply appendEach_Some in Hn. apply appendEach_Some in Ha.
  destruct (Forall2_lookup_l _ _ _ _ _ Hn Hi) as (sd & Hsd & Hbuild).
  destruct (Forall2_lookup_l _ _ _ _ _ Ha Hi) as (af & Haf & Harr).
  cbv zeta in Harr.
  eexists td, _, defs, af, sd.
  split; [exact Htd|]. split; [exact Hg|]. split; [exact Haf|].
  split; [now rewrite Hns|].
  exact (root_field_and_struct _ _ _ _ _ _ Harr Hbuild).
Qed.

End LegacyBuilder.

Lemma exExt_inflectsWords : Legacy.inflectsWords exExt.
Proof.
  intros s Hs. split; [|exact Hs].
  destruct s; discriminate.
Qed.

Lemma Legacy_one_definition_per_configured_node_witness :
  exists td,
    Legacy.buildNestedTemplateData exExt exOptions "db" exLegacyQuery
      exLegacyConfig exLegacyStructs = Some td
    /\ map Legacy.defName (Legacy.tdGenerateStructs td)
       = ["GetAuthorsGroup"; "GetAuthorsBookGroup"; "GetAuthorsReviewGroup"].
Proof.
  destruct (Legacy_one_definition_per_configured_node exExt exOptions "db"
              exLegacyQuery exLegacyConfig exLegacyStructs exExt_inflectsWords)
    as (td & Htd & Hnames).
  exists td. split; [exact Htd|]. rewrite Hnames.
  vm_compute in Htd. injection Htd as <-. reflexivity.
Defined.

Lemma Legacy_root_field_type_matches_iff_witness :
  exists td af sd,
    Legacy.buildNestedTemplateData exExt exOptions "db" exLegacyQuery
      exLegacyConfig exLegacyStructs = Some td
    /\ Legacy.tdNestedStructs td !! 0%nat = Some sd
    /\ Legacy.afName af = Legacy.sdFieldName sd
    /\ Legacy.afType af
       <> Legacy.arrayType (Legacy.sdIsSlice sd) (Legacy.sdIsPointer sd)
            (Legacy.sdStructOut sd).
Proof.
  destruct (Legacy_root_field_type_matches_iff exExt exOptions "db"
              exLegacyQuery exLegacyConfig exLegacyStructs 0 _
              exExt_inflectsWords eq_refl)
    as (td & rootDef & defs & af & sd & Htd & _ & _ & Hsd & Hname & Hiff).
  exists td, af, sd.
  split; [exact Htd|]. split; [exact Hsd|]. split; [exact Hname|].
  intros H. apply Hiff in H. vm_compute in Htd. injection Htd as <-.
  destruct H as [H|H]; [now apply H | discriminate H].
Defined.

(** The field of the root for the books has a type that no definition
    has. *)
Example Legacy_root_field_names_no_struct :
  match Legacy.buildNestedTemplateData exExt exOptions "db" exLegacyQuery
          exLegacyConfig exLegacyStructs with
  | Some td =>
      map (fun d => (Legacy.defName d,
                     map Legacy.afType (Legacy.defNestedArrays d)))
          (Legacy.tdGenerateStructs td)
  | None => []
  end
  = [ ("GetAuthorsGroup", ["[]*BookGroup"]);
      ("GetAuthorsBookGroup", ["[]*GetAuthorsReviewGroup"]);
      ("GetAuthorsReviewGroup", []) ].
Proof. vm_compute. reflexivity. Qed.

(** [pluralizeWithCase] slices the plural; an empty plural of a capitalised
    word is a panic. *)
Example Legacy_pluralizeWithCase_empty_plural :
  Legacy.pluralizeWithCase
    {| flectPluralize := fun _ => ""; flectSingularize := fun s => s;
       JSONTagName := fun s _ => s; getStructByName := findStructByName;
       mapRange := map_to_list |} "Book" = None.
Proof. reflexivity. Qed.
